(** * ResiliTrack AI: the presentation layer and the score aggregator

    A shallow embedding of the JavaScript of [frontend/src] (the Chatbot,
    the Dashboard page and the Heatmap) together with a model of the score
    aggregator, and the properties the specification states about them.

    Conventions of the embedding.
    - A JavaScript string is a [string]; every character stands for one
      UTF-16 code unit below 256, so [String.length] is the [length]
      property.
    - Scores, deltas and database ids are integers ([Z]): a number of the
      program is a binary64 double, and the embedding holds the doubles
      with an integer value.  The sums the code accumulates over a list
      are rounded as the addition of doubles rounds them ([Js.add]); a
      comparator is read by [sort] for its sign alone, which is the sign
      of the exact difference.
    - A plain object and a [Map] keyed by strings are association lists in
      insertion order, the order in which [Object.entries] and
      [Map.prototype.forEach] enumerate them.  A property is read by its
      own key: the replies are taken not to name a country or an aspect
      by a property that every object inherits ([constructor],
      [toString] and the like).  Where the code indexes an object of its
      own by a string it does not control ([fontMap] in [App]), the
      inherited properties are modelled.
    - A property that may be [undefined] or [null] is an [option]. *)

From Stdlib Require Import ZArith Lia String Ascii List Sorted Permutation.
From Stdlib Require Import DecimalString.
From stdpp Require Import base tactics option list strings.

Local Open Scope string_scope.
Local Open Scope list_scope.
Local Open Scope Z_scope.

(** ** Part I: definitions *)

(** *** The fragment of the JavaScript standard library the code calls *)

Module Js.

(** White space and line terminators of ECMAScript among the code units
    below 256: TAB, LF, VT, FF, CR, SP and NBSP. *)
Definition isWhiteSpace (c : ascii) : bool :=
  let n := N_of_ascii c in
  (((9 <=? n) && (n <=? 13)) || (n =? 32) || (n =? 160))%N.

Fixpoint trimStart (s : string) : string :=
  match s with
  | EmptyString => EmptyString
  | String c s' => if isWhiteSpace c then trimStart s' else s
  end.

Fixpoint trimEnd (s : string) : string :=
  match s with
  | EmptyString => EmptyString
  | String c s' =>
      match trimEnd s' with
      | EmptyString => if isWhiteSpace c then EmptyString else String c EmptyString
      | t => String c t
      end
  end.

(** [String.prototype.trim] *)
Definition trim (s : string) : string := trimEnd (trimStart s).

(** An index argument of [slice]: negative counts from the end. *)
Definition sliceIndex (len i : Z) : Z :=
  if i <? 0 then Z.max (len + i) 0 else Z.min i len.

(** [String.prototype.slice (b, e)] *)
Definition slice (s : string) (b e : Z) : string :=
  let len := Z.of_nat (String.length s) in
  let from := sliceIndex len b in
  let to := sliceIndex len e in
  substring (Z.to_nat from) (Z.to_nat (to - from)) s.

(** [String.prototype.endsWith] *)
Definition endsWith (s suffix : string) : bool :=
  let n := String.length s in
  let m := String.length suffix in
  (m <=? n)%nat && String.eqb (substring (n - m) m s) suffix.

(** Truthiness of a value that is a string or [undefined]. *)
Definition truthy (v : option string) : bool :=
  match v with
  | Some s => negb (String.eqb s "")
  | None => false
  end.

(** [v || 0] on a value that is a number or [undefined]. *)
Definition orZero (v : option Z) : Z :=
  match v with
  | Some n => n
  | None => 0
  end.

(** The double nearest to an integer, a tie going to the even
    significand: the integer itself up to 2^53 in magnitude, and beyond it
    a multiple of the spacing of the doubles of its size.  (The infinities,
    which a magnitude of 2^1024 reaches, are not held.) *)
Definition double (z : Z) : Z :=
  let m := Z.abs z in
  if m <? 2 ^ 53 then z
  else
    let ulp := 2 ^ (Z.log2 m - 52) in
    let q := m / ulp in
    let r := m mod ulp in
    let q := if 2 * r <? ulp then q
             else if ulp <? 2 * r then q + 1
             else if Z.even q then q else q + 1 in
    Z.sgn z * (q * ulp).

(** [a + b] on two doubles with an integer value: the exact sum,
    rounded to a double. *)
Definition add (a b : Z) : Z := double (a + b).

(** Objects and Maps keyed by strings, in insertion order. *)
Definition obj (V : Type) : Type := list (string * V).

Section Objects.
Context {V : Type}.

Fixpoint get (o : obj V) (k : string) : option V :=
  match o with
  | [] => None
  | (k', v) :: o' => if String.eqb k k' then Some v else get o' k
  end.

Definition has (o : obj V) (k : string) : bool :=
  match get o k with
  | Some _ => true
  | None => false
  end.

(** Assignment keeps the position of a key already present and appends
    a new key. *)
Fixpoint set (o : obj V) (k : string) (v : V) : obj V :=
  match o with
  | [] => [(k, v)]
  | (k', v') :: o' =>
      if String.eqb k k' then (k', v) :: o' else (k', v') :: set o' k v
  end.

Definition keys (o : obj V) : list string := map fst o.
End Objects.

(** [Array.prototype.sort (compareFn)].  The sort is stable, and with a
    consistent comparator its result is the one stable arrangement;
    insertion from the right computes it: an element moves past the
    elements that [compareFn] orders strictly before it and no further. *)
Section Sort.
Context {A : Type}.
Variable compareFn : A -> A -> Z.

Fixpoint insert (x : A) (l : list A) : list A :=
  match l with
  | [] => [x]
  | y :: l' => if 0 <? compareFn x y then y :: insert x l' else x :: l
  end.

Definition sort (l : list A) : list A := foldr insert [] l.

(** The order a stable sort leaves between two elements: the
    comparator puts the first strictly before the second, or it does
    not tell them apart and the first stood [before] the second. *)
Definition precedes (before : A -> A -> Prop) (a b : A) : Prop :=
  compareFn a b < 0 \/ (compareFn a b = 0 /\ before a b).
End Sort.

(** [Set.prototype.add] on a set of strings kept in insertion order. *)
Definition setAdd (s : list string) (x : string) : list string :=
  if existsb (String.eqb x) s then s else s ++ [x].

(** Decimal rendering of an integer inside a template literal. *)
Definition numberToString (n : Z) : string :=
  NilZero.string_of_int (Z.to_int n).

End Js.

(** *** The aspect literals of the three presentation components *)

Module Heatmap.

Definition aspectOrder : list string :=
  [ "Economic Stability";
    "Defense & Strategic Security";
    "Healthcare & Biological Readiness";
    "Cyber Resilience & Digital Infrastructure";
    "Demographic & Social Stability";
    "Energy Security";
    "Debt & Fiscal Sustainability" ].

End Heatmap.

(** *** The payloads exchanged with the backend (utils/api) *)

Module Api.

(** One element of [impacts]. *)
Record Impact := {
  country : string;
  aspect : string;
  delta : option Z;
  reason : option string }.

(** The body of a reply of [analyzeScenario], with the properties that
    the Chatbot, the rank map and the country ordering read. *)
Record AnalysisData := {
  analysis : option string;
  impacts : option (list Impact);
  country_scores : option (Js.obj Z);
  baseline_country_scores : option (Js.obj Z);
  aspect_scores : option (Js.obj (Js.obj Z));
  baseline_aspect_scores : option (Js.obj (Js.obj Z));
  aspect_deltas : option (Js.obj (Js.obj Z));
  aspect_reasons : option (Js.obj (Js.obj string)) }.

(** One element of [history] in a reply of [getChatHistory].  The ids are
    the numbers the History Store assigns. *)
Record HistoryItem := {
  item_id : Z;
  item_message : string;
  item_sender : string;
  item_scenario : option string;
  item_analysis_data : option AnalysisData;
  item_created_at : option string }.

(** The requests the Chatbot issues. *)
Inductive Call :=
| analyzeScenario (headline : string)
| getChatHistory
| addChatMessage (message sender scenario : string)
                 (analysis_data : option AnalysisData)
| deleteChatMessage (messageId : Z).

(** How an awaited request settles. *)
Inductive Reply (A : Type) :=
| Resolved (a : A)
| Rejected.
Arguments Resolved {A} a.
Arguments Rejected {A}.

End Api.

(** *** pages/DashboardPage.jsx *)

Module DashboardPage.

Definition DEFAULT_ASPECTS : list string :=
  [ "Economic Stability";
    "Defense & Strategic Security";
    "Healthcare & Biological Readiness";
    "Cyber Resilience & Digital Infrastructure";
    "Demographic & Social Stability";
    "Energy Security";
    "Debt & Fiscal Sustainability" ].

(** The comparator [(a, b) => b[1] - a[1]] on entries. *)
Definition byScoreDesc (a b : string * Z) : Z := snd b - snd a.

(** [reduce] with the index of the element, as [buildRankMap] calls it. *)
Fixpoint reduce {A B : Type} (f : B -> A -> nat -> B)
         (l : list A) (index : nat) (acc : B) : B :=
  match l with
  | [] => acc
  | x :: l' => reduce f l' (S index) (f acc x index)
  end.

Definition buildRankMap (scores : Js.obj Z) : Js.obj Z :=
  reduce (fun acc entry index => Js.set acc (fst entry) (Z.of_nat index + 1))
         (Js.sort byScoreDesc scores) 0%nat [].

(** [analysisData?.country_scores || {}] *)
Definition countryScores (analysisData : option Api.AnalysisData) : Js.obj Z :=
  default [] (analysisData ≫= Api.country_scores).

Definition hasData (analysisData : option Api.AnalysisData) : bool :=
  (0 <? length (Js.keys (countryScores analysisData)))%nat.

Definition sortedCountries (analysisData : option Api.AnalysisData) : list string :=
  if hasData analysisData
  then map fst (Js.sort byScoreDesc (countryScores analysisData))
  else [].

End DashboardPage.

(** *** components/Chatbot.jsx *)

Module Chatbot.
Import Api.

Definition aspectOrder : list string :=
  [ "Economic Stability";
    "Defense & Strategic Security";
    "Healthcare & Biological Readiness";
    "Cyber Resilience & Digital Infrastructure";
    "Demographic & Social Stability";
    "Energy Security";
    "Debt & Fiscal Sustainability" ].

(** **** The impact summary *)

(** The value an aspect map holds for one aspect: the running sum and the
    [Set] of reasons in insertion order. *)
Record Group := {
  group_delta : Z;
  group_reasons : list string }.

Record SummaryItem := {
  summary_aspect : string;
  summary_delta : Z;
  summary_reason : option string }.

Record CountrySummary := {
  summary_country : string;
  totalImpact : Z;
  summary_aspects : list SummaryItem }.

Record SummaryEntry := {
  entry_country : string;
  entry_aspects : list SummaryItem }.

(** The two statements of the [forEach] that update the group of an
    impact: [existing.delta += impact.delta || 0] and, for a truthy
    reason, [existing.reasons.add (impact.reason)]. *)
Definition accumulate (existing : Group) (impact : Impact) : Group :=
  {| group_delta := Js.add (group_delta existing) (Js.orZero (delta impact));
     group_reasons :=
       match reason impact with
       | Some r => if Js.truthy (Some r)
                   then Js.setAdd (group_reasons existing) r
                   else group_reasons existing
       | None => group_reasons existing
       end |}.

(** The value of [aspectMap.get (aspect) || { delta: 0, reasons: new Set () }]
    when the aspect is new. *)
Definition emptyGroup : Group := {| group_delta := 0; group_reasons := [] |}.

(** The body of the [forEach] over the impacts.  The aspect map is shared
    with the country map, so the update of the former is written back
    into the latter. *)
Definition addImpact (countryMap : Js.obj (Js.obj Group)) (impact : Impact)
  : Js.obj (Js.obj Group) :=
  let countryMap :=
    if Js.has countryMap (country impact) then countryMap
    else Js.set countryMap (country impact) [] in
  let aspectMap := default [] (Js.get countryMap (country impact)) in
  let existing := default emptyGroup (Js.get aspectMap (aspect impact)) in
  let existing := accumulate existing impact in
  Js.set countryMap (country impact) (Js.set aspectMap (aspect impact) existing).

Definition groupImpacts (l : list Impact) : Js.obj (Js.obj Group) :=
  fold_left addImpact l [].

Definition summaryItem (entry : string * Group) : SummaryItem :=
  {| summary_aspect := fst entry;
     summary_delta := group_delta (snd entry);
     summary_reason := head (group_reasons (snd entry)) |}.

Definition countrySummaryOf (entry : string * Js.obj Group) : CountrySummary :=
  let aspects := map summaryItem (snd entry) in
  {| summary_country := fst entry;
     totalImpact :=
       fold_left (fun sum item => Js.add sum (Z.abs (summary_delta item)))
                 aspects 0;
     summary_aspects := aspects |}.

Definition byTotalImpactDesc (a b : CountrySummary) : Z :=
  totalImpact b - totalImpact a.

Definition byAbsDeltaDesc (a b : SummaryItem) : Z :=
  Z.abs (summary_delta b) - Z.abs (summary_delta a).

Definition buildImpactSummary (analysisData : option AnalysisData)
  : list SummaryEntry :=
  match analysisData ≫= impacts with
  | None | Some [] => []
  | Some l =>
      let countrySummary := map countrySummaryOf (groupImpacts l) in
      map (fun entry =>
             {| entry_country := summary_country entry;
                entry_aspects :=
                  take 2 (Js.sort byAbsDeltaDesc (summary_aspects entry)) |})
          (Js.sort byTotalImpactDesc countrySummary)
  end.

(** **** The impact details *)

Record DetailItem := {
  detail_aspect : string;
  detail_delta : Z;
  detail_score : option Z;
  detail_reason : option string }.

Record DetailEntry := {
  detail_country : string;
  detail_aspects : list DetailItem }.

Section Details.
(** [String.prototype.localeCompare] follows the collation of the host
    locale; it is a parameter of the model. *)
Variable localeCompare : string -> string -> Z.

Definition buildImpactDetails (analysisData : option AnalysisData)
  : list DetailEntry :=
  match analysisData with
  | None => []
  | Some data =>
      match aspect_scores data with
      | None => []
      | Some scores =>
          let aspectDeltas := default [] (aspect_deltas data) in
          let aspectReasons := default [] (aspect_reasons data) in
          let countrySummary :=
            map (fun entry : string * Js.obj Z =>
                   let (country, aspects) := entry in
                   {| detail_country := country;
                      detail_aspects :=
                        map (fun aspect =>
                               {| detail_aspect := aspect;
                                  detail_delta :=
                                    default 0 (Js.get aspectDeltas country
                                                 ≫= fun o => Js.get o aspect);
                                  detail_score := Js.get aspects aspect;
                                  detail_reason :=
                                    Some (default "" (Js.get aspectReasons country
                                                        ≫= fun o => Js.get o aspect))
                               |})
                            aspectOrder |})
                scores in
          Js.sort (fun a b => localeCompare (detail_country a) (detail_country b))
                  countrySummary
      end
  end.
End Details.

Definition formatReason (item : DetailItem) : string :=
  match detail_reason item with
  | None => ""
  | Some reason =>
      if negb (Js.truthy (Some reason)) || String.eqb reason "no significant change"
      then ""
      else
        let clean := Js.trim reason in
        let clean := if Js.endsWith clean "." then Js.slice clean 0 (-1) else clean in
        let clean :=
          if (160 <? String.length clean)%nat
          then (Js.slice clean 0 157 ++ "...")%string
          else clean in
        clean
  end.

(** **** The message list *)

(** A message id is the literal of the welcome message or a string made
    by [createMessageId], or the number the History Store assigned. *)
Inductive MessageId :=
| IdString (s : string)
| IdNumber (n : Z).

(** [createdAt] is a number for a pending message and the stored text
    for a message of the history. *)
Inductive Timestamp :=
| TimeNumber (n : Z)
| TimeText (s : string).

Record Message := {
  id : MessageId;
  text : string;
  sender : string;
  scenario : option string;
  isWelcome : bool;
  pending : option bool;
  retryable : bool;
  analysisData : option AnalysisData;
  createdAt : option Timestamp }.

(** The state of the component and the requests it has issued so far,
    oldest first. *)
Record State := {
  messages : list Message;
  input : string;
  isLoading : bool;
  calls : list Call }.

Definition welcomeMessage : Message :=
  {| id := IdString "welcome";
     text := "Welcome to ResiliTrack AI.";
     sender := "bot";
     scenario := None;
     isWelcome := true;
     pending := None;
     retryable := false;
     analysisData := None;
     createdAt := None |}.

Definition defaultMessages : list Message := [welcomeMessage].

Definition initialState : State :=
  {| messages := defaultMessages; input := ""; isLoading := false; calls := [] |}.

(** What [Date.now ()] and [Math.random ().toString (16).slice (2)]
    deliver to one call of [createMessageId]. *)
Record Entropy := {
  now : Z;
  random : string }.

Definition createMessageId (e : Entropy) : string :=
  (Js.numberToString (now e) ++ "-" ++ random e)%string.

(** Strict equality of ids. *)
Definition idEq (a b : MessageId) : bool :=
  match a, b with
  | IdString s, IdString t => String.eqb s t
  | IdNumber n, IdNumber m => n =? m
  | _, _ => false
  end.

Definition idTruthy (a : option MessageId) : bool :=
  match a with
  | Some (IdString s) => negb (String.eqb s "")
  | Some (IdNumber n) => negb (n =? 0)
  | None => false
  end.

Definition setMessages (f : list Message -> list Message) (st : State) : State :=
  {| messages := f (messages st); input := input st;
     isLoading := isLoading st; calls := calls st |}.

Definition setInput (v : string) (st : State) : State :=
  {| messages := messages st; input := v;
     isLoading := isLoading st; calls := calls st |}.

Definition setIsLoading (b : bool) (st : State) : State :=
  {| messages := messages st; input := input st;
     isLoading := b; calls := calls st |}.

Definition request (c : Call) (st : State) : State :=
  {| messages := messages st; input := input st;
     isLoading := isLoading st; calls := calls st ++ [c] |}.

Definition mapHistory (item : HistoryItem) : Message :=
  {| id := IdNumber (item_id item);
     text := item_message item;
     sender := item_sender item;
     scenario := item_scenario item;
     isWelcome := false;
     pending := None;
     retryable := false;
     analysisData := item_analysis_data item;
     createdAt := TimeText <$> item_created_at item |}.

(** [refreshHistory], with the way [getChatHistory] settled; the reply
    carries [response?.history]. *)
Definition refreshHistory (reply : Reply (option (list HistoryItem))) (st : State)
  : State :=
  let st := request getChatHistory st in
  match reply with
  | Rejected => setMessages (fun _ => defaultMessages) st
  | Resolved response =>
      match default [] response with
      | [] => setMessages (fun _ => defaultMessages) st
      | history => setMessages (fun _ => defaultMessages ++ map mapHistory history) st
      end
  end.

(** The listener of the [resilitrack-chat-cleared] event. *)
Definition handleClear (st : State) : State :=
  setMessages (fun _ => defaultMessages) st.

Definition findLastBotMessageForScenario
           (scenarioText : option string) (list : list Message) : option Message :=
  if negb (Js.truthy scenarioText) then None
  else find (fun message =>
               String.eqb (sender message) "bot"
               && bool_decide (scenario message = scenarioText))
            (rev list).

(** The part of [runScenario] that runs before the request is awaited. *)
Definition runScenario (scenarioText : string)
           (botMessageIdToDelete : option MessageId)
           (e : Entropy) (createdAtNow : Z) (st : State) : State * string :=
  let st := setIsLoading true st in
  let pendingId := createMessageId e in
  let pendingMessage :=
    {| id := IdString pendingId;
       text := "Analyzing scenario... preparing resilience update.";
       sender := "bot";
       scenario := Some scenarioText;
       isWelcome := false;
       pending := Some true;
       retryable := false;
       analysisData := None;
       createdAt := Some (TimeNumber createdAtNow) |} in
  let st :=
    match botMessageIdToDelete with
    | Some (IdNumber n) =>
        if idTruthy botMessageIdToDelete then request (deleteChatMessage n) st else st
    | _ => st
    end in
  let st :=
    setMessages
      (fun prev =>
         let updated :=
           match botMessageIdToDelete with
           | Some target =>
               if idTruthy botMessageIdToDelete
               then List.filter (fun message => negb (idEq (id message) target)) prev
               else prev
           | None => prev
           end in
         updated ++ [pendingMessage])
      st in
  (request (analyzeScenario scenarioText) st, pendingId).

Definition replaceId (localId : string) (message_id : Z) (message : Message)
  : Message :=
  if idEq (id message) (IdString localId)
  then {| id := IdNumber message_id; text := text message;
          sender := sender message; scenario := scenario message;
          isWelcome := isWelcome message; pending := pending message;
          retryable := retryable message;
          analysisData := analysisData message;
          createdAt := createdAt message |}
  else message.

(** The [then] callback of an [addChatMessage] request: the local id is
    swapped for the stored one when the reply carries a truthy
    [message_id]. *)
Definition messageIdAssigned (localId : string) (message_id : option Z) (st : State)
  : State :=
  match message_id with
  | Some n =>
      if n =? 0 then st else setMessages (map (replaceId localId n)) st
  | None => st
  end.

(** The rest of [runScenario], once [analyzeScenario] has settled. *)
Definition runScenarioSettled (scenarioText pendingId : string)
           (reply : Reply AnalysisData) (st : State) : State :=
  let st :=
    match reply with
    | Resolved result =>
        let finalText :=
          match analysis result with
          | Some a => if Js.truthy (Some a) then a
                      else "Analysis completed. Check the charts for results."
          | None => "Analysis completed. Check the charts for results."
          end in
        let st :=
          setMessages
            (map (fun message =>
                    if idEq (id message) (IdString pendingId)
                    then {| id := id message; text := finalText;
                            sender := sender message; scenario := scenario message;
                            isWelcome := isWelcome message; pending := Some false;
                            retryable := retryable message;
                            analysisData := Some result;
                            createdAt := createdAt message |}
                    else message))
            st in
        request (addChatMessage finalText "bot" scenarioText (Some result)) st
    | Rejected =>
        let errorText :=
          "Sorry, there was an error analyzing your scenario. Please try again." in
        let st :=
          setMessages
            (map (fun message =>
                    if idEq (id message) (IdString pendingId)
                    then {| id := id message; text := errorText;
                            sender := sender message; scenario := scenario message;
                            isWelcome := isWelcome message; pending := Some false;
                            retryable := true;
                            analysisData := analysisData message;
                            createdAt := createdAt message |}
                    else message))
            st in
        request (addChatMessage errorText "bot" scenarioText None) st
    end in
  setIsLoading false st.

(** [handleRegenerate] reads [messages] and [isLoading] of the render that
    drew the button; it yields the arguments it passes to [runScenario],
    or nothing when it returns early. *)
Definition handleRegenerate (rendered : State) (scenarioText : option string)
           (messageId : MessageId) (sender : string)
  : option (string * MessageId) :=
  match scenarioText with
  | None => None
  | Some txt =>
      if negb (Js.truthy scenarioText) || isLoading rendered then None
      else if String.eqb sender "user" then
        match findLastBotMessageForScenario scenarioText (messages rendered) with
        | None => None
        | Some lastBotMessage => Some (txt, id lastBotMessage)
        end
      else Some (txt, messageId)
  end.

(** The part of [handleSendMessage] that runs before [runScenario] is
    awaited, with the id of the pending message when a scenario was
    started.  ([event.preventDefault ()] touches the event only.) *)
Definition handleSendMessage (e1 e2 : Entropy) (createdAtNow : Z) (st : State)
  : State * option string :=
  let scenarioText := Js.trim (input st) in
  if negb (Js.truthy (Some scenarioText)) then (st, None)
  else
    let userMessageId := createMessageId e1 in
    let userMessage :=
      {| id := IdString userMessageId;
         text := scenarioText;
         sender := "user";
         scenario := Some scenarioText;
         isWelcome := false;
         pending := None;
         retryable := false;
         analysisData := None;
         createdAt := None |} in
    let st := setMessages (fun prev => prev ++ [userMessage]) st in
    let st := request (addChatMessage scenarioText "user" scenarioText None) st in
    let st := setInput "" st in
    let (st, pendingId) := runScenario scenarioText None e2 createdAtNow st in
    (st, Some pendingId).

(** The states of the component: what the event handlers and the
    callbacks of the requests make of the initial state.  A settled
    request passes the id that [createMessageId] made for it. *)
Inductive reachable : State -> Prop :=
| reach_initial :
    reachable initialState
| reach_refreshHistory reply st :
    reachable st ->
    reachable (refreshHistory reply st)
| reach_handleClear st :
    reachable st ->
    reachable (handleClear st)
| reach_setInput v st :
    reachable st ->
    reachable (setInput v st)
| reach_handleSendMessage e1 e2 t st :
    reachable st ->
    reachable (fst (handleSendMessage e1 e2 t st))
| reach_handleRegenerate rendered message txt target e t st :
    reachable rendered ->
    reachable st ->
    In message (messages rendered) ->
    handleRegenerate rendered (scenario message) (id message) (sender message)
      = Some (txt, target) ->
    reachable (fst (runScenario txt (Some target) e t st))
| reach_runScenarioSettled txt e reply st :
    reachable st ->
    reachable (runScenarioSettled txt (createMessageId e) reply st)
| reach_messageIdAssigned e message_id st :
    reachable st ->
    reachable (messageIdAssigned (createMessageId e) message_id st).

End Chatbot.

(** *** The score aggregator *)

(** The aggregation and ranking pipeline runs in the backend ([backend/],
    Python), which is not among the sources at hand; the definitions of
    this module follow sections 3, 4 and 6 of the specification. *)
Module Aggregator.

(** Modelled from the spec: the error taxonomy of section 7 (the backend
    that raises them is missing). *)
Inductive Error :=
| ValidationError
| InterpretationError
| InvalidReference
| EmptyBaseline.

(** Modelled from the spec: the policy for an impact that references an
    unknown country or aspect, "either dropped with a warning or rejected
    wholesale", which the missing backend fixes one way or the other. *)
Inductive InvalidPolicy :=
| DropInvalid
| RejectWholesale.

(** Modelled from the spec: an ImpactRecord of section 3, as the missing
    Impact Interpreter produces it. *)
Record ImpactRecord := {
  country : string;
  aspect : string;
  delta : Z;
  reason : string }.

(** Modelled from the spec: the AnalysisResult of sections 3 and 6, the
    bundle the missing [aggregate] returns, less the derived summary and
    the narrative. *)
Record AnalysisResult := {
  country_scores : Js.obj Z;
  baseline_country_scores : Js.obj Z;
  aspect_scores : Js.obj (Js.obj Z);
  baseline_aspect_scores : Js.obj (Js.obj Z);
  aspect_deltas : Js.obj (Js.obj Z);
  aspect_reasons : Js.obj (Js.obj string);
  impacts : list ImpactRecord;
  rankings : list string }.

(** Modelled from the spec: the seven aspects of the missing backend, by
    the literals the presentation layer indexes with. *)
Definition aspects : list string := Chatbot.aspectOrder.

(** Modelled from the spec: [clamp (x, 0, 100)] of the missing
    aggregator, for any bounds. *)
Definition clamp (x lo hi : Z) : Z := Z.max lo (Z.min x hi).

(** Modelled from the spec: the mean of the scores of a country "rounded
    to the nearest integer" in the missing aggregator (half rounds up;
    with seven scores no mean lies halfway). *)
Definition roundedMean (scores : list Z) : Z :=
  let n := Z.of_nat (length scores) in
  (2 * foldr Z.add 0 scores + n) / (2 * n).

(** Modelled from the spec: the CountryScore of the missing aggregator,
    the unweighted mean of the aspect scores, rounded and clamped. *)
Definition country_total (scores : list Z) : Z :=
  clamp (roundedMean scores) 0 100.

Section Aggregate.
(** The enumeration of the ten countries, which the specification
    does not list. *)
Variable countries : list string.
Variable policy : InvalidPolicy.

(** Modelled from the spec: the check of the missing aggregator that an
    impact references a valid Country and Aspect. *)
Definition validReference (r : ImpactRecord) : bool :=
  existsb (String.eqb (country r)) countries
  && existsb (String.eqb (aspect r)) aspects.

(** Modelled from the spec: a cell of the baseline table read by the
    missing aggregator. *)
Definition baselineScore (baseline : Js.obj (Js.obj Z)) (c a : string)
  : option Z :=
  Js.get baseline c ≫= fun row => Js.get row a.

(** Modelled from the spec: "baseline is a complete table covering all
    (Country, Aspect) pairs", as the missing aggregator checks it. *)
Definition complete (baseline : Js.obj (Js.obj Z)) : bool :=
  forallb (fun c =>
             forallb (fun a => bool_decide (is_Some (baselineScore baseline c a)))
                     aspects)
          countries.

(** Modelled from the spec: "BaselineScore: mapping (Country x Aspect)
    -> integer score in [0,100]", the table the missing Indicator Cache
    loads: complete, with every score in range. *)
Definition wellScored (baseline : Js.obj (Js.obj Z)) : bool :=
  forallb (fun c =>
             forallb (fun a =>
                        match baselineScore baseline c a with
                        | Some v => (0 <=? v) && (v <=? 100)
                        | None => false
                        end)
                     aspects)
          countries.

(** Modelled from the spec: the group of a (country, aspect) pair in
    step 1 of the missing aggregator. *)
Definition group (l : list ImpactRecord) (c a : string) : list ImpactRecord :=
  List.filter (fun r => String.eqb (country r) c && String.eqb (aspect r) a) l.

(** Modelled from the spec: "sum deltas within each group". *)
Definition summed_delta (l : list ImpactRecord) (c a : string) : Z :=
  foldr Z.add 0 (map delta (group l c a)).

(** Modelled from the spec: the reason of a group in the missing
    aggregator, the first non-empty one (section 9). *)
Definition merged_reason (l : list ImpactRecord) (c a : string) : string :=
  default "" (head (List.filter (fun s => negb (String.eqb s ""))
                                (map reason (group l c a)))).

(** Modelled from the spec: step 2 of the missing aggregator,
    [clamp (baseline_score + summed_delta, 0, 100)]. *)
Definition scenario_score (baseline : Js.obj (Js.obj Z))
           (l : list ImpactRecord) (c a : string) : Z :=
  clamp (default 0 (baselineScore baseline c a) + summed_delta l c a) 0 100.

(** Modelled from the spec: a table over every pair of the
    enumerations, as the missing aggregator lays its output out. *)
Definition table {V : Type} (cell : string -> string -> V) : Js.obj (Js.obj V) :=
  map (fun c => (c, map (fun a => (a, cell c a)) aspects)) countries.

(** Modelled from the spec: step 3 of the missing aggregator, one total
    per row of a score table. *)
Definition totals (scores : Js.obj (Js.obj Z)) : Js.obj Z :=
  map (fun row => (fst row, country_total (map snd (snd row)))) scores.

(** Modelled from the spec: steps 1 to 4 of the missing aggregator on
    impacts that passed validation.  They are the raw list [impacts] of
    the result: an impact with an unknown reference "does not appear in,
    nor corrupt, the output" (section 8). *)
Definition combine (baseline : Js.obj (Js.obj Z)) (l : list ImpactRecord)
  : AnalysisResult :=
  let baseline_scores :=
    table (fun c a => default 0 (baselineScore baseline c a)) in
  let scenario_scores := table (scenario_score baseline l) in
  {| country_scores := totals scenario_scores;
     baseline_country_scores := totals baseline_scores;
     aspect_scores := scenario_scores;
     baseline_aspect_scores := baseline_scores;
     aspect_deltas := table (summed_delta l);
     aspect_reasons := table (merged_reason l);
     impacts := l;
     rankings :=
       map fst (Js.sort DashboardPage.byScoreDesc (totals scenario_scores)) |}.

(** Modelled from the spec: [aggregate (baseline, impacts)] of section
    4.1, the operation of the missing backend. *)
Definition aggregate (baseline : Js.obj (Js.obj Z)) (l : list ImpactRecord)
  : Error + AnalysisResult :=
  if negb (complete baseline) then inl EmptyBaseline
  else
    match policy with
    | DropInvalid => inr (combine baseline (List.filter validReference l))
    | RejectWholesale =>
        if forallb validReference l then inr (combine baseline l)
        else inl InvalidReference
    end.

(** Modelled from the spec: the analyze operation of section 6 at the
    boundary of the missing backend; the headline must be non-empty
    after trimming, and a failure of the Impact Interpreter falls back
    to the empty impact list (section 4.2). *)
Definition analyze (interpret : string -> Error + list ImpactRecord)
           (baseline : Js.obj (Js.obj Z)) (headline : string)
  : Error + AnalysisResult :=
  if String.eqb (Js.trim headline) "" then inl ValidationError
  else
    match interpret headline with
    | inr l => aggregate baseline l
    | inl _ => aggregate baseline []
    end.
End Aggregate.

(** Modelled from the spec: the AnalysisResult "serialized as a flat
    JSON-compatible object" (section 6), as the missing backend sends it
    to the presentation layer. *)
Definition serialize (r : AnalysisResult) : Api.AnalysisData :=
  {| Api.analysis := None;
     Api.impacts :=
       Some (map (fun i => {| Api.country := country i;
                              Api.aspect := aspect i;
                              Api.delta := Some (delta i);
                              Api.reason := Some (reason i) |})
                 (impacts r));
     Api.country_scores := Some (country_scores r);
     Api.baseline_country_scores := Some (baseline_country_scores r);
     Api.aspect_scores := Some (aspect_scores r);
     Api.baseline_aspect_scores := Some (baseline_aspect_scores r);
     Api.aspect_deltas := Some (aspect_deltas r);
     Api.aspect_reasons := Some (aspect_reasons r) |}.

End Aggregator.

(** *** Vocabulary of the statements *)

Module Readings.
Import Js Api Chatbot.

(** The impact hits the pair of a country and an aspect. *)
Definition hits (c a : string) (impact : Impact) : bool :=
  String.eqb (country impact) c && String.eqb (aspect impact) a.

(** The group a country map holds for a pair. *)
Definition lookupGroup (countryMap : obj (obj Group)) (c a : string)
  : option Group :=
  get countryMap c ≫= fun aspectMap => get aspectMap a.

(** The delta the grouping of [buildImpactSummary] holds for a pair, if
    any impact hits it. *)
Definition aggregatedDelta (l : list Impact) (c a : string) : option Z :=
  group_delta <$> lookupGroup (groupImpacts l) c a.

(** The sum of the deltas of the impacts that hit a pair. *)
Definition summedDelta (l : list Impact) (c a : string) : Z :=
  foldr Z.add 0 (map (fun impact => orZero (delta impact))
                     (List.filter (hits c a) l)).

(** The deltas of the impacts that hit a pair, added one after the other
    in the order of the list, every addition rounded to a double. *)
Definition accumulatedDelta (l : list Impact) (c a : string) : Z :=
  fold_left add (map (fun impact => orZero (delta impact))
                     (List.filter (hits c a) l)) 0.

(** The magnitudes of the deltas of the impacts that hit a pair, summed. *)
Definition magnitude (l : list Impact) (c a : string) : Z :=
  foldr Z.add 0 (map (fun impact => Z.abs (orZero (delta impact)))
                     (List.filter (hits c a) l)).

(** The sums of the deltas of every pair are exact as doubles, in
    whatever order they are taken: the magnitudes of the deltas of a pair
    add up to 2^53 at most. *)
Definition exactSums (l : list Impact) : Prop :=
  forall c a, magnitude l c a <= 2 ^ 53.

(** What a summary shows of the deltas: the countries in their order,
    each with the aspects shown for it and their deltas. *)
Definition shownDeltas (summary : list SummaryEntry)
  : list (string * list (string * Z)) :=
  map (fun entry =>
         (entry_country entry,
          map (fun item => (summary_aspect item, summary_delta item))
              (entry_aspects entry)))
      summary.

(** The first non-empty reason among the impacts that hit a pair, in the
    order of the list. *)
Definition firstNonEmptyReason (l : list Impact) (c a : string) : option string :=
  head (List.filter (fun r => negb (String.eqb r ""))
                    (omap reason (List.filter (hits c a) l))).

(** [aspectDeltas[country]?.[aspect] ?? 0] and
    [aspectReasons[country]?.[aspect] || ''] as [buildImpactDetails]
    reads them. *)
Definition deltaOf (data : AnalysisData) (c a : string) : Z :=
  default 0 (get (default [] (aspect_deltas data)) c ≫= fun o => get o a).

Definition reasonOf (data : AnalysisData) (c a : string) : string :=
  default "" (get (default [] (aspect_reasons data)) c ≫= fun o => get o a).

(** The reply with another impact list. *)
Definition withImpacts (data : AnalysisData) (l : option (list Impact))
  : AnalysisData :=
  {| analysis := analysis data;
     impacts := l;
     country_scores := country_scores data;
     baseline_country_scores := baseline_country_scores data;
     aspect_scores := aspect_scores data;
     baseline_aspect_scores := baseline_aspect_scores data;
     aspect_deltas := aspect_deltas data;
     aspect_reasons := aspect_reasons data |}.

(** The score an object of country scores holds for a country. *)
Definition scoreOf (scores : obj Z) (c : string) : Z :=
  default 0 (get scores c).

(** The place of a country in an enumeration. *)
Fixpoint position (enum : list string) (c : string) : nat :=
  match enum with
  | [] => 0%nat
  | x :: enum' => if String.eqb c x then 0%nat else S (position enum' c)
  end.

(** The countries stand in the order of the enumeration. *)
Definition listedInOrder (enum l : list string) : Prop :=
  StronglySorted (fun a b => (position enum a < position enum b)%nat) l.

(** [a] ranks before [b]: a higher score, or the same score and an
    earlier place in the enumeration. *)
Definition ranksBefore (scores : obj Z) (enum : list string) (a b : string) : Prop :=
  scoreOf scores b < scoreOf scores a
  \/ (scoreOf scores a = scoreOf scores b
      /\ (position enum a < position enum b)%nat).

(** The message does not bear the id of the welcome message. *)
Definition notWelcomeId (message : Message) : Prop :=
  id message <> IdString "welcome".

(** The welcome message leads and nothing after it bears its id. *)
Definition welcomeLeads (l : list Message) : Prop :=
  exists rest, l = welcomeMessage :: rest /\ Forall notWelcomeId rest.

(** [accumulate] on a group that may not be there yet. *)
Definition step (g : option Group) (impact : Impact) : option Group :=
  Some (accumulate (default emptyGroup g) impact).

(** No key twice, in the country map and in each of its aspect maps. *)
Definition distinctKeys (countryMap : obj (obj Group)) : Prop :=
  NoDup (keys countryMap)
  /\ forall c aspectMap, In (c, aspectMap) countryMap -> NoDup (keys aspectMap).

End Readings.

(** *** Sample data for the examples *)

Module Samples.
Import Chatbot.

Definition itemWithReason (reason : option string) : DetailItem :=
  {| detail_aspect := "Energy Security"; detail_delta := -4;
     detail_score := Some 61; detail_reason := reason |}.

(** A reason of 160 letters and a final period. *)
Definition longReason : string :=
  (string_of_list_ascii (repeat "a"%char 160) ++ ".")%string.

Definition entropy1 : Chatbot.Entropy :=
  {| now := 1762070400000; random := "9f3a6c21d4b8" |}.

Definition entropy2 : Chatbot.Entropy :=
  {| now := 1762070400001; random := "5be07a13c9d2" |}.

Definition energyShock : Api.Impact :=
  {| Api.country := "Japan"; Api.aspect := "Energy Security";
     Api.delta := Some (-12); Api.reason := Some "LNG cargoes are delayed." |}.

Definition tradeShock : Api.Impact :=
  {| Api.country := "USA"; Api.aspect := "Economic Stability";
     Api.delta := Some (-15); Api.reason := None |}.

Definition energyRelief : Api.Impact :=
  {| Api.country := "Japan"; Api.aspect := "Energy Security";
     Api.delta := Some 5; Api.reason := Some "Strategic reserves are released." |}.

Definition energyNet : Api.Impact :=
  {| Api.country := "Japan"; Api.aspect := "Energy Security";
     Api.delta := Some (-7); Api.reason := Some "LNG cargoes are delayed." |}.

Definition silentShock : Api.Impact :=
  {| Api.country := "Japan"; Api.aspect := "Energy Security";
     Api.delta := None; Api.reason := Some "" |}.

Definition summaryItemOf (aspect : string) (delta : Z) (reason : option string)
  : Chatbot.SummaryItem :=
  {| summary_aspect := aspect; summary_delta := delta; summary_reason := reason |}.

(** A reply that carries nothing but impacts. *)
Definition analysisOf (l : list Api.Impact) : Api.AnalysisData :=
  {| Api.analysis := None; Api.impacts := Some l;
     Api.country_scores := None; Api.baseline_country_scores := None;
     Api.aspect_scores := None; Api.baseline_aspect_scores := None;
     Api.aspect_deltas := None; Api.aspect_reasons := None |}.

Definition atlantisImpact : Api.Impact :=
  {| Api.country := "Atlantis"; Api.aspect := "Tourism";
     Api.delta := Some 9; Api.reason := Some "Sea levels fall." |}.

(** Comparison by code units, in place of the collation of a locale. *)
Definition codeUnitCompare (a b : string) : Z :=
  match String.compare a b with
  | Lt => -1
  | Eq => 0
  | Gt => 1
  end.

Definition tiedScores : Js.obj Z :=
  [("USA", 62); ("Japan", 71); ("India", 62); ("Brazil", 48); ("Germany", 71)].

(** A reply that carries nothing but country scores. *)
Definition scoresOnly (scores : Js.obj Z) : Api.AnalysisData :=
  {| Api.analysis := None; Api.impacts := None;
     Api.country_scores := Some scores; Api.baseline_country_scores := None;
     Api.aspect_scores := None; Api.baseline_aspect_scores := None;
     Api.aspect_deltas := None; Api.aspect_reasons := None |}.

(** Ten countries in an order of enumeration. *)
Definition tenCountries : list string :=
  ["USA"; "China"; "Japan"; "India"; "Brazil"; "Germany"; "France";
   "United Kingdom"; "South Africa"; "Australia"].

(** A baseline table over [tenCountries] with the two cells of the
    examples of the specification: USA / Economic at 70 and Japan /
    Energy at 90. *)
Definition sampleBaseline : Js.obj (Js.obj Z) :=
  Aggregator.table tenCountries
    (fun c a =>
       if String.eqb c "USA" && String.eqb a "Economic Stability" then 70
       else if String.eqb c "Japan" && String.eqb a "Energy Security" then 90
       else 20 + Z.of_nat (String.length c) + Z.of_nat (String.length a)).

Definition record (c a : string) (d : Z) : Aggregator.ImpactRecord :=
  {| Aggregator.country := c; Aggregator.aspect := a;
     Aggregator.delta := d; Aggregator.reason := "" |}.

Definition hugeImpacts : list Aggregator.ImpactRecord :=
  [ record "USA" "Economic Stability" (-1000000000000);
    record "Japan" "Energy Security" 1000000000000;
    record "Atlantis" "Energy Security" 5 ].

(** Two replies that differ in what they hold for the aspect 'Tourism',
    which is none of the seven, and in their impact lists. *)
Definition plainReply : Api.AnalysisData :=
  {| Api.analysis := Some "Energy imports fall.";
     Api.impacts := Some [energyShock];
     Api.country_scores := Some [("Japan", 70); ("USA", 66)];
     Api.baseline_country_scores := Some [("Japan", 72); ("USA", 66)];
     Api.aspect_scores :=
       Some [("USA", [("Economic Stability", 70); ("Energy Security", 64)]);
             ("Japan", [("Economic Stability", 75); ("Energy Security", 78)])];
     Api.baseline_aspect_scores := None;
     Api.aspect_deltas := Some [("Japan", [("Energy Security", -12)])];
     Api.aspect_reasons :=
       Some [("Japan", [("Energy Security", "LNG cargoes are delayed.")])] |}.

Definition tourismReply : Api.AnalysisData :=
  {| Api.analysis := Some "Energy imports fall.";
     Api.impacts := Some [energyShock; atlantisImpact];
     Api.country_scores := Some [("Japan", 70); ("USA", 66)];
     Api.baseline_country_scores := Some [("Japan", 72); ("USA", 66)];
     Api.aspect_scores :=
       Some [("USA", [("Economic Stability", 70); ("Energy Security", 64)]);
             ("Japan", [("Economic Stability", 75); ("Energy Security", 78)])];
     Api.baseline_aspect_scores := None;
     Api.aspect_deltas :=
       Some [("Japan", [("Tourism", 9); ("Energy Security", -12)])];
     Api.aspect_reasons :=
       Some [("Japan", [("Energy Security", "LNG cargoes are delayed.");
                        ("Tourism", "Sea levels fall.")])] |}.

Definition entropy3 : Chatbot.Entropy :=
  {| now := 1762070460000; random := "0c44e1f7a9b3" |}.

(** Three impacts on one pair, the first of 2^53, and the impact that
    carries the sum of the last two. *)
Definition hugeShock : Api.Impact :=
  {| Api.country := "Japan"; Api.aspect := "Energy Security";
     Api.delta := Some 9007199254740992; Api.reason := None |}.

Definition unitShock : Api.Impact :=
  {| Api.country := "Japan"; Api.aspect := "Energy Security";
     Api.delta := Some 1; Api.reason := None |}.

Definition doubleShock : Api.Impact :=
  {| Api.country := "Japan"; Api.aspect := "Energy Security";
     Api.delta := Some 2; Api.reason := None |}.

(** The same scores for USA and India, listed in either order. *)
Definition usaFirst : Js.obj Z := [("USA", 62); ("India", 62)].
Definition indiaFirst : Js.obj Z := [("India", 62); ("USA", 62)].

End Samples.

(** *** More of the JavaScript standard library *)

Module JsMore.

(** [Array.prototype.findIndex], counting from [i]. *)
Fixpoint findIndexFrom {A : Type} (p : A -> bool) (l : list A) (i : Z) : Z :=
  match l with
  | [] => -1
  | x :: l' => if p x then i else findIndexFrom p l' (i + 1)
  end.

Definition findIndex {A : Type} (p : A -> bool) (l : list A) : Z :=
  findIndexFrom p l 0.

(** [String.prototype.startsWith] *)
Definition startsWith (s searchString : string) : bool :=
  String.prefix searchString s.

(** [Array.prototype.join] on an array of strings. *)
Fixpoint join (l : list string) (separator : string) : string :=
  match l with
  | [] => ""
  | [x] => x
  | x :: l' => (x ++ separator ++ join l' separator)%string
  end.

(** [DOMTokenList.remove] and [DOMTokenList.add] on the class list of an
    element, an ordered set of tokens; [classAdd] is [add] for a token
    that it accepts. *)
Definition classRemove (classList tokens : list string) : list string :=
  List.filter (fun c => negb (existsb (String.eqb c) tokens)) classList.

Definition classAdd (classList : list string) (token : string) : list string :=
  if existsb (String.eqb token) classList then classList else classList ++ [token].

(** ASCII white space, which no token of a class list may hold: TAB, LF,
    FF, CR and SP. *)
Definition isAsciiWhitespace (c : ascii) : bool :=
  let n := N_of_ascii c in
  ((n =? 9) || (n =? 10) || (n =? 12) || (n =? 13) || (n =? 32))%N.

Fixpoint hasAsciiWhitespace (s : string) : bool :=
  match s with
  | EmptyString => false
  | String c s' => isAsciiWhitespace c || hasAsciiWhitespace s'
  end.

(** [DOMTokenList.add (token)] for any token: it throws on the empty
    token (a SyntaxError) and on a token that holds ASCII white space (an
    InvalidCharacterError), and the list is then as it was. *)
Definition classListAdd (classList : list string) (token : string)
  : option (list string) :=
  if String.eqb token "" || hasAsciiWhitespace token then None
  else Some (classAdd classList token).

End JsMore.

(** *** components/Chatbot.jsx: what the render reads off the messages *)

Module ChatbotView.
Import Api Chatbot.

Definition isLongText (text : string) : bool :=
  (280 <? String.length text)%nat.

Definition shouldHideSummaryText (text : string) : bool :=
  if negb (Js.truthy (Some text)) then true
  else JsMore.startsWith text
         "Fallback reasoning applied due to unavailable structured interpretation".

(** [lastUserActualIndex] and [lastBotActualIndex] of the render, for the
    sender [who]. *)
Definition lastActualIndex (who : string) (messages : list Message) : Z :=
  let lastIndex :=
    JsMore.findIndex (fun item => String.eqb (sender item) who) (rev messages) in
  if negb (lastIndex =? -1)
  then Z.of_nat (length messages) - 1 - lastIndex
  else -1.

Definition showRegenerate (messages : list Message) (index : nat) (message : Message)
  : bool :=
  Js.truthy (scenario message)
  && ((Z.of_nat index =? lastActualIndex "user" messages)
      || (Z.of_nat index =? lastActualIndex "bot" messages)).

(** [isWelcome] of the render. *)
Definition isWelcomeCard (message : Message) : bool :=
  isWelcome message
  || (idEq (id message) (IdString "welcome") && String.eqb (sender message) "bot").

Definition isBotResponse (message : Message) : bool :=
  String.eqb (sender message) "bot"
  && negb (isWelcomeCard message)
  && negb (shouldHideSummaryText (text message)).

(** The sets of message ids [expandedMessages] and [expandedSummaries], in
    insertion order. *)
Definition has (s : list MessageId) (x : MessageId) : bool :=
  existsb (idEq x) s.

Definition delete (s : list MessageId) (x : MessageId) : list MessageId :=
  List.filter (fun y => negb (idEq y x)) s.

Definition add (s : list MessageId) (x : MessageId) : list MessageId :=
  if has s x then s else s ++ [x].

(** The updater of [toggleExpanded]; [next] is a copy of [prev]. *)
Definition toggleExpanded (messageId : MessageId) (prev : list MessageId)
  : list MessageId :=
  let next := prev in
  if has next messageId then delete next messageId else add next messageId.

(** The updater of [toggleSummary]. *)
Definition toggleSummary (messageId : MessageId) (prev : list MessageId)
  : list MessageId :=
  let next := prev in
  if has next messageId then delete next messageId else add next messageId.

(** The block "Aspect changes" under the text of a bot response.  It is
    drawn when [message.analysisData?.impacts] is truthy, which every
    array is, and it is drawn from [buildImpactDetails]: an item shows its
    aspect, its score, the points deducted from 100 and, after "because",
    the reason that [formatReason] leaves. *)
Record ExplanationItem := {
  shown_aspect : string;
  shown_score : option Z;
  shown_deducted : option Z;
  shown_because : string }.

Record Explanation := {
  shown_country : string;
  shown_items : list ExplanationItem }.

Definition analysisExplanations (localeCompare : string -> string -> Z)
           (analysisData : option AnalysisData) : option (list Explanation) :=
  match analysisData ≫= impacts with
  | None => None
  | Some _ =>
      Some (map (fun entry =>
                   {| shown_country := detail_country entry;
                      shown_items :=
                        map (fun item =>
                               {| shown_aspect := detail_aspect item;
                                  shown_score := detail_score item;
                                  shown_deducted :=
                                    (fun score => 100 - score) <$> detail_score item;
                                  shown_because :=
                                    if Js.truthy (Some (formatReason item))
                                    then (" because " ++ formatReason item)%string
                                    else "" |})
                            (detail_aspects entry) |})
                (buildImpactDetails localeCompare analysisData))
  end.

(** No message after place [i] comes from [who]. *)
Definition noneAfter (who : string) (messages : list Message) (i : nat) : Prop :=
  forall j message,
    (i < j)%nat -> nth_error messages j = Some message -> sender message <> who.

End ChatbotView.

(** *** pages/DashboardPage.jsx: the charts *)

Module DashboardCharts.
Import Api DashboardPage.

(** An entry of [top_risers] or [top_fallers], and one of [top_aspects]. *)
Record Mover := { mover_country : string }.
Record AspectEntry := { entry_aspect : string }.

Record ImpactSummary := {
  top_risers : option (list Mover);
  top_fallers : option (list Mover);
  top_aspects : option (list AspectEntry) }.

(** The reply as the Dashboard reads it: the properties of
    [Api.AnalysisData] and, beside them, [model_metadata?.aspect_weights],
    [impact_summary] and [interventions]. *)
Record DashboardData := {
  reply : AnalysisData;
  aspect_weights : option (Js.obj Z);
  impact_summary : option ImpactSummary;
  interventions : option (Js.obj (list string)) }.

Definition ASPECT_LABELS : Js.obj string :=
  [ ("Economic Stability", "Economic");
    ("Defense & Strategic Security", "Defense");
    ("Healthcare & Biological Readiness", "Healthcare");
    ("Cyber Resilience & Digital Infrastructure", "Cyber");
    ("Demographic & Social Stability", "Social");
    ("Energy Security", "Energy");
    ("Debt & Fiscal Sustainability", "Debt") ].

Definition getDeltaColor (delta : Z) : string :=
  if 8 <=? delta then "#15803d"
  else if 3 <=? delta then "#16a34a"
  else if delta <=? -8 then "#b91c1c"
  else if delta <=? -3 then "#ef4444"
  else "#f59e0b".

Section Charts.
Variable analysisData : option DashboardData.

Definition countryScores : Js.obj Z :=
  DashboardPage.countryScores (reply <$> analysisData).

Definition baselineScores : Js.obj Z :=
  default [] (analysisData ≫= fun d => baseline_country_scores (reply d)).

Definition aspectDeltas : Js.obj (Js.obj Z) :=
  default [] (analysisData ≫= fun d => aspect_deltas (reply d)).

Definition baselineAspects : Js.obj (Js.obj Z) :=
  default [] (analysisData ≫= fun d => baseline_aspect_scores (reply d)).

Definition scenarioAspects : Js.obj (Js.obj Z) :=
  default [] (analysisData ≫= fun d => aspect_scores (reply d)).

Definition hasData : bool := DashboardPage.hasData (reply <$> analysisData).

Definition sortedCountries : list string :=
  DashboardPage.sortedCountries (reply <$> analysisData).

Definition aspectOrder : list string :=
  match analysisData ≫= aspect_weights with
  | Some weights => Js.keys weights
  | None => DEFAULT_ASPECTS
  end.

(** [ASPECT_LABELS[aspect] || aspect] *)
Definition aspectLabels : list string :=
  map (fun aspect =>
         match Js.get ASPECT_LABELS aspect with
         | Some label => if Js.truthy (Some label) then label else aspect
         | None => aspect
         end)
      aspectOrder.

(** [o?.[country]?.[aspect] ?? 0] *)
Definition cell (o : Js.obj (Js.obj Z)) (country aspect : string) : Z :=
  default 0 (Js.get o country ≫= fun row => Js.get row aspect).

Definition aspectDeltaMap : Js.obj (Js.obj Z) :=
  if (0 <? length (Js.keys aspectDeltas))%nat then aspectDeltas
  else
    fold_left
      (fun computed country =>
         Js.set computed country
           (fold_left
              (fun row aspect =>
                 let base := cell baselineAspects country aspect in
                 let scen := cell scenarioAspects country aspect in
                 Js.set row aspect (scen - base))
              aspectOrder []))
      sortedCountries [].

(** The line chart: its labels and, of its one dataset, the label, the
    data and the background colour. *)
Record ScoreMovement := {
  movement_labels : list string;
  movement_label : string;
  movement_data : list Z;
  movement_backgroundColor : string }.

Definition scoreMovementData (selectedCountry : string) : option ScoreMovement :=
  if negb hasData then None
  else
    let country :=
      if Js.truthy (Some selectedCountry) then Some selectedCountry
      else head sortedCountries in
    match country with
    | None => None
    | Some country =>
        if negb (Js.truthy (Some country)) then None
        else
          let series := map (fun aspect => cell scenarioAspects country aspect)
                            aspectOrder in
          let deltaTotal :=
            fold_left (fun sum aspect =>
                         Js.add sum (cell aspectDeltaMap country aspect))
                      aspectOrder 0 in
          Some {| movement_labels := aspectLabels;
                  movement_label := country;
                  movement_data := series;
                  movement_backgroundColor := getDeltaColor deltaTotal |}
    end.

(** The bar chart: its labels and the data of its two datasets. *)
Record CompareBars := {
  bars_labels : list string;
  bars_baseline : list Z;
  bars_scenario : list Z }.

Definition compareBarData : option CompareBars :=
  if negb hasData then None
  else
    Some {| bars_labels := sortedCountries;
            bars_baseline :=
              map (fun country => default 0 (Js.get baselineScores country))
                  sortedCountries;
            bars_scenario :=
              map (fun country => default 0 (Js.get countryScores country))
                  sortedCountries |}.

(** [list?.map (...).join (', ') || 'N/A'] *)
Definition joinedOrNA (names : option (list string)) : string :=
  match names with
  | Some l => let joined := JsMore.join l ", " in
              if Js.truthy (Some joined) then joined else "N/A"
  | None => "N/A"
  end.

Definition impactSummary : option ImpactSummary :=
  analysisData ≫= impact_summary.

Definition topRisers : string :=
  joinedOrNA (impactSummary ≫= fun s => map mover_country <$> top_risers s).

Definition topFallers : string :=
  joinedOrNA (impactSummary ≫= fun s => map mover_country <$> top_fallers s).

Definition topAspects : string :=
  joinedOrNA (impactSummary ≫= fun s => map entry_aspect <$> top_aspects s).

End Charts.

End DashboardCharts.

(** *** components/BarGraph.jsx *)

Module BarGraph.
Import Api.

(** What the effect stores in [chartData]: the labels and the data of the
    dataset. *)
Record ChartData := {
  labels : list string;
  data : list Z }.

(** The effect on [data]: a reply with [country_scores] replaces the
    chart, anything else leaves it. *)
Definition effect (data : option AnalysisData) (chartData : option ChartData)
  : option ChartData :=
  match data ≫= country_scores with
  | Some scores =>
      let sortedEntries := Js.sort DashboardPage.byScoreDesc scores in
      Some {| labels := map fst sortedEntries; data := map snd sortedEntries |}
  | None => chartData
  end.

End BarGraph.

(** *** components/Heatmap.jsx: the table *)

Module HeatmapTable.
Import Api.

(** [score >= n] on a score that may be [undefined]. *)
Definition atLeast (score : option Z) (n : Z) : bool :=
  match score with
  | Some s => n <=? s
  | None => false
  end.

Definition getColorForScore (score : option Z) : string :=
  if atLeast score 80 then "#27ae60"
  else if atLeast score 60 then "#2ecc71"
  else if atLeast score 40 then "#f39c12"
  else if atLeast score 20 then "#e74c3c"
  else "#c0392b".

(** The effect on [data]. *)
Definition effect (data : option AnalysisData)
           (tableData : option (Js.obj (Js.obj Z))) : option (Js.obj (Js.obj Z)) :=
  match data ≫= aspect_scores with
  | Some scores => Some scores
  | None => tableData
  end.

Record Cell := {
  cell_score : option Z;
  cell_backgroundColor : string;
  cell_color : string }.

Record Row := {
  row_country : string;
  row_cells : list Cell }.

(** The rows of the table body. *)
Definition rows (tableData : Js.obj (Js.obj Z)) : list Row :=
  map (fun entry : string * Js.obj Z =>
         let (country, aspects) := entry in
         {| row_country := country;
            row_cells :=
              map (fun aspect =>
                     let score := Js.get aspects aspect in
                     {| cell_score := score;
                        cell_backgroundColor := getColorForScore score;
                        cell_color :=
                          if atLeast score 40 then "#1a1a1a" else "#ffffff" |})
                  Heatmap.aspectOrder |})
      tableData.

End HeatmapTable.

(** *** App.jsx *)

Module App.

(** The user of a reply; only [has_api_key] and [email] are read. *)
Record User := {
  email : option string;
  has_api_key : bool }.

Record AuthState := {
  loading : bool;
  authenticated : bool;
  user : option User;
  needsApiKey : bool;
  error : string }.

(** How an awaited request of the session settles; a failure carries
    [error?.response?.data?.error]. *)
Inductive Outcome (A : Type) :=
| Succeeded (response : A)
| Failed (serverError : option string).
Arguments Succeeded {A} response.
Arguments Failed {A} serverError.

(** The body of a reply of [getAuthStatus]. *)
Record AuthStatus := {
  status_authenticated : bool;
  status_user : option User }.

Definition initialAuthState : AuthState :=
  {| loading := true; authenticated := false; user := None;
     needsApiKey := false; error := "" |}.

Definition signedOut (message : string) : AuthState :=
  {| loading := false; authenticated := false; user := None;
     needsApiKey := false; error := message |}.

(** [!user?.has_api_key] *)
Definition lacksApiKey (user : option User) : bool :=
  match user with
  | Some u => negb (has_api_key u)
  | None => true
  end.

Definition handleAuthSuccess (user : option User) : AuthState :=
  {| loading := false; authenticated := true; user := user;
     needsApiKey := lacksApiKey user; error := "" |}.

Definition loadAuth (outcome : Outcome (option AuthStatus)) : AuthState :=
  match outcome with
  | Succeeded status =>
      match status with
      | Some s =>
          if status_authenticated s then handleAuthSuccess (status_user s)
          else signedOut ""
      | None => signedOut ""
      end
  | Failed _ => signedOut "Unable to check login status."
  end.

(** [{ ...prev, error: error?.response?.data?.error || fallback }] *)
Definition withError (serverError : option string) (fallback : string)
           (prev : AuthState) : AuthState :=
  {| loading := loading prev; authenticated := authenticated prev;
     user := user prev; needsApiKey := needsApiKey prev;
     error := if Js.truthy serverError then default "" serverError else fallback |}.

Definition handleLogin (outcome : Outcome (option User)) (prev : AuthState)
  : AuthState :=
  match outcome with
  | Succeeded user => handleAuthSuccess user
  | Failed serverError => withError serverError "Login failed." prev
  end.

Definition handleRegister (outcome : Outcome (option User)) (prev : AuthState)
  : AuthState :=
  match outcome with
  | Succeeded user => handleAuthSuccess user
  | Failed serverError => withError serverError "Registration failed." prev
  end.

Definition handleGoogleLogin (outcome : Outcome (option User)) (prev : AuthState)
  : AuthState :=
  match outcome with
  | Succeeded user => handleAuthSuccess user
  | Failed serverError => withError serverError "Google login failed." prev
  end.

Definition handleApiKeySave (outcome : Outcome (option User)) (prev : AuthState)
  : AuthState :=
  match outcome with
  | Succeeded user => handleAuthSuccess user
  | Failed serverError => withError serverError "Failed to save API key." prev
  end.

(** [handleLogout]: the [finally] signs out however [logoutUser] settles. *)
Definition handleLogout (outcome : Outcome unit) (prev : AuthState) : AuthState :=
  signedOut "".

(** What [App] renders. *)
Inductive Screen := LoadingScreen | LoginScreen | Workspace.

Definition screen (authState : AuthState) : Screen :=
  if loading authState then LoadingScreen
  else if negb (authenticated authState) || needsApiKey authState then LoginScreen
  else Workspace.

(** The session states: what the effect on mount and the handlers make of
    the initial state. *)
Inductive reachable : AuthState -> Prop :=
| reach_initial : reachable initialAuthState
| reach_loadAuth outcome prev :
    reachable prev -> reachable (loadAuth outcome)
| reach_handleLogin outcome prev :
    reachable prev -> reachable (handleLogin outcome prev)
| reach_handleRegister outcome prev :
    reachable prev -> reachable (handleRegister outcome prev)
| reach_handleGoogleLogin outcome prev :
    reachable prev -> reachable (handleGoogleLogin outcome prev)
| reach_handleApiKeySave outcome prev :
    reachable prev -> reachable (handleApiKeySave outcome prev)
| reach_handleLogout outcome prev :
    reachable prev -> reachable (handleLogout outcome prev).

(** **** The appearance *)

Definition themeClasses : list string :=
  [ "dark-theme"; "theme-ocean"; "theme-forest"; "theme-slate"; "theme-mint";
    "theme-steel"; "theme-rose"; "theme-indigo"; "theme-coffee"; "theme-plum";
    "theme-charcoal"; "theme-ice" ].

(** What the effects on the appearance write: the class list of
    [document.body], the value last assigned to its inline font family
    (what the style declaration makes of that value is not modelled), and
    the local storage. *)
Record Body := {
  classList : list string;
  style_fontFamily : string;
  localStorage : Js.obj string }.

(** The effect on [theme]. *)
Definition applyTheme (theme : string) (body : Body) : Body :=
  let classList := JsMore.classRemove (classList body) themeClasses in
  let classList :=
    if String.eqb theme "dark" then JsMore.classAdd classList "dark-theme"
    else if String.eqb theme "ocean" then JsMore.classAdd classList "theme-ocean"
    else if String.eqb theme "forest" then JsMore.classAdd classList "theme-forest"
    else if String.eqb theme "slate" then JsMore.classAdd classList "theme-slate"
    else if String.eqb theme "mint" then JsMore.classAdd classList "theme-mint"
    else if String.eqb theme "steel" then JsMore.classAdd classList "theme-steel"
    else if String.eqb theme "rose" then JsMore.classAdd classList "theme-rose"
    else if String.eqb theme "indigo" then JsMore.classAdd classList "theme-indigo"
    else if String.eqb theme "coffee" then JsMore.classAdd classList "theme-coffee"
    else if String.eqb theme "plum" then JsMore.classAdd classList "theme-plum"
    else if String.eqb theme "charcoal" then JsMore.classAdd classList "theme-charcoal"
    else if String.eqb theme "ice" then JsMore.classAdd classList "theme-ice"
    else classList in
  {| classList := classList;
     style_fontFamily := style_fontFamily body;
     localStorage := Js.set (localStorage body) "theme" theme |}.

(** [localStorage.getItem (key) || fallback] *)
Definition getItemOr (localStorage : Js.obj string) (key fallback : string)
  : string :=
  if Js.truthy (Js.get localStorage key)
  then default "" (Js.get localStorage key)
  else fallback.

Definition initialTheme (localStorage : Js.obj string) : string :=
  getItemOr localStorage "theme" "light".

Definition initialFontSize (localStorage : Js.obj string) : string :=
  getItemOr localStorage "fontSize" "medium".

Definition fontSizeClasses : list string :=
  ["font-small"; "font-medium"; "font-large"].

(** How an effect ends: it runs to its end, or one of its statements
    throws and the statements after it are not run.  Either way the body
    is as the statements that ran have left it. *)
Inductive EffectResult :=
| Completed (body : Body)
| Threw (body : Body).

(** The effect on [fontSize]; [classList.add] may throw. *)
Definition applyFontSize (fontSize : string) (body : Body) : EffectResult :=
  let removed := JsMore.classRemove (classList body) fontSizeClasses in
  match JsMore.classListAdd removed ("font-" ++ fontSize)%string with
  | Some classList =>
      Completed {| classList := classList;
                   style_fontFamily := style_fontFamily body;
                   localStorage := Js.set (localStorage body) "fontSize" fontSize |}
  | None =>
      Threw {| classList := removed;
               style_fontFamily := style_fontFamily body;
               localStorage := localStorage body |}
  end.

Definition fontMap : Js.obj string :=
  [ ("'IBM Plex Sans', 'Space Grotesk', sans-serif", "plex");
    ("'Segoe UI', Tahoma, Geneva, Verdana, sans-serif", "segoe");
    ("Arial, sans-serif", "arial");
    ("'Times New Roman', serif", "times");
    ("'Courier New', monospace", "courier");
    ("Georgia, serif", "georgia") ].

Definition fontFamilyClasses : list string :=
  ["font-plex"; "font-segoe"; "font-arial"; "font-times"; "font-courier";
   "font-georgia"].

(** The properties that an object literal inherits from
    [Object.prototype] in a browser. *)
Definition objectPrototypeKeys : list string :=
  [ "constructor"; "__defineGetter__"; "__defineSetter__"; "hasOwnProperty";
    "__lookupGetter__"; "__lookupSetter__"; "isPrototypeOf";
    "propertyIsEnumerable"; "toString"; "valueOf"; "__proto__";
    "toLocaleString" ].

(** [fontMap[fontFamily]] inside the template literal: the value of an
    own key; for an inherited key the text of what it names, which is
    [Object.prototype] itself for [__proto__] and a native function for
    the others (the text of a native function is written as V8 prints
    it; in every engine it holds white space after [function]); and
    [undefined] for any other string. *)
Definition fontMapText (fontFamily : string) : string :=
  match Js.get fontMap fontFamily with
  | Some name => name
  | None =>
      if existsb (String.eqb fontFamily) objectPrototypeKeys
      then if String.eqb fontFamily "__proto__" then "[object Object]"
           else if String.eqb fontFamily "constructor"
                then "function Object() { [native code] }"
                else ("function " ++ fontFamily ++ "() { [native code] }")%string
      else "undefined"
  end.

(** The effect on [fontFamily]; [classList.add] may throw, and then the
    inline style and the storage are not written. *)
Definition applyFontFamily (fontFamily : string) (body : Body) : EffectResult :=
  let removed := JsMore.classRemove (classList body) fontFamilyClasses in
  match JsMore.classListAdd removed ("font-" ++ fontMapText fontFamily)%string with
  | Some classList =>
      Completed {| classList := classList;
                   style_fontFamily := fontFamily;
                   localStorage :=
                     Js.set (localStorage body) "fontFamily" fontFamily |}
  | None =>
      Threw {| classList := removed;
               style_fontFamily := style_fontFamily body;
               localStorage := localStorage body |}
  end.

(** [sidebarCollapsed] at start: collapsed unless the storage says
    otherwise. *)
Definition initialSidebarCollapsed (localStorage : Js.obj string) : bool :=
  match Js.get localStorage "sidebarCollapsed" with
  | Some saved => String.eqb saved "true"
  | None => true
  end.

(** A boolean as [localStorage.setItem] stores it. *)
Definition booleanToString (b : bool) : string :=
  if b then "true" else "false".

Definition toggleSidebar (state : bool * Js.obj string) : bool * Js.obj string :=
  let (sidebarCollapsed, localStorage) := state in
  let newState := negb sidebarCollapsed in
  (newState, Js.set localStorage "sidebarCollapsed" (booleanToString newState)).

End App.

(** *** pages/SettingsPage.jsx and pages/LoginPage.jsx *)

Module SettingsPage.
Import Api.

(** The values of the options of the font family select. *)
Definition fontFamilyOptions : list string :=
  [ "'IBM Plex Sans', 'Space Grotesk', sans-serif";
    "Arial, sans-serif";
    "'Times New Roman', serif";
    "'Courier New', monospace";
    "Georgia, serif";
    "'Comic Sans MS', 'Comic Sans', cursive" ].

(** What the handlers do outside the state of the page. *)
Inductive Effect :=
| clearChatHistory
| deleteUserAccount
| removeItem (key : string)
| dispatchEvent (type : string)
| navigateToBase
| onApiKeySave (apiKey : string).

Record State := {
  chatStatus : string;
  isConfirmOpen : bool;
  confirmAction : option string;
  apiKey : string;
  apiKeyStatus : string;
  effects : list Effect }.

Definition handleDeleteChat (st : State) : State :=
  {| chatStatus := ""; isConfirmOpen := true; confirmAction := Some "delete-chat";
     apiKey := apiKey st; apiKeyStatus := apiKeyStatus st; effects := effects st |}.

Definition handleDeleteAccount (st : State) : State :=
  {| chatStatus := chatStatus st; isConfirmOpen := true;
     confirmAction := Some "delete-account";
     apiKey := apiKey st; apiKeyStatus := ""; effects := effects st |}.

Definition handleCancelDelete (st : State) : State :=
  {| chatStatus := chatStatus st; isConfirmOpen := false; confirmAction := None;
     apiKey := apiKey st; apiKeyStatus := apiKeyStatus st; effects := effects st |}.

(** [handleConfirmDelete], with the way the request it awaits settles. *)
Definition handleConfirmDelete (reply : Reply unit) (st : State) : State :=
  let action := confirmAction st in
  let isChat := bool_decide (action = Some "delete-chat") in
  let isAccount := bool_decide (action = Some "delete-account") in
  let tried :=
    if isChat then
      match reply with
      | Resolved _ =>
          {| chatStatus := "Chat is now cleared.";
             isConfirmOpen := isConfirmOpen st; confirmAction := confirmAction st;
             apiKey := apiKey st; apiKeyStatus := apiKeyStatus st;
             effects := effects st
                        ++ [clearChatHistory;
                            removeItem "resilitrack_analysis_data";
                            dispatchEvent "resilitrack-clear";
                            dispatchEvent "resilitrack-chat-cleared"] |}
      | Rejected =>
          {| chatStatus := "Unable to clear chat right now.";
             isConfirmOpen := isConfirmOpen st; confirmAction := confirmAction st;
             apiKey := apiKey st; apiKeyStatus := apiKeyStatus st;
             effects := effects st ++ [clearChatHistory] |}
      end
    else if isAccount then
      match reply with
      | Resolved _ =>
          {| chatStatus := chatStatus st;
             isConfirmOpen := isConfirmOpen st; confirmAction := confirmAction st;
             apiKey := apiKey st; apiKeyStatus := apiKeyStatus st;
             effects := effects st ++ [deleteUserAccount; navigateToBase] |}
      | Rejected =>
          {| chatStatus := chatStatus st;
             isConfirmOpen := isConfirmOpen st; confirmAction := confirmAction st;
             apiKey := apiKey st;
             apiKeyStatus := "Unable to delete account right now.";
             effects := effects st ++ [deleteUserAccount] |}
      end
    else st in
  {| chatStatus := chatStatus tried; isConfirmOpen := false; confirmAction := None;
     apiKey := apiKey tried; apiKeyStatus := apiKeyStatus tried;
     effects := effects tried |}.

(** [handleApiKeySubmit] of the settings page, with the way [onApiKeySave]
    settles. *)
Definition handleApiKeySubmit (reply : Reply unit) (st : State) : State :=
  if negb (Js.truthy (Some (Js.trim (apiKey st)))) then st
  else
    match reply with
    | Resolved _ =>
        {| chatStatus := chatStatus st; isConfirmOpen := isConfirmOpen st;
           confirmAction := confirmAction st;
           apiKey := ""; apiKeyStatus := "API key updated.";
           effects := effects st ++ [onApiKeySave (Js.trim (apiKey st))] |}
    | Rejected =>
        {| chatStatus := chatStatus st; isConfirmOpen := isConfirmOpen st;
           confirmAction := confirmAction st;
           apiKey := apiKey st; apiKeyStatus := "Unable to update API key.";
           effects := effects st ++ [onApiKeySave (Js.trim (apiKey st))] |}
    end.

(** [handleApiKeySubmit] of the login page: the key typed and the saves
    asked for. *)
Definition loginHandleApiKeySubmit (reply : Reply unit)
           (st : string * list Effect) : string * list Effect :=
  let (apiKey, effects) := st in
  if Js.truthy (Some (Js.trim apiKey)) then
    match reply with
    | Resolved _ => ("", effects ++ [onApiKeySave (Js.trim apiKey)])
    | Rejected => (apiKey, effects ++ [onApiKeySave (Js.trim apiKey)])
    end
  else st.

(** The listeners of the window events the settings page dispatches: the
    Chatbot clears its messages on [resilitrack-chat-cleared], and [App]
    and the resilience page drop the analysis on [resilitrack-clear]. *)
Record Listeners := {
  chatbot : Chatbot.State;
  analysisData : option AnalysisData }.

Definition deliver (world : Listeners) (effect : Effect) : Listeners :=
  match effect with
  | dispatchEvent type =>
      if String.eqb type "resilitrack-chat-cleared"
      then {| chatbot := Chatbot.handleClear (chatbot world);
              analysisData := analysisData world |}
      else if String.eqb type "resilitrack-clear"
      then {| chatbot := chatbot world; analysisData := None |}
      else world
  | _ => world
  end.

End SettingsPage.

(** *** More vocabulary of the statements *)

Module MoreReadings.
Import Js Api Chatbot Readings.

(** The total absolute impact the grouping of [buildImpactSummary] holds
    for a country: the absolute deltas of its aspects, added in the order
    of the aspect map. *)
Definition countryTotal (l : list Impact) (c : string) : Z :=
  match get (groupImpacts l) c with
  | Some aspectMap =>
      fold_left (fun sum entry => add sum (Z.abs (group_delta (snd entry))))
                aspectMap 0
  | None => 0
  end.

(** The colour [getDeltaColor] gives to the opposite delta: the greens and
    the reds change places shade for shade and amber stays. *)
Definition mirror (colour : string) : string :=
  if String.eqb colour "#15803d" then "#b91c1c"
  else if String.eqb colour "#16a34a" then "#ef4444"
  else if String.eqb colour "#b91c1c" then "#15803d"
  else if String.eqb colour "#ef4444" then "#16a34a"
  else colour.

(** What every state of the session is shown to satisfy: a signed-in
    state asks for a key exactly when its user lacks one, and a signed-out
    state carries no user and asks for no key. *)
Definition soundSession (st : App.AuthState) : Prop :=
  (App.authenticated st = true ->
   App.needsApiKey st = App.lacksApiKey (App.user st)) /\
  (App.authenticated st = false ->
   App.user st = None /\ App.needsApiKey st = false).

(** The class of a theme: [dark-theme] for the dark one, [theme-] and the
    name for the others. *)
Definition themeClass (theme : string) : string :=
  if String.eqb theme "dark" then "dark-theme" else ("theme-" ++ theme)%string.

End MoreReadings.

(** *** More sample data *)

Module MoreSamples.
Import Api Chatbot.

Definition askedMessage : Message :=
  {| id := IdNumber 7; text := "Port strike halts exports"; sender := "user";
     scenario := Some "Port strike halts exports"; isWelcome := false;
     pending := None; retryable := false; analysisData := None;
     createdAt := Some (TimeText "2026-11-02T08:00:00") |}.

Definition answeredMessage : Message :=
  {| id := IdNumber 8; text := "Exports fall for a quarter."; sender := "bot";
     scenario := Some "Port strike halts exports"; isWelcome := false;
     pending := None; retryable := false; analysisData := None;
     createdAt := Some (TimeText "2026-11-02T08:00:05") |}.

Definition askedAgainMessage : Message :=
  {| id := IdString "1762070400000-9f3a6c21d4b8"; text := "Grid failure in winter";
     sender := "user"; scenario := Some "Grid failure in winter"; isWelcome := false;
     pending := None; retryable := false; analysisData := None;
     createdAt := None |}.

Definition manyImpacts : list Impact :=
  [ Samples.energyShock;
    {| country := "Japan"; aspect := "Economic Stability";
       delta := Some (-3); reason := Some "Factories idle." |};
    Samples.tradeShock;
    {| country := "Japan"; aspect := "Cyber Resilience & Digital Infrastructure";
       delta := Some 14; reason := None |};
    Samples.energyRelief ].

Definition dashboardOf (data : AnalysisData) : DashboardCharts.DashboardData :=
  {| DashboardCharts.reply := data;
     DashboardCharts.aspect_weights := None;
     DashboardCharts.impact_summary := None;
     DashboardCharts.interventions := None |}.

(** A reply with scores and baselines but no [aspect_deltas]. *)
Definition bareReply : AnalysisData :=
  {| analysis := None;
     impacts := None;
     country_scores := Some [("USA", 62); ("Japan", 71); ("India", 62)];
     baseline_country_scores := Some [("USA", 66); ("Japan", 71)];
     aspect_scores :=
       Some [("USA", [("Economic Stability", 55); ("Energy Security", 64)]);
             ("Japan", [("Economic Stability", 75); ("Energy Security", 100)])];
     baseline_aspect_scores :=
       Some [("USA", [("Economic Stability", 70); ("Energy Security", 64)]);
             ("Japan", [("Economic Stability", 75); ("Energy Security", 90)])];
     aspect_deltas := None;
     aspect_reasons := None |}.

(** Comparison by length, a consistent comparator in place of the
    collation of a locale. *)
Definition lengthCompare (a b : string) : Z :=
  Z.of_nat (String.length a) - Z.of_nat (String.length b).

(** A user with a stored key, a body that carries a theme, a size no
    option offers and a family, and a settings page. *)
Definition keyedUser : App.User :=
  {| App.email := Some "ada@example.org"; App.has_api_key := true |}.

Definition styledBody : App.Body :=
  {| App.classList := ["app"; "theme-ocean"; "font-huge"; "font-plex"];
     App.style_fontFamily := "";
     App.localStorage := [("theme", "ocean")] |}.

Definition settingsAtRest : SettingsPage.State :=
  {| SettingsPage.chatStatus := "";
     SettingsPage.isConfirmOpen := false;
     SettingsPage.confirmAction := None;
     SettingsPage.apiKey := "  AIza-123 ";
     SettingsPage.apiKeyStatus := "";
     SettingsPage.effects := [] |}.

Definition busyWorld : SettingsPage.Listeners :=
  {| SettingsPage.chatbot :=
       {| messages := defaultMessages ++ [askedMessage; answeredMessage];
          input := ""; isLoading := false; calls := [] |};
     SettingsPage.analysisData := Some bareReply |}.

End MoreSamples.

(** ** Part II: properties *)

(** *** Facts about the JavaScript fragment *)

Module JsFacts.
Import Js.

(** **** Strings *)

Lemma length_append (s t : string) :
  String.length (s ++ t)%string = (String.length s + String.length t)%nat.
Proof. induction s as [|c s IH]; simpl; [reflexivity | now rewrite IH]. Qed.

Lemma length_substring (s : string) (n m : nat) :
  String.length (substring n m s) = Nat.min m (String.length s - n).
Proof.
  revert n m; induction s as [|c s IH]; intros n m.
  - destruct n, m; reflexivity.
  - destruct n as [|n].
    + destruct m as [|m]; simpl; [reflexivity|].
      rewrite IH. f_equal. f_equal. lia.
    + simpl. apply IH.
Qed.

Lemma substring_all (s : string) : substring 0 (String.length s) s = s.
Proof. induction s as [|c s IH]; simpl; [reflexivity | now rewrite IH]. Qed.

Lemma substring_append_l (s t : string) :
  substring 0 (String.length s) (s ++ t) = s.
Proof. induction s as [|c s IH]; simpl; [now destruct t | now rewrite IH]. Qed.

Lemma substring_append_r (s t : string) :
  substring (String.length s) (String.length t) (s ++ t) = t.
Proof. induction s as [|c s IH]; simpl; [apply substring_all | exact IH]. Qed.

(** A prefix of a prefix. *)
Lemma substring_substring (s : string) (n m : nat) :
  (n <= m)%nat -> substring 0 n (substring 0 m s) = substring 0 n s.
Proof.
  revert n m; induction s as [|c s IH]; intros n m Hnm.
  - destruct n, m; reflexivity.
  - destruct n as [|n]; [now destruct m|].
    destruct m as [|m]; [lia|]. simpl. rewrite IH by lia. reflexivity.
Qed.

Lemma slice_prefix (s : string) (k : Z) :
  0 <= k <= Z.of_nat (String.length s) ->
  slice s 0 k = substring 0 (Z.to_nat k) s.
Proof.
  intros Hk. unfold slice, sliceIndex. simpl (0 <? 0).
  destruct (k <? 0) eqn:E; [lia|]. simpl.
  replace (Z.to_nat (Z.min 0 (Z.of_nat (String.length s)))) with 0%nat by lia.
  f_equal. lia.
Qed.

Lemma slice_drop_last (s : string) :
  slice s 0 (-1) = substring 0 (String.length s - 1) s.
Proof.
  unfold slice, sliceIndex. simpl.
  replace (Z.to_nat (Z.min 0 (Z.of_nat (String.length s)))) with 0%nat by lia.
  f_equal. lia.
Qed.

Lemma endsWith_append (s t : string) : endsWith (s ++ t) t = true.
Proof.
  unfold endsWith. rewrite length_append.
  apply andb_true_intro; split; [apply Nat.leb_le; lia|].
  replace (String.length s + String.length t - String.length t)%nat
    with (String.length s) by lia.
  rewrite substring_append_r. apply String.eqb_refl.
Qed.

Lemma substring_split (s : string) (n : nat) :
  (n <= String.length s)%nat ->
  s = (substring 0 n s ++ substring n (String.length s - n) s)%string.
Proof.
  revert n; induction s as [|c s IH]; intros n Hn.
  - destruct n; [reflexivity | simpl in Hn; lia].
  - destruct n as [|n]; simpl.
    + now rewrite substring_all.
    + simpl in Hn.
      change (String c s
              = String c (substring 0 n s ++ substring n (String.length s - n) s)%string).
      f_equal. apply IH. lia.
Qed.

Lemma endsWith_inv (s t : string) :
  endsWith s t = true ->
  s = (substring 0 (String.length s - String.length t) s ++ t)%string.
Proof.
  unfold endsWith. intros H. apply andb_prop in H as [Hle Heq].
  apply Nat.leb_le in Hle. apply String.eqb_eq in Heq.
  rewrite (substring_split s (String.length s - String.length t)) at 1 by lia.
  replace (String.length s - (String.length s - String.length t))%nat
    with (String.length t) by lia.
  now rewrite Heq.
Qed.

Lemma length_cons (c : ascii) (s : string) :
  String.length (String c s) = S (String.length s).
Proof. reflexivity. Qed.

Lemma append_cons (c : ascii) (s t : string) :
  (String c s ++ t)%string = String c (s ++ t)%string.
Proof. reflexivity. Qed.

Lemma append_inj_r (s1 s2 t : string) :
  (s1 ++ t)%string = (s2 ++ t)%string -> s1 = s2.
Proof.
  revert s2; induction s1 as [|c s1 IH]; intros s2 H.
  - destruct s2 as [|d s2]; [reflexivity|].
    apply (f_equal String.length) in H.
    rewrite !length_append, length_cons in H. simpl in H. lia.
  - destruct s2 as [|d s2].
    + apply (f_equal String.length) in H.
      rewrite !length_append, length_cons in H. simpl in H. lia.
    + rewrite !append_cons in H. injection H as -> H. f_equal. now apply IH.
Qed.

Example trim_examples :
  trim "  Port strike halts exports  " = "Port strike halts exports"
  /\ trim (String (ascii_of_nat 9) (String (ascii_of_nat 160) " ")) = ""
  /\ trim "" = ""
  /\ trim "a  b" = "a  b".
Proof. repeat split; reflexivity. Qed.

Example slice_examples :
  slice "resilience" 0 (-1) = "resilienc"
  /\ slice "resilience" 0 4 = "resi"
  /\ slice "resilience" 0 40 = "resilience"
  /\ slice "" 0 (-1) = ""
  /\ endsWith "done." "." = true
  /\ endsWith "done" "." = false.
Proof. repeat split; reflexivity. Qed.

Example sort_is_stable :
  sort (fun a b : string * Z => snd b - snd a)
       [("a", 1); ("b", 2); ("c", 1); ("d", 2)]
  = [("b", 2); ("d", 2); ("a", 1); ("c", 1)].
Proof. reflexivity. Qed.

End JsFacts.

(** *** The aspect literals *)

Module AspectFacts.

(** C8: the seven aspect literals are the same, in the same order, in
    the Chatbot's [aspectOrder], the Dashboard's [DEFAULT_ASPECTS] and
    the Heatmap's [aspectOrder]; each list has seven elements and the
    three agree at every index. *)
Theorem aspect_literals_agree :
  length Chatbot.aspectOrder = 7%nat
  /\ length DashboardPage.DEFAULT_ASPECTS = 7%nat
  /\ length Heatmap.aspectOrder = 7%nat
  /\ (forall i : nat,
        nth_error Chatbot.aspectOrder i = nth_error DashboardPage.DEFAULT_ASPECTS i
        /\ nth_error DashboardPage.DEFAULT_ASPECTS i = nth_error Heatmap.aspectOrder i)
  /\ Chatbot.aspectOrder = DashboardPage.DEFAULT_ASPECTS
  /\ DashboardPage.DEFAULT_ASPECTS = Heatmap.aspectOrder.
Proof.
  repeat split; reflexivity.
Qed.

Lemma aspectOrder_NoDup : NoDup Chatbot.aspectOrder.
Proof. apply (bool_decide_unpack _). vm_compute. exact I. Qed.

End AspectFacts.

(** *** The reason shown next to an aspect *)

Module ReasonFacts.
Import Js JsFacts Chatbot Samples.

(** What [formatReason] makes of a reason once the guard has let it
    through. *)
Lemma formatReason_shown (item : DetailItem) (reason : string) :
  detail_reason item = Some reason ->
  reason <> "" ->
  reason <> "no significant change" ->
  formatReason item =
    let clean := trim reason in
    let clean := if endsWith clean "." then slice clean 0 (-1) else clean in
    if (160 <? String.length clean)%nat
    then (slice clean 0 157 ++ "...")%string else clean.
Proof.
  intros Hr Hne Hnsc. unfold formatReason. rewrite Hr. simpl truthy.
  apply String.eqb_neq in Hne, Hnsc. rewrite Hne, Hnsc. reflexivity.
Qed.

Lemma strip_period (clean body : string) :
  clean = (body ++ ".")%string \/ (endsWith clean "." = false /\ body = clean) ->
  (if endsWith clean "." then slice clean 0 (-1) else clean) = body.
Proof.
  intros [-> | [Hno ->]].
  - rewrite endsWith_append, slice_drop_last, length_append.
    replace (String.length body + String.length "." - 1)%nat
      with (String.length body) by (simpl; lia).
    apply substring_append_l.
  - now rewrite Hno.
Qed.

Lemma formatReason_length (item : DetailItem) :
  (String.length (formatReason item) <= 160)%nat.
Proof.
  unfold formatReason. destruct (detail_reason item) as [reason|]; [|simpl; lia].
  destruct (negb (truthy (Some reason)) || (reason =? "no significant change")%string);
    [simpl; lia|].
  set (clean := if endsWith (trim reason) "." then _ else _).
  destruct (160 <? String.length clean)%nat eqn:Hlong.
  - apply Nat.ltb_lt in Hlong.
    rewrite length_append, (slice_prefix clean 157) by lia.
    change (Z.to_nat 157) with 157%nat.
    rewrite length_substring. simpl String.length. lia.
  - apply Nat.ltb_ge in Hlong. exact Hlong.
Qed.

(** C9, as the code has it: [formatReason] returns the empty string when
    the reason is absent, empty or equal to 'no significant change';
    its result never exceeds 160 characters; otherwise the reason is
    trimmed and one trailing period is removed, and what remains is
    returned whole when it has at most 160 characters and cut to its
    first 157 characters followed by '...' when it has more.  The test
    against 160 comes after the period is removed. *)
Theorem formatReason_spec (item : DetailItem) :
  (detail_reason item = None \/ detail_reason item = Some ""
   \/ detail_reason item = Some "no significant change" ->
   formatReason item = "")
  /\ (String.length (formatReason item) <= 160)%nat
  /\ (forall reason body : string,
        detail_reason item = Some reason ->
        reason <> "" ->
        reason <> "no significant change" ->
        trim reason = (body ++ ".")%string
        \/ (endsWith (trim reason) "." = false /\ body = trim reason) ->
        formatReason item =
          if (160 <? String.length body)%nat
          then (substring 0 157 (trim reason) ++ "...")%string
          else body).
Proof.
  split; [|split].
  - unfold formatReason. intros [H | [H | H]]; rewrite H; reflexivity.
  - apply formatReason_length.
  - intros reason body Hr Hne Hnsc Hbody.
    rewrite (formatReason_shown item reason Hr Hne Hnsc). cbv zeta.
    rewrite (strip_period (trim reason) body Hbody).
    destruct (160 <? String.length body)%nat eqn:Hlong; [|reflexivity].
    apply Nat.ltb_lt in Hlong.
    rewrite (slice_prefix body 157) by lia.
    change (Z.to_nat 157) with 157%nat. f_equal.
    destruct Hbody as [-> | [_ ->]]; [|reflexivity].
    rewrite <- (substring_substring (body ++ ".") 157 (String.length body)) by lia.
    now rewrite substring_append_l.
Qed.

Lemma formatReason_spec_witness :
  formatReason (itemWithReason (Some "  Fuel imports are interrupted. "))
  = "Fuel imports are interrupted".
Proof.
  apply (proj2 (proj2 (formatReason_spec
                         (itemWithReason (Some "  Fuel imports are interrupted. "))))
           "  Fuel imports are interrupted. " "Fuel imports are interrupted").
  - reflexivity.
  - discriminate.
  - discriminate.
  - left. reflexivity.
Defined.

(** C9 as stated fails: a reason that has 161 characters after trimming,
    the last of them a period, is longer than 160 characters after
    trimming and yet comes back whole but for the period, not cut to 157
    characters and '...'. *)
Lemma formatReason_long_after_trim_not_truncated :
  (160 < String.length (trim longReason))%nat
  /\ formatReason (itemWithReason (Some longReason))
     = string_of_list_ascii (repeat "a"%char 160)
  /\ formatReason (itemWithReason (Some longReason))
     <> (substring 0 157 (trim longReason) ++ "...")%string.
Proof.
  split; [vm_compute; lia|]. split; [vm_compute; reflexivity|].
  vm_compute. discriminate.
Qed.

End ReasonFacts.

(** *** The message list of the Chatbot *)

Module MessageFacts.
Import Js Api Chatbot Readings Samples.

(** **** Ids *)

Lemma createMessageId_not_welcome (e : Entropy) :
  createMessageId e <> "welcome".
Proof.
  unfold createMessageId, numberToString.
  destruct (Z.to_int (now e)) as [u | u]; destruct u; discriminate.
Qed.

Lemma idEq_welcome_created (e : Entropy) :
  idEq (id welcomeMessage) (IdString (createMessageId e)) = false.
Proof.
  change (("welcome" =? createMessageId e)%string = false).
  apply String.eqb_neq. intros H. symmetry in H.
  exact (createMessageId_not_welcome e H).
Qed.

(** **** The invariant *)

Lemma welcomeLeads_default : welcomeLeads defaultMessages.
Proof. exists []. split; [reflexivity | constructor]. Qed.

Lemma welcomeLeads_head (l : list Message) :
  welcomeLeads l -> nth_error l 0 = Some welcomeMessage.
Proof. intros (rest & -> & _). reflexivity. Qed.

Lemma welcomeLeads_snoc (l : list Message) (message : Message) :
  welcomeLeads l -> notWelcomeId message -> welcomeLeads (l ++ [message]).
Proof.
  intros (rest & -> & Hrest) Hm. exists (rest ++ [message]). split; [reflexivity|].
  apply Forall_app; split; [exact Hrest | now constructor].
Qed.

Lemma welcomeLeads_map (f : Message -> Message) (l : list Message) :
  f welcomeMessage = welcomeMessage ->
  (forall message, notWelcomeId message -> notWelcomeId (f message)) ->
  welcomeLeads l -> welcomeLeads (map f l).
Proof.
  intros Hw Hf (rest & -> & Hrest). exists (map f rest). simpl. rewrite Hw.
  split; [reflexivity|]. induction Hrest; simpl; constructor; auto.
Qed.

Lemma welcomeLeads_filter (target : MessageId) (l : list Message) :
  target <> IdString "welcome" ->
  welcomeLeads l ->
  welcomeLeads (List.filter (fun message => negb (idEq (id message) target)) l).
Proof.
  intros Ht (rest & -> & Hrest).
  assert (idEq (id welcomeMessage) target = false) as Hw.
  { destruct target as [s | n]; [|reflexivity].
    change (("welcome" =? s)%string = false).
    apply String.eqb_neq. congruence. }
  cbn [List.filter]. rewrite Hw. cbn [negb].
  eexists; split; [reflexivity|].
  induction Hrest as [|m rest Hm _ IH]; cbn [List.filter]; [constructor|].
  destruct (negb (idEq (id m) target)); [constructor|]; assumption.
Qed.

(** A message that carries a scenario is not the welcome message, so its
    id is not the welcome id. *)
Lemma scenario_notWelcomeId (l : list Message) (message : Message) (txt : string) :
  welcomeLeads l -> In message l -> scenario message = Some txt ->
  notWelcomeId message.
Proof.
  intros (rest & -> & Hrest) [<- | Hin] Hs; [discriminate Hs|].
  rewrite Forall_forall in Hrest. apply Hrest, list_elem_of_In, Hin.
Qed.

Lemma findLastBotMessageForScenario_Some
      (scenarioText : option string) (l : list Message) (found : Message) :
  findLastBotMessageForScenario scenarioText l = Some found ->
  In found l /\ scenario found = scenarioText /\ truthy scenarioText = true.
Proof.
  unfold findLastBotMessageForScenario.
  destruct (truthy scenarioText); simpl; [|discriminate].
  intros H. apply find_some in H as [Hin Hp].
  apply andb_prop in Hp as [_ Hp]. apply bool_decide_eq_true in Hp.
  rewrite <- in_rev in Hin. auto.
Qed.

(** The message [handleRegenerate] asks [runScenario] to delete carries
    the scenario, hence it is never the welcome message. *)
Lemma handleRegenerate_target (rendered : State) (message : Message)
      (txt : string) (target : MessageId) :
  welcomeLeads (messages rendered) ->
  In message (messages rendered) ->
  handleRegenerate rendered (scenario message) (id message) (sender message)
    = Some (txt, target) ->
  target <> IdString "welcome".
Proof.
  intros Hinv Hin. unfold handleRegenerate.
  destruct (scenario message) as [s|] eqn:Hs; [|discriminate].
  destruct (negb (truthy (Some s)) || isLoading rendered); [discriminate|].
  destruct (sender message =? "user")%string.
  - destruct (findLastBotMessageForScenario (Some s) (messages rendered))
      as [found|] eqn:Hfound; [|discriminate].
    intros [= <- <-].
    apply findLastBotMessageForScenario_Some in Hfound as (Hfin & Hfs & _).
    exact (scenario_notWelcomeId _ _ _ Hinv Hfin Hfs).
  - intros [= <- <-]. exact (scenario_notWelcomeId _ _ _ Hinv Hin Hs).
Qed.

(** **** The handlers keep the invariant *)

Lemma refreshHistory_messages (reply : Reply (option (list HistoryItem))) (st : State) :
  exists history,
    messages (refreshHistory reply st) = welcomeMessage :: map mapHistory history.
Proof.
  unfold refreshHistory. destruct reply as [response|]; [|now exists []].
  destruct (default [] response) as [|item history] eqn:E; [now exists []|].
  now exists (item :: history).
Qed.

Lemma refreshHistory_welcomeLeads reply (st : State) :
  welcomeLeads (messages (refreshHistory reply st)).
Proof.
  destruct (refreshHistory_messages reply st) as (history & ->).
  eexists; split; [reflexivity|].
  apply Forall_forall. intros m Hm. apply list_elem_of_In, in_map_iff in Hm.
  destruct Hm as (item & <- & _). discriminate.
Qed.

(** What the first [setMessages] of [runScenario] leaves in the list. *)
Lemma runScenario_messages (txt : string) (target : option MessageId)
      (e : Entropy) (t : Z) (st : State) :
  exists pendingMessage,
    id pendingMessage = IdString (createMessageId e)
    /\ scenario pendingMessage = Some txt
    /\ messages (fst (runScenario txt target e t st)) =
         (match target with
          | Some tg =>
              if idTruthy target
              then List.filter (fun message => negb (idEq (id message) tg))
                               (messages st)
              else messages st
          | None => messages st
          end) ++ [pendingMessage].
Proof.
  eexists. split; [|split]; [| |unfold runScenario; cbn [fst];
    destruct target as [[s|n]|]; try destruct (idTruthy _); reflexivity];
    reflexivity.
Qed.

Lemma runScenario_welcomeLeads (txt : string) (target : option MessageId)
      (e : Entropy) (t : Z) (st : State) :
  (forall tg, target = Some tg -> tg <> IdString "welcome") ->
  welcomeLeads (messages st) ->
  welcomeLeads (messages (fst (runScenario txt target e t st))).
Proof.
  intros Ht Hinv.
  destruct (runScenario_messages txt target e t st) as (p & Hid & _ & ->).
  apply welcomeLeads_snoc.
  - destruct target as [tg|]; [|exact Hinv].
    destruct (idTruthy (Some tg)); [|exact Hinv].
    apply welcomeLeads_filter; auto.
  - unfold notWelcomeId. rewrite Hid. intros [= H].
    exact (createMessageId_not_welcome e H).
Qed.

(** [handleSendMessage] only appends. *)
Lemma handleSendMessage_appends (e1 e2 : Entropy) (t : Z) (st : State) :
  exists added,
    messages (fst (handleSendMessage e1 e2 t st)) = messages st ++ added
    /\ Forall notWelcomeId added.
Proof.
  unfold handleSendMessage.
  destruct (negb (truthy (Some (trim (input st))))).
  - exists []. split; [now rewrite app_nil_r | constructor].
  - match goal with
    | |- context [runScenario ?txt None ?e ?t ?s] =>
        destruct (runScenario_messages txt None e t s) as (p & Hid & _ & Hm);
        destruct (runScenario txt None e t s) as [st' pendingId] eqn:Hrun
    end.
    cbn [fst] in *. rewrite Hm. cbn [messages setInput request setMessages].
    rewrite <- app_assoc. eexists; split; [reflexivity|].
    repeat constructor.
    + intros [= H]. exact (createMessageId_not_welcome e1 H).
    + unfold notWelcomeId. rewrite Hid. intros [= H].
      exact (createMessageId_not_welcome e2 H).
Qed.

Lemma handleSendMessage_welcomeLeads (e1 e2 : Entropy) (t : Z) (st : State) :
  welcomeLeads (messages st) ->
  welcomeLeads (messages (fst (handleSendMessage e1 e2 t st))).
Proof.
  intros (rest & Hst & Hrest).
  destruct (handleSendMessage_appends e1 e2 t st) as (added & -> & Hadded).
  rewrite Hst. exists (rest ++ added). split; [reflexivity|].
  apply Forall_app; auto.
Qed.

Lemma runScenarioSettled_welcomeLeads (txt : string) (e : Entropy)
      (reply : Reply AnalysisData) (st : State) :
  welcomeLeads (messages st) ->
  welcomeLeads (messages (runScenarioSettled txt (createMessageId e) reply st)).
Proof.
  intros Hinv. unfold runScenarioSettled.
  destruct reply as [result|]; cbn [messages setIsLoading request setMessages];
    (apply welcomeLeads_map;
     [ now rewrite idEq_welcome_created
     | intros m Hm; destruct (idEq (id m) _); exact Hm
     | exact Hinv ]).
Qed.

Lemma messageIdAssigned_welcomeLeads (e : Entropy) (message_id : option Z)
      (st : State) :
  welcomeLeads (messages st) ->
  welcomeLeads (messages (messageIdAssigned (createMessageId e) message_id st)).
Proof.
  intros Hinv. unfold messageIdAssigned.
  destruct message_id as [n|]; [|exact Hinv].
  destruct (n =? 0); [exact Hinv|]. cbn [messages setMessages].
  apply welcomeLeads_map; [| |exact Hinv].
  - unfold replaceId. now rewrite idEq_welcome_created.
  - intros m Hm. unfold replaceId. destruct (idEq (id m) _); [discriminate | exact Hm].
Qed.

Lemma reachable_welcomeLeads (st : State) :
  reachable st -> welcomeLeads (messages st).
Proof.
  induction 1 as [ | reply st _ _ | st _ _ | v st _ IH | e1 e2 t st _ IH
                 | rendered message txt target e t st _ IHr _ IH Hin Hreg
                 | txt e reply st _ IH | e message_id st _ IH ].
  - apply welcomeLeads_default.
  - apply refreshHistory_welcomeLeads.
  - apply welcomeLeads_default.
  - exact IH.
  - now apply handleSendMessage_welcomeLeads.
  - apply runScenario_welcomeLeads; [|exact IH].
    intros tg [= <-]. exact (handleRegenerate_target _ _ _ _ IHr Hin Hreg).
  - now apply runScenarioSettled_welcomeLeads.
  - now apply messageIdAssigned_welcomeLeads.
Qed.

Lemma runScenarioSettled_maps (txt : string) (e : Entropy)
      (reply : Reply AnalysisData) (st : State) :
  exists f,
    f welcomeMessage = welcomeMessage
    /\ (forall message, id (f message) = id message)
    /\ messages (runScenarioSettled txt (createMessageId e) reply st)
       = map f (messages st).
Proof.
  unfold runScenarioSettled.
  destruct reply as [result|]; cbn [messages setIsLoading request setMessages];
    (eexists; split; [|split]; [| |reflexivity];
     [ cbv beta; now rewrite idEq_welcome_created
     | intros message; cbv beta; now destruct (idEq (id message) _) ]).
Qed.

(** C10: the welcome message is the first element of [messages] in every
    state the Chatbot reaches.  [refreshHistory] rebuilds the list with
    the welcome message first; [handleSendMessage] only appends;
    [runScenario] removes the message it is told to delete and appends,
    then maps in place, leaving the welcome message as it is; and the
    message [handleRegenerate] hands to [runScenario] for deletion carries
    a scenario, so it never bears the welcome id. *)
Theorem welcome_message_stays_first :
  (forall reply st, exists history,
      messages (refreshHistory reply st) = welcomeMessage :: map mapHistory history)
  /\ (forall e1 e2 t st, exists added,
        messages (fst (handleSendMessage e1 e2 t st)) = messages st ++ added)
  /\ (forall txt target e t st, exists pendingMessage,
        messages (fst (runScenario txt target e t st)) =
          (match target with
           | Some tg =>
               if idTruthy target
               then List.filter (fun message => negb (idEq (id message) tg))
                                (messages st)
               else messages st
           | None => messages st
           end) ++ [pendingMessage])
  /\ (forall txt e reply st, exists f,
        f welcomeMessage = welcomeMessage
        /\ messages (runScenarioSettled txt (createMessageId e) reply st)
           = map f (messages st))
  /\ (forall rendered message txt target,
        reachable rendered ->
        In message (messages rendered) ->
        handleRegenerate rendered (scenario message) (id message) (sender message)
          = Some (txt, target) ->
        target <> id welcomeMessage)
  /\ (forall st, reachable st -> nth_error (messages st) 0 = Some welcomeMessage).
Proof.
  repeat apply conj.
  - apply refreshHistory_messages.
  - intros e1 e2 t st.
    destruct (handleSendMessage_appends e1 e2 t st) as (added & H & _). eauto.
  - intros txt target e t st.
    destruct (runScenario_messages txt target e t st) as (p & _ & _ & H). eauto.
  - intros txt e reply st.
    destruct (runScenarioSettled_maps txt e reply st) as (f & Hw & _ & H). eauto.
  - intros rendered message txt target Hr Hin Hreg.
    apply (handleRegenerate_target rendered message txt target); auto.
    now apply reachable_welcomeLeads.
  - intros st Hst. now apply welcomeLeads_head, reachable_welcomeLeads.
Qed.

Lemma welcome_message_stays_first_witness :
  nth_error (messages (fst (handleSendMessage entropy1 entropy2 1762070400000
                              (setInput "Port strike halts exports" initialState))))
            0
  = Some welcomeMessage.
Proof.
  apply (proj2 (proj2 (proj2 (proj2 (proj2 welcome_message_stays_first))))).
  apply reach_handleSendMessage, reach_setInput, reach_initial.
Defined.

(** A regeneration after a failed analysis: the stored error message is
    deleted, a pending message takes its place at the end, and the welcome
    message is still first. *)
Example regenerate_after_failure :
  let sent := fst (handleSendMessage entropy1 entropy2 1762070400000
                     (setInput " Port strike halts exports " initialState)) in
  let failed := runScenarioSettled "Port strike halts exports"
                  (createMessageId entropy2) Rejected sent in
  let stored := messageIdAssigned (createMessageId entropy2) (Some 42) failed in
  let again := fst (runScenario "Port strike halts exports" (Some (IdNumber 42))
                      entropy3 1762070460000 stored) in
  map id (messages stored)
  = [IdString "welcome"; IdString "1762070400000-9f3a6c21d4b8"; IdNumber 42]
  /\ handleRegenerate stored (Some "Port strike halts exports") (IdNumber 42) "bot"
     = Some ("Port strike halts exports", IdNumber 42)
  /\ map id (messages again)
     = [IdString "welcome"; IdString "1762070400000-9f3a6c21d4b8";
        IdString "1762070460000-0c44e1f7a9b3"]
  /\ calls again
     = [ addChatMessage "Port strike halts exports" "user"
                        "Port strike halts exports" None;
         analyzeScenario "Port strike halts exports";
         addChatMessage
           "Sorry, there was an error analyzing your scenario. Please try again."
           "bot" "Port strike halts exports" None;
         deleteChatMessage 42;
         analyzeScenario "Port strike halts exports" ].
Proof. repeat split; vm_compute; reflexivity. Qed.

(** **** Sending *)

Lemma trim_blank_falsy (s : string) :
  trim s = "" -> negb (truthy (Some (trim s))) = true.
Proof. intros ->. reflexivity. Qed.

(** C6: a headline that is empty after trimming is refused.  The analyze
    operation fails with [ValidationError] on it, whatever the baseline,
    the interpreter and the policy, and [handleSendMessage] returns with
    the state as it was: no user message is added and no request, for an
    analysis or otherwise, is issued. *)
Theorem blank_headline_refused (st : State) (e1 e2 : Entropy) (t : Z) :
  trim (input st) = "" ->
  (forall countries policy interpret baseline,
      Aggregator.analyze countries policy interpret baseline (input st)
      = inl Aggregator.ValidationError)
  /\ handleSendMessage e1 e2 t st = (st, None)
  /\ messages (fst (handleSendMessage e1 e2 t st)) = messages st
  /\ calls (fst (handleSendMessage e1 e2 t st)) = calls st.
Proof.
  intros Hblank.
  assert (handleSendMessage e1 e2 t st = (st, None)) as Hsend.
  { unfold handleSendMessage. now rewrite (trim_blank_falsy _ Hblank). }
  split; [|rewrite Hsend; auto].
  intros countries policy interpret baseline.
  unfold Aggregator.analyze. now rewrite Hblank.
Qed.

Lemma blank_headline_refused_witness :
  handleSendMessage entropy1 entropy2 1762070400000 (setInput "   " initialState)
  = (setInput "   " initialState, None).
Proof.
  apply (proj1 (proj2 (blank_headline_refused (setInput "   " initialState)
                         entropy1 entropy2 1762070400000 eq_refl))).
Defined.

(** A headline with something left after trimming goes through: the user
    message and the pending message are appended and the analysis is
    requested for the trimmed text. *)
Lemma handleSendMessage_sends (st : State) (e1 e2 : Entropy) (t : Z) :
  trim (input st) <> "" ->
  exists userMessage pendingMessage,
    messages (fst (handleSendMessage e1 e2 t st))
    = messages st ++ [userMessage; pendingMessage]
    /\ text userMessage = trim (input st)
    /\ sender userMessage = "user"
    /\ calls (fst (handleSendMessage e1 e2 t st))
       = calls st ++ [addChatMessage (trim (input st)) "user" (trim (input st)) None;
                      analyzeScenario (trim (input st))]
    /\ forall countries policy interpret baseline,
        Aggregator.analyze countries policy interpret baseline (input st)
        <> inl Aggregator.ValidationError.
Proof.
  intros Hne. unfold handleSendMessage.
  assert (negb (truthy (Some (trim (input st)))) = false) as ->.
  { simpl. apply String.eqb_neq in Hne. now rewrite Hne. }
  do 2 eexists. unfold runScenario. cbn [fst messages calls setInput request
    setMessages setIsLoading]. rewrite <- !app_assoc.
  split; [reflexivity|]. split; [reflexivity|]. split; [reflexivity|].
  split; [reflexivity|].
  intros countries policy interpret baseline. unfold Aggregator.analyze.
  apply String.eqb_neq in Hne. rewrite Hne. unfold Aggregator.aggregate.
  destruct (interpret (input st)); destruct (negb _); try discriminate;
    destruct policy; try discriminate; destruct (forallb _ _); discriminate.
Qed.

End MessageFacts.

(** *** Objects and stable sorting *)

Module ObjectFacts.
Import Js.

Section Objects.
Context {V : Type}.
Implicit Types (o : obj V) (k : string) (v : V).

Lemma get_set_eq o k v : get (set o k v) k = Some v.
Proof.
  induction o as [|[k' v'] o IH]; simpl.
  - now rewrite String.eqb_refl.
  - destruct (k =? k')%string eqn:E; simpl; rewrite E; [reflexivity | exact IH].
Qed.

Lemma get_set_ne o k k' v : k <> k' -> get (set o k v) k' = get o k'.
Proof.
  intros Hne. induction o as [|[k0 v0] o IH]; simpl.
  - apply not_eq_sym, String.eqb_neq in Hne. now rewrite Hne.
  - destruct (k =? k0)%string eqn:E; simpl; [|now rewrite IH].
    apply String.eqb_eq in E as <-.
    apply not_eq_sym, String.eqb_neq in Hne. now rewrite Hne.
Qed.

Lemma get_Some_In o k v : get o k = Some v -> In (k, v) o.
Proof.
  induction o as [|[k' v'] o IH]; simpl; [discriminate|].
  destruct (k =? k')%string eqn:E.
  - apply String.eqb_eq in E as ->. intros [= ->]. now left.
  - intros H. right. now apply IH.
Qed.

Lemma get_None_keys o k : get o k = None <-> ~ In k (keys o).
Proof.
  induction o as [|[k' v'] o IH]; simpl; [tauto|].
  destruct (k =? k')%string eqn:E.
  - apply String.eqb_eq in E as ->. split; [discriminate | tauto].
  - apply String.eqb_neq in E. rewrite IH. split.
    + intros H [Heq | Hin]; [congruence | tauto].
    + tauto.
Qed.

Lemma In_get o k v : NoDup (keys o) -> In (k, v) o -> get o k = Some v.
Proof.
  induction o as [|[k' v'] o IH]; simpl; [tauto|].
  intros Hnd [[= -> ->] | Hin].
  - now rewrite String.eqb_refl.
  - apply NoDup_cons_1_1 in Hnd as Hk'. apply NoDup_cons_1_2 in Hnd.
    destruct (k =? k')%string eqn:E; [|now apply IH].
    apply String.eqb_eq in E as ->. exfalso. apply Hk'.
    apply list_elem_of_In. change k' with (fst (k', v)). now apply in_map.
Qed.

Lemma keys_set o k v :
  keys (set o k v) = if has o k then keys o else keys o ++ [k].
Proof.
  unfold has. induction o as [|[k' v'] o IH]; simpl; [reflexivity|].
  destruct (k =? k')%string eqn:E; simpl; [reflexivity|].
  change (map fst (set o k v)) with (keys (set o k v)).
  rewrite IH. now destruct (get o k).
Qed.

Lemma set_NoDup o k v : NoDup (keys o) -> NoDup (keys (set o k v)).
Proof.
  intros Hnd. rewrite keys_set. unfold has.
  destruct (get o k) eqn:E; [exact Hnd|].
  apply NoDup_app. split; [exact Hnd|]. split.
  - intros x Hx Hk. apply list_elem_of_In in Hk as [<- | []].
    apply get_None_keys in E. apply E. now apply list_elem_of_In.
  - apply NoDup_singleton.
Qed.

Lemma In_set o k v k' v' :
  In (k', v') (set o k v) -> (k' = k /\ v' = v) \/ In (k', v') o.
Proof.
  induction o as [|[k0 v0] o IH]; simpl.
  - intros [[= -> ->] | []]. now left.
  - destruct (k =? k0)%string eqn:E; simpl.
    + apply String.eqb_eq in E as ->. intros [[= -> ->] | Hin]; auto.
    + intros [Heq | Hin]; [auto|]. destruct (IH Hin); auto.
Qed.
End Objects.

(** **** The stable sort *)

Section Sort.
Context {A : Type}.
Variable compareFn : A -> A -> Z.

Lemma insert_Permutation (x : A) (l : list A) :
  Permutation (insert compareFn x l) (x :: l).
Proof.
  induction l as [|y l IH]; simpl; [reflexivity|].
  destruct (0 <? compareFn x y); [|reflexivity].
  rewrite IH. apply perm_swap.
Qed.

Lemma sort_Permutation (l : list A) : Permutation (sort compareFn l) l.
Proof.
  induction l as [|x l IH]; simpl; [reflexivity|].
  rewrite insert_Permutation. now constructor.
Qed.

Lemma sort_In (x : A) (l : list A) : In x (sort compareFn l) <-> In x l.
Proof.
  split; apply Permutation_in;
    [apply sort_Permutation | symmetry; apply sort_Permutation].
Qed.

Lemma sort_length (l : list A) : length (sort compareFn l) = length l.
Proof. apply Permutation_length, sort_Permutation. Qed.

(** With a comparator that is antisymmetric in sign and transitive,
    the result is ordered by the comparator, and elements it does not
    tell apart keep the order [before] they had in the input. *)
Section Stable.
Variable before : A -> A -> Prop.
Hypothesis compareFn_antisym : forall x y, 0 < compareFn x y -> compareFn y x < 0.
Hypothesis compareFn_trans :
  forall x y z, compareFn x y <= 0 -> compareFn y z <= 0 -> compareFn x z <= 0.

Local Abbreviation precedes := (Js.precedes compareFn before).

Lemma precedes_le (a b : A) : precedes a b -> compareFn a b <= 0.
Proof. unfold Js.precedes. intros [H | [H _]]; lia. Qed.

Lemma insert_StronglySorted (x : A) (l : list A) :
  Forall (before x) l ->
  StronglySorted precedes l ->
  StronglySorted precedes (insert compareFn x l).
Proof.
  intros Hx Hl. induction Hl as [|y l Hl IH Hy]; simpl.
  - repeat constructor.
  - apply Forall_cons_1 in Hx as [Hxy Hxl].
    destruct (0 <? compareFn x y) eqn:E.
    + apply Z.ltb_lt in E. constructor; [now apply IH|].
      rewrite (insert_Permutation x l). constructor; [|exact Hy].
      left. now apply compareFn_antisym.
    + apply Z.ltb_ge in E. constructor; [now constructor|].
      assert (precedes x y) as Hp.
      { destruct (Z.eq_dec (compareFn x y) 0); [right | left]; [tauto | lia]. }
      constructor; [exact Hp|].
      rewrite Forall_forall in Hy, Hxl |- *. intros z Hz.
      pose proof (compareFn_trans x y z E (precedes_le _ _ (Hy z Hz))) as Hxz.
      destruct (Z.eq_dec (compareFn x z) 0); [right | left]; [|lia].
      split; [assumption | now apply Hxl].
Qed.

Lemma sort_StronglySorted (l : list A) :
  StronglySorted before l -> StronglySorted precedes (sort compareFn l).
Proof.
  induction 1 as [|x l _ IH Hx]; simpl; [constructor|].
  apply insert_StronglySorted; [|exact IH].
  now rewrite (sort_Permutation l).
Qed.
End Stable.
End Sort.

Lemma StronglySorted_map_In {A B : Type} (f : A -> B)
      (R : A -> A -> Prop) (R' : B -> B -> Prop) (l : list A) :
  (forall a b, In a l -> In b l -> R a b -> R' (f a) (f b)) ->
  StronglySorted R l -> StronglySorted R' (map f l).
Proof.
  intros Himp Hl. induction Hl as [|x l Hl IH Hx]; simpl; constructor.
  - apply IH. intros a b Ha Hb. apply Himp; now right.
  - apply Forall_map. rewrite Forall_forall in Hx |- *. intros b Hb.
    apply list_elem_of_In in Hb as Hb'. apply Himp; [now left | now right | auto].
Qed.

End ObjectFacts.

(** *** Numbers *)

Module NumberFacts.
Import Js.

(** Up to 2^53 in magnitude every integer is a double. *)
Lemma double_exact (z : Z) : Z.abs z <= 2 ^ 53 -> double z = z.
Proof.
  intros Hz.
  assert (Z.abs z < 2 ^ 53 \/ z = 2 ^ 53 \/ z = - 2 ^ 53) as [Hlt | [-> | ->]] by lia.
  - unfold double. apply Z.ltb_lt in Hlt. now rewrite Hlt.
  - vm_compute. reflexivity.
  - vm_compute. reflexivity.
Qed.

Lemma add_exact (a b : Z) : Z.abs (a + b) <= 2 ^ 53 -> add a b = a + b.
Proof. apply double_exact. Qed.

Lemma sum_abs_nonneg (l : list Z) : 0 <= foldr Z.add 0 (map Z.abs l).
Proof. induction l as [|x l IH]; simpl; lia. Qed.

(** A running sum whose magnitudes stay within 2^53 is the exact sum. *)
Lemma fold_add_exact (l : list Z) (acc : Z) :
  Z.abs acc + foldr Z.add 0 (map Z.abs l) <= 2 ^ 53 ->
  fold_left add l acc = acc + foldr Z.add 0 l.
Proof.
  revert acc; induction l as [|x l IH]; intros acc Hb; simpl in *; [lia|].
  pose proof (sum_abs_nonneg l) as Hl.
  rewrite add_exact by lia. rewrite IH by lia. lia.
Qed.

(** Beyond 2^53 the sum depends on the order of the additions. *)
Example add_not_associative :
  add (add (2 ^ 53) 1) 1 = 2 ^ 53 /\ add (2 ^ 53) (add 1 1) = 2 ^ 53 + 2.
Proof. split; vm_compute; reflexivity. Qed.

End NumberFacts.

(** *** The impact summary of the Chatbot *)

Module SummaryFacts.
Import Js Api Chatbot Readings ObjectFacts NumberFacts Samples.

(** **** One impact *)

Lemma lookupGroup_addImpact (m : obj (obj Group)) (impact : Impact) (c a : string) :
  lookupGroup (addImpact m impact) c a =
    if hits c a impact
    then Some (accumulate (default emptyGroup (lookupGroup m c a)) impact)
    else lookupGroup m c a.
Proof.
  unfold addImpact, lookupGroup, hits.
  set (m1 := if has m (country impact) then m else set m (country impact) []).
  assert (default [] (get m1 (country impact)) = default [] (get m (country impact)))
    as Hrow.
  { unfold m1, has. destruct (get m (country impact)) eqn:E; [now rewrite E|].
    now rewrite get_set_eq. }
  assert (forall c', country impact <> c' -> get m1 c' = get m c') as Hother.
  { intros c' Hne. unfold m1. destruct (has m (country impact)); [reflexivity|].
    now apply get_set_ne. }
  rewrite Hrow.
  destruct (String.eqb_spec (country impact) c) as [<- | Hc]; simpl.
  - rewrite get_set_eq. simpl.
    destruct (String.eqb_spec (aspect impact) a) as [<- | Ha].
    + rewrite get_set_eq. now destruct (get m (country impact)).
    + rewrite get_set_ne by assumption. now destruct (get m (country impact)).
  - rewrite get_set_ne by assumption. now rewrite Hother.
Qed.

Lemma addImpact_distinctKeys (m : obj (obj Group)) (impact : Impact) :
  distinctKeys m -> distinctKeys (addImpact m impact).
Proof.
  intros [Hk Hrows]. unfold addImpact.
  set (m1 := if has m (country impact) then m else set m (country impact) []).
  assert (NoDup (keys m1) /\
          forall c am, In (c, am) m1 -> NoDup (keys am)) as [Hk1 Hrows1].
  { unfold m1. destruct (has m (country impact)); [now split|]. split.
    - now apply set_NoDup.
    - intros c am Hin. apply In_set in Hin as [[_ ->] | Hin]; [constructor | eauto]. }
  split; [now apply set_NoDup|].
  intros c am Hin. apply In_set in Hin as [[_ ->] | Hin]; [|eauto].
  apply set_NoDup. destruct (get m1 (country impact)) as [row|] eqn:E; simpl.
  - apply get_Some_In in E. eauto.
  - constructor.
Qed.

(** **** The whole list *)

Lemma lookupGroup_fold (l : list Impact) (m : obj (obj Group)) (c a : string) :
  lookupGroup (fold_left addImpact l m) c a =
    fold_left step (List.filter (hits c a) l) (lookupGroup m c a).
Proof.
  revert m; induction l as [|impact l IH]; intros m; simpl; [reflexivity|].
  rewrite IH, lookupGroup_addImpact.
  destruct (hits c a impact); reflexivity.
Qed.

Lemma fold_distinctKeys (l : list Impact) (m : obj (obj Group)) :
  distinctKeys m -> distinctKeys (fold_left addImpact l m).
Proof.
  revert m; induction l as [|impact l IH]; intros m Hm; simpl; [exact Hm|].
  now apply IH, addImpact_distinctKeys.
Qed.

Lemma groupImpacts_distinctKeys (l : list Impact) : distinctKeys (groupImpacts l).
Proof.
  apply fold_distinctKeys. split; [constructor|]. intros c am [].
Qed.

Lemma fold_step_Some (l : list Impact) (g : Group) :
  fold_left step l (Some g) = Some (fold_left accumulate l g).
Proof.
  revert g; induction l as [|impact l IH]; intros g; simpl; [reflexivity|].
  unfold step at 2. simpl. apply IH.
Qed.

Lemma fold_accumulate_delta (l : list Impact) (g : Group) :
  group_delta (fold_left accumulate l g)
  = fold_left add (map (fun impact => orZero (delta impact)) l) (group_delta g).
Proof.
  revert g; induction l as [|impact l IH]; intros g; simpl; [reflexivity|].
  now rewrite IH.
Qed.

Lemma head_setAdd (s : list string) (x : string) :
  head (setAdd s x) = match head s with Some y => Some y | None => Some x end.
Proof.
  unfold setAdd. destruct s as [|y s]; [reflexivity|].
  now destruct (existsb (String.eqb x) (y :: s)).
Qed.

Lemma fold_accumulate_reason (l : list Impact) (g : Group) :
  head (group_reasons (fold_left accumulate l g))
  = match head (group_reasons g) with
    | Some y => Some y
    | None => head (List.filter (fun r => negb (String.eqb r "")) (omap reason l))
    end.
Proof.
  revert g; induction l as [|impact l IH]; intros g; simpl.
  - now destruct (head (group_reasons g)).
  - rewrite IH. unfold accumulate at 1. simpl.
    destruct (reason impact) as [r|]; simpl; [|reflexivity].
    destruct (negb (r =? "")%string); simpl; [|reflexivity].
    rewrite head_setAdd. now destruct (head (group_reasons g)).
Qed.

(** The group of a pair after the [forEach]: none when no impact hits the
    pair, and otherwise the sum of the deltas with the reasons in the
    order of their first appearance. *)
Lemma lookupGroup_groupImpacts (l : list Impact) (c a : string) :
  lookupGroup (groupImpacts l) c a =
    match List.filter (hits c a) l with
    | [] => None
    | hit => Some (fold_left accumulate hit emptyGroup)
    end.
Proof.
  unfold groupImpacts. rewrite lookupGroup_fold. simpl.
  destruct (List.filter (hits c a) l) as [|impact hit]; [reflexivity|].
  simpl. unfold step at 2. simpl. apply fold_step_Some.
Qed.

(** The delta of a pair after the [forEach]: the deltas of the impacts
    that hit it, added in the order of the list. *)
Lemma aggregatedDelta_accumulated (l : list Impact) (c a : string) :
  aggregatedDelta l c a =
    match List.filter (hits c a) l with
    | [] => None
    | _ => Some (accumulatedDelta l c a)
    end.
Proof.
  unfold aggregatedDelta, accumulatedDelta. rewrite lookupGroup_groupImpacts.
  destruct (List.filter (hits c a) l) as [|impact hit] eqn:E; [reflexivity|].
  cbn [fmap option_fmap option_map]. f_equal. now rewrite fold_accumulate_delta.
Qed.

(** **** Sums within 2^53 *)

Lemma accumulatedDelta_exact (l : list Impact) (c a : string) :
  magnitude l c a <= 2 ^ 53 -> accumulatedDelta l c a = summedDelta l c a.
Proof.
  unfold magnitude, accumulatedDelta, summedDelta. intros Hb.
  rewrite fold_add_exact; [lia|]. rewrite map_map. simpl. exact Hb.
Qed.

Lemma aggregatedDelta_exact (l : list Impact) (c a : string) :
  magnitude l c a <= 2 ^ 53 ->
  aggregatedDelta l c a =
    match List.filter (hits c a) l with
    | [] => None
    | _ => Some (summedDelta l c a)
    end.
Proof.
  intros Hb. rewrite aggregatedDelta_accumulated.
  destruct (List.filter (hits c a) l); [reflexivity|].
  now rewrite accumulatedDelta_exact.
Qed.

(** **** Order does not matter for the exact sums *)

Lemma filter_Permutation {A : Type} (p : A -> bool) (l l' : list A) :
  Permutation l l' -> Permutation (List.filter p l) (List.filter p l').
Proof.
  induction 1 as [|x l l' _ IH|x y l|l l' l'' _ IH1 _ IH2]; simpl.
  - constructor.
  - destruct (p x); [now constructor | exact IH].
  - destruct (p x), (p y); try reflexivity. apply perm_swap.
  - now transitivity (List.filter p l').
Qed.

Lemma sum_Permutation (l l' : list Z) :
  Permutation l l' -> foldr Z.add 0 l = foldr Z.add 0 l'.
Proof.
  induction 1 as [|x l l' _ IH|x y l|l l' l'' _ IH1 _ IH2]; simpl; lia.
Qed.

Lemma summedDelta_Permutation (l l' : list Impact) (c a : string) :
  Permutation l l' -> summedDelta l c a = summedDelta l' c a.
Proof.
  intros Hp. unfold summedDelta.
  apply sum_Permutation, Permutation_map, filter_Permutation, Hp.
Qed.

Lemma magnitude_Permutation (l l' : list Impact) (c a : string) :
  Permutation l l' -> magnitude l c a = magnitude l' c a.
Proof.
  intros Hp. unfold magnitude.
  apply sum_Permutation, Permutation_map, filter_Permutation, Hp.
Qed.

Lemma hit_Permutation (l l' : list Impact) (c a : string) :
  Permutation l l' ->
  List.filter (hits c a) l = [] <-> List.filter (hits c a) l' = [].
Proof.
  intros Hp. pose proof (filter_Permutation (hits c a) l l' Hp) as Hf.
  split; intros E; rewrite E in Hf.
  - now apply Permutation_nil in Hf.
  - symmetry in Hf. now apply Permutation_nil in Hf.
Qed.

Lemma hits_same_pair (impact impact' : Impact) (c a : string) :
  country impact' = country impact -> aspect impact' = aspect impact ->
  hits c a impact' = hits c a impact.
Proof. unfold hits. now intros -> ->. Qed.

(** Two impacts of one pair against the one impact that carries the
    sum of their deltas: the sum of every pair is the same, no magnitude
    grows, and the same pairs are hit. *)
Lemma merged_sums (l l' others : list Impact) (first second merged : Impact) :
  country second = country first ->
  aspect second = aspect first ->
  country merged = country first ->
  aspect merged = aspect first ->
  delta merged = Some (orZero (delta first) + orZero (delta second)) ->
  Permutation l (first :: second :: others) ->
  Permutation l' (merged :: others) ->
  forall c a,
    summedDelta l c a = summedDelta l' c a
    /\ magnitude l' c a <= magnitude l c a
    /\ (List.filter (hits c a) l = [] <-> List.filter (hits c a) l' = []).
Proof.
  intros Hc2 Ha2 Hcm Ham Hd Hl Hl' c a.
  rewrite (summedDelta_Permutation _ _ c a Hl), (summedDelta_Permutation _ _ c a Hl'),
          (magnitude_Permutation _ _ c a Hl), (magnitude_Permutation _ _ c a Hl'),
          (hit_Permutation _ _ c a Hl), (hit_Permutation _ _ c a Hl').
  unfold summedDelta, magnitude. simpl.
  rewrite (hits_same_pair first second c a Hc2 Ha2),
          (hits_same_pair first merged c a Hcm Ham).
  destruct (hits c a first); simpl; [|split; [reflexivity | split; [lia | tauto]]].
  rewrite Hd. simpl. split; [lia|]. split; [lia|]. split; discriminate.
Qed.

Lemma merged_exactSums (l l' others : list Impact) (first second merged : Impact) :
  country second = country first ->
  aspect second = aspect first ->
  country merged = country first ->
  aspect merged = aspect first ->
  delta merged = Some (orZero (delta first) + orZero (delta second)) ->
  Permutation l (first :: second :: others) ->
  Permutation l' (merged :: others) ->
  exactSums l -> exactSums l'.
Proof.
  intros Hc2 Ha2 Hcm Ham Hd Hl Hl' He c a.
  destruct (merged_sums l l' others first second merged Hc2 Ha2 Hcm Ham Hd Hl Hl' c a)
    as (_ & Hm & _).
  specialize (He c a). lia.
Qed.

Lemma merged_aggregatedDelta (l l' others : list Impact)
      (first second merged : Impact) :
  country second = country first ->
  aspect second = aspect first ->
  country merged = country first ->
  aspect merged = aspect first ->
  delta merged = Some (orZero (delta first) + orZero (delta second)) ->
  Permutation l (first :: second :: others) ->
  Permutation l' (merged :: others) ->
  exactSums l ->
  forall c a, aggregatedDelta l c a = aggregatedDelta l' c a.
Proof.
  intros Hc2 Ha2 Hcm Ham Hd Hl Hl' He c a.
  pose proof (merged_exactSums l l' others first second merged
                Hc2 Ha2 Hcm Ham Hd Hl Hl' He) as He'.
  destruct (merged_sums l l' others first second merged Hc2 Ha2 Hcm Ham Hd Hl Hl' c a)
    as (Hs & _ & Hhit).
  rewrite (aggregatedDelta_exact l c a (He c a)),
          (aggregatedDelta_exact l' c a (He' c a)), Hs.
  destruct (List.filter (hits c a) l) as [|x hit],
           (List.filter (hits c a) l') as [|x' hit']; try reflexivity.
  - discriminate (proj1 Hhit eq_refl).
  - discriminate (proj2 Hhit eq_refl).
Qed.

(** **** What the summary shows *)

Lemma In_take {A : Type} (n : nat) (l : list A) (x : A) :
  In x (take n l) -> In x l.
Proof.
  revert n; induction l as [|y l IH]; intros [|n]; simpl; try tauto.
  intros [H | H]; eauto.
Qed.

(** The impact list [buildImpactSummary] reads. *)
Lemma buildImpactSummary_impacts (analysisData : option AnalysisData)
      (entry : SummaryEntry) :
  In entry (buildImpactSummary analysisData) ->
  exists l, analysisData ≫= impacts = Some l
    /\ In entry
         (map (fun cs =>
                 {| entry_country := summary_country cs;
                    entry_aspects :=
                      take 2 (sort byAbsDeltaDesc (summary_aspects cs)) |})
              (sort byTotalImpactDesc (map countrySummaryOf (groupImpacts l)))).
Proof.
  unfold buildImpactSummary.
  destruct (analysisData ≫= impacts) as [[|impact l]|]; try (intros []).
  intros H. eauto.
Qed.

(** Every item of the summary is the group of its pair. *)
Lemma summary_item_group (analysisData : option AnalysisData)
      (entry : SummaryEntry) (item : SummaryItem) :
  In entry (buildImpactSummary analysisData) ->
  In item (entry_aspects entry) ->
  exists l g,
    analysisData ≫= impacts = Some l
    /\ lookupGroup (groupImpacts l) (entry_country entry) (summary_aspect item)
       = Some g
    /\ summary_delta item = group_delta g
    /\ summary_reason item = head (group_reasons g).
Proof.
  intros Hentry Hitem.
  apply buildImpactSummary_impacts in Hentry as (l & Hl & Hentry).
  apply in_map_iff in Hentry as (cs & <- & Hcs).
  apply sort_In, in_map_iff in Hcs as ([c am] & <- & Hrow).
  simpl in Hitem. apply In_take, sort_In, in_map_iff in Hitem as ([a g] & <- & Hg).
  destruct (groupImpacts_distinctKeys l) as [Hk Hrows].
  exists l, g. split; [exact Hl|]. split; [|split; reflexivity].
  unfold lookupGroup. simpl. rewrite (In_get _ _ _ Hk Hrow). simpl.
  apply In_get; eauto.
Qed.

Lemma group_first_reason (l : list Impact) (c a : string) (g : Group) :
  lookupGroup (groupImpacts l) c a = Some g ->
  head (group_reasons g) = firstNonEmptyReason l c a
  /\ group_delta g = accumulatedDelta l c a.
Proof.
  rewrite lookupGroup_groupImpacts. unfold firstNonEmptyReason, accumulatedDelta.
  destruct (List.filter (hits c a) l) as [|impact hit]; [discriminate|].
  intros H.
  assert (g = fold_left accumulate (impact :: hit) emptyGroup) as ->
      by (now injection H).
  split.
  - rewrite fold_accumulate_reason. reflexivity.
  - now rewrite fold_accumulate_delta.
Qed.

(** **** The keys of the country map *)

Lemma has_existsb {V : Type} (o : obj V) (k : string) :
  has o k = existsb (String.eqb k) (keys o).
Proof.
  unfold has. induction o as [|[k' v] o IH]; simpl; [reflexivity|].
  destruct (k =? k')%string; [reflexivity | exact IH].
Qed.

Lemma keys_set_setAdd {V : Type} (o : obj V) (k : string) (v : V) :
  keys (set o k v) = setAdd (keys o) k.
Proof. rewrite keys_set, has_existsb. reflexivity. Qed.

Lemma setAdd_present (s : list string) (x : string) : In x s -> setAdd s x = s.
Proof.
  intros Hin. unfold setAdd.
  destruct (existsb (String.eqb x) s) eqn:E; [reflexivity|].
  assert (existsb (String.eqb x) s = true) as E'
      by (apply existsb_exists; exists x; split; [exact Hin | apply String.eqb_refl]).
  congruence.
Qed.

Lemma In_setAdd (s : list string) (x y : string) :
  In y (setAdd s x) <-> In y s \/ y = x.
Proof.
  unfold setAdd. destruct (existsb (String.eqb x) s) eqn:E.
  - apply existsb_exists in E as (z & Hz & Hxz). apply String.eqb_eq in Hxz. subst z.
    split; [auto | intros [H | ->]; assumption].
  - rewrite in_app_iff. simpl. intuition.
Qed.

Lemma setAdd_idem (s : list string) (x : string) : setAdd (setAdd s x) x = setAdd s x.
Proof. apply setAdd_present, In_setAdd. now right. Qed.

Lemma In_fold_setAdd (l s : list string) (y : string) :
  In y (fold_left setAdd l s) <-> In y s \/ In y l.
Proof.
  revert s; induction l as [|x l IH]; intros s; simpl; [tauto|].
  rewrite IH, In_setAdd. intuition.
Qed.

(** A key that comes a second time changes nothing. *)
Lemma fold_setAdd_again (xs ys zs s : list string) (x : string) :
  fold_left setAdd (xs ++ x :: ys ++ x :: zs) s
  = fold_left setAdd (xs ++ x :: ys ++ zs) s.
Proof.
  rewrite !fold_left_app. simpl. rewrite !fold_left_app. simpl.
  f_equal. apply setAdd_present, In_fold_setAdd. left.
  apply In_setAdd. now right.
Qed.

Lemma addImpact_rows (m : obj (obj Group)) (impact : Impact) (c : string) :
  default [] (get (addImpact m impact) c)
  = if String.eqb (country impact) c
    then set (default [] (get m c)) (aspect impact)
             (accumulate (default emptyGroup
                            (get (default [] (get m c)) (aspect impact)))
                         impact)
    else default [] (get m c).
Proof.
  unfold addImpact.
  set (m1 := if has m (country impact) then m else set m (country impact) []).
  assert (default [] (get m1 (country impact)) = default [] (get m (country impact)))
    as Hrow.
  { unfold m1, has. destruct (get m (country impact)) eqn:E; [now rewrite E|].
    now rewrite get_set_eq. }
  assert (forall c', country impact <> c' -> get m1 c' = get m c') as Hother.
  { intros c' Hne. unfold m1. destruct (has m (country impact)); [reflexivity|].
    now apply get_set_ne. }
  rewrite Hrow.
  destruct (String.eqb_spec (country impact) c) as [<- | Hc].
  - now rewrite get_set_eq.
  - rewrite get_set_ne by assumption. now rewrite Hother.
Qed.

Lemma keys_addImpact_setAdd (m : obj (obj Group)) (impact : Impact) :
  keys (addImpact m impact) = setAdd (keys m) (country impact).
Proof.
  unfold addImpact. rewrite keys_set_setAdd.
  destruct (has m (country impact)) eqn:E.
  - reflexivity.
  - rewrite keys_set_setAdd. apply setAdd_idem.
Qed.

(** The countries of the map stand in the order of their first impact, and
    so do the aspects of each country. *)
Lemma keys_groupImpacts_fold (l : list Impact) (m : obj (obj Group)) :
  keys (fold_left addImpact l m) = fold_left setAdd (map country l) (keys m).
Proof.
  revert m; induction l as [|impact l IH]; intros m; simpl; [reflexivity|].
  now rewrite IH, keys_addImpact_setAdd.
Qed.

Lemma rows_groupImpacts_fold (l : list Impact) (m : obj (obj Group)) (c : string) :
  keys (default [] (get (fold_left addImpact l m) c))
  = fold_left setAdd
      (map aspect (List.filter (fun impact => String.eqb (country impact) c) l))
      (keys (default [] (get m c))).
Proof.
  revert m; induction l as [|impact l IH]; intros m; simpl; [reflexivity|].
  rewrite IH, addImpact_rows.
  destruct (country impact =? c)%string; simpl; [|reflexivity].
  now rewrite keys_set_setAdd.
Qed.

Lemma rows_groupImpacts_keys (l : list Impact) (c : string) (am : obj Group) :
  get (groupImpacts l) c = Some am ->
  keys am
  = fold_left setAdd
      (map aspect (List.filter (fun impact => String.eqb (country impact) c) l)) [].
Proof.
  intros Hget. pose proof (rows_groupImpacts_fold l [] c) as Hkeys.
  unfold groupImpacts in Hget. rewrite Hget in Hkeys. exact Hkeys.
Qed.

Lemma keys_groupImpacts_countries (l : list Impact) (c : string) :
  In c (keys (groupImpacts l)) <-> exists impact, In impact l /\ country impact = c.
Proof.
  unfold groupImpacts. rewrite keys_groupImpacts_fold, In_fold_setAdd, in_map_iff.
  simpl. split.
  - intros [[] | (impact & Hc & Hin)]. eauto.
  - intros (impact & Hin & Hc). right. eauto.
Qed.

Lemma rows_groupImpacts_aspects (l : list Impact) (c a : string) (am : obj Group) :
  In (c, am) (groupImpacts l) ->
  In a (keys am) <-> exists impact, In impact l /\ country impact = c
                                    /\ aspect impact = a.
Proof.
  intros Hrow. destruct (groupImpacts_distinctKeys l) as [Hk _].
  rewrite (rows_groupImpacts_keys l c am (In_get _ _ _ Hk Hrow)).
  rewrite In_fold_setAdd, in_map_iff. simpl. split.
  - intros [[] | (impact & Ha & Hin)]. apply filter_In in Hin as [Hin Hc].
    apply String.eqb_eq in Hc. eauto.
  - intros (impact & Hin & Hc & Ha). right. exists impact. split; [exact Ha|].
    apply filter_In. split; [exact Hin | now apply String.eqb_eq].
Qed.

(** Every row of the country map holds a group. *)
Lemma rows_nonempty (l : list Impact) (c : string) (am : obj Group) :
  In (c, am) (groupImpacts l) -> am <> [].
Proof.
  intros Hrow.
  assert (In c (keys (groupImpacts l))) as Hc
      by (unfold keys; change c with (fst (c, am)); now apply in_map).
  apply keys_groupImpacts_countries in Hc as (impact & Hin & Hc).
  assert (In (aspect impact) (keys am)) as Ha
      by (apply (rows_groupImpacts_aspects l c _ am Hrow); eauto).
  intros ->. exact Ha.
Qed.

(** **** Maps and sorted lists that agree entry by entry *)

Lemma assoc_Forall2 {V W : Type} (R : V -> W -> Prop) (m : obj V) (m' : obj W) :
  NoDup (keys m) ->
  keys m = keys m' ->
  (forall k v v', get m k = Some v -> get m' k = Some v' -> R v v') ->
  Forall2 (fun e e' => fst e = fst e' /\ R (snd e) (snd e')) m m'.
Proof.
  revert m'; induction m as [|[k v] m IH]; intros [|[k' v'] m'] Hnd Hk Hget;
    simpl in Hk; try discriminate; constructor.
  - injection Hk as -> Hk. split; [reflexivity|].
    apply (Hget k'); simpl; now rewrite String.eqb_refl.
  - injection Hk as -> Hk. simpl in Hnd.
    apply NoDup_cons_1_1 in Hnd as Hfresh. apply NoDup_cons_1_2 in Hnd.
    apply IH; [exact Hnd | exact Hk|].
    intros k0 v0 v0' H0 H0'.
    assert (k0 <> k') as Hne.
    { intros ->. apply Hfresh, list_elem_of_In.
      apply get_Some_In in H0. change k' with (fst (k', v0)). now apply in_map. }
    apply String.eqb_neq in Hne.
    apply (Hget k0); simpl; now rewrite Hne.
Qed.

Section Related.
Context {A B : Type}.
Variable R : A -> B -> Prop.
Variable compareFn : A -> A -> Z.
Variable compareFn' : B -> B -> Z.
Hypothesis compare_related :
  forall x x' y y', R x x' -> R y y' -> compareFn x y = compareFn' x' y'.

Lemma insert_Forall2 (x : A) (x' : B) (l : list A) (l' : list B) :
  R x x' -> Forall2 R l l' ->
  Forall2 R (insert compareFn x l) (insert compareFn' x' l').
Proof.
  intros Hx Hl. induction Hl as [|y y' l l' Hy Hl IH]; simpl.
  - repeat constructor. exact Hx.
  - rewrite <- (compare_related x x' y y' Hx Hy).
    destruct (0 <? compareFn x y); repeat constructor; assumption.
Qed.

Lemma sort_Forall2 (l : list A) (l' : list B) :
  Forall2 R l l' -> Forall2 R (sort compareFn l) (sort compareFn' l').
Proof.
  induction 1 as [|x x' l l' Hx Hl IH]; simpl; [constructor|].
  now apply insert_Forall2.
Qed.
End Related.

Lemma shownDeltas_related (G G' : obj (obj Group)) :
  Forall2 (fun row row' =>
             fst row = fst row'
             /\ Forall2 (fun e e' => fst e = fst e'
                                     /\ group_delta (snd e) = group_delta (snd e'))
                        (snd row) (snd row'))
          G G' ->
  shownDeltas
    (map (fun cs =>
            {| entry_country := summary_country cs;
               entry_aspects := take 2 (sort byAbsDeltaDesc (summary_aspects cs)) |})
         (sort byTotalImpactDesc (map countrySummaryOf G)))
  = shownDeltas
      (map (fun cs =>
              {| entry_country := summary_country cs;
                 entry_aspects := take 2 (sort byAbsDeltaDesc (summary_aspects cs)) |})
           (sort byTotalImpactDesc (map countrySummaryOf G'))).
Proof.
  intros HG.
  set (RI := fun i i' : SummaryItem =>
               summary_aspect i = summary_aspect i'
               /\ summary_delta i = summary_delta i').
  set (RS := fun cs cs' : CountrySummary =>
               summary_country cs = summary_country cs'
               /\ totalImpact cs = totalImpact cs'
               /\ Forall2 RI (summary_aspects cs) (summary_aspects cs')).
  assert (forall items items', Forall2 RI items items' ->
            forall acc,
              fold_left (fun sum item => add sum (Z.abs (summary_delta item))) items acc
              = fold_left (fun sum item => add sum (Z.abs (summary_delta item)))
                          items' acc) as Htotal.
  { induction 1 as [|i i' items items' [_ Hd] _ IH]; intros acc; simpl; [reflexivity|].
    rewrite Hd. apply IH. }
  assert (Forall2 RS (map countrySummaryOf G) (map countrySummaryOf G')) as HCS.
  { induction HG as [|[c am] [c' am'] G G' [Hc Ham] _ IH]; simpl; constructor;
      [|exact IH].
    simpl in Hc, Ham.
    assert (Forall2 RI (map summaryItem am) (map summaryItem am')) as Hitems.
    { clear - Ham. induction Ham as [|[a g] [a' g'] am am' [Ha Hd] _ IH]; simpl;
        constructor; [|exact IH]. split; assumption. }
    split; [exact Hc|]. split; [|exact Hitems].
    unfold countrySummaryOf. cbn [totalImpact snd]. now apply Htotal. }
  assert (Forall2 RS (sort byTotalImpactDesc (map countrySummaryOf G))
                     (sort byTotalImpactDesc (map countrySummaryOf G'))) as Hsorted.
  { apply sort_Forall2; [|exact HCS].
    intros x x' y y' (_ & Hx & _) (_ & Hy & _). unfold byTotalImpactDesc.
    now rewrite Hx, Hy. }
  clear HCS HG. unfold shownDeltas.
  induction Hsorted as [|cs cs' rest rest' (Hc & _ & Hitems) _ IH]; simpl;
    [reflexivity|].
  rewrite IH, Hc. do 2 f_equal.
  assert (Forall2 RI (take 2 (sort byAbsDeltaDesc (summary_aspects cs)))
                     (take 2 (sort byAbsDeltaDesc (summary_aspects cs')))) as Hshown.
  { apply Forall2_take, sort_Forall2; [|exact Hitems].
    intros x x' y y' [_ Hx] [_ Hy]. unfold byAbsDeltaDesc. now rewrite Hx, Hy. }
  clear - Hshown.
  induction Hshown as [|i i' items items' [Ha Hd] _ IH]; simpl; [reflexivity|].
  now rewrite IH, Ha, Hd.
Qed.

(** The summary, whatever the reply. *)
Lemma buildImpactSummary_groups (analysisData : option AnalysisData) :
  buildImpactSummary analysisData
  = map (fun cs =>
           {| entry_country := summary_country cs;
              entry_aspects := take 2 (sort byAbsDeltaDesc (summary_aspects cs)) |})
        (sort byTotalImpactDesc
              (map countrySummaryOf
                   (groupImpacts (default [] (analysisData ≫= impacts))))).
Proof.
  unfold buildImpactSummary.
  destruct (analysisData ≫= impacts) as [[|impact l]|]; reflexivity.
Qed.

Lemma twice_Permutation {A : Type} (pre mid post : list A) (x y : A) :
  Permutation (pre ++ x :: mid ++ y :: post) (x :: y :: pre ++ mid ++ post).
Proof.
  rewrite <- Permutation_middle. constructor.
  rewrite !app_assoc. now rewrite <- Permutation_middle.
Qed.

Lemma once_Permutation {A : Type} (pre rest : list A) (x : A) :
  Permutation (pre ++ x :: rest) (x :: pre ++ rest).
Proof. now rewrite <- Permutation_middle. Qed.

(** Two impacts of one pair, and in place of the first of them the one
    impact with the sum of their deltas: the groups are the same, reasons
    apart, country by country and aspect by aspect. *)
Lemma merged_groups (pre mid post : list Impact) (first second merged : Impact) :
  country second = country first ->
  aspect second = aspect first ->
  country merged = country first ->
  aspect merged = aspect first ->
  delta merged = Some (orZero (delta first) + orZero (delta second)) ->
  exactSums (pre ++ first :: mid ++ second :: post) ->
  Forall2 (fun row row' =>
             fst row = fst row'
             /\ Forall2 (fun e e' => fst e = fst e'
                                     /\ group_delta (snd e) = group_delta (snd e'))
                        (snd row) (snd row'))
          (groupImpacts (pre ++ merged :: mid ++ post))
          (groupImpacts (pre ++ first :: mid ++ second :: post)).
Proof.
  intros Hc2 Ha2 Hcm Ham Hd He.
  set (l := pre ++ first :: mid ++ second :: post) in *.
  set (l' := pre ++ merged :: mid ++ post).
  pose proof (merged_aggregatedDelta l l' (pre ++ mid ++ post) first second merged
                Hc2 Ha2 Hcm Ham Hd (twice_Permutation pre mid post first second)
                (once_Permutation pre (mid ++ post) merged) He) as Hdelta.
  destruct (groupImpacts_distinctKeys l') as [Hk' Hrows'].
  destruct (groupImpacts_distinctKeys l) as [Hk _].
  apply assoc_Forall2; [exact Hk' | |].
  - unfold groupImpacts, l, l'. rewrite !keys_groupImpacts_fold.
    rewrite !map_app. simpl. rewrite !map_app. simpl.
    rewrite Hc2, Hcm. symmetry. apply fold_setAdd_again.
  - intros c am' am Hget' Hget.
    apply get_Some_In in Hget' as Hrow'. apply get_Some_In in Hget as Hrow.
    apply (assoc_Forall2 (fun g g' : Group => group_delta g = group_delta g'));
      [eauto | |].
    + rewrite (rows_groupImpacts_keys l' c am' Hget'),
              (rows_groupImpacts_keys l c am Hget). unfold l, l'.
      rewrite !List.filter_app. simpl. rewrite !List.filter_app. simpl.
      rewrite Hc2, Hcm.
      destruct (country first =? c)%string; [|reflexivity].
      rewrite !map_app. simpl. rewrite !map_app. simpl.
      rewrite Ha2, Ham. symmetry. apply fold_setAdd_again.
    + intros a g' g Hg' Hg.
      specialize (Hdelta c a). unfold aggregatedDelta, lookupGroup in Hdelta.
      unfold obj in *. rewrite Hget, Hget' in Hdelta. simpl in Hdelta.
      rewrite Hg, Hg' in Hdelta. simpl in Hdelta. now injection Hdelta.
Qed.

(** The summary has an entry for the country of every impact: nothing
    is checked against the enumerations. *)
Lemma summary_lists_every_country (data : AnalysisData) (l : list Impact)
      (impact : Impact) :
  impacts data = Some l ->
  In impact l ->
  In (country impact) (map entry_country (buildImpactSummary (Some data))).
Proof.
  intros Hl Hin. unfold buildImpactSummary. simpl. rewrite Hl.
  destruct l as [|first l]; [destruct Hin|].
  set (all := first :: l) in *.
  destruct (lookupGroup (groupImpacts all) (country impact) (aspect impact))
    as [g|] eqn:Hg.
  - unfold lookupGroup in Hg.
    destruct (get (groupImpacts all) (country impact)) as [am|] eqn:Hrow;
      [|discriminate].
    apply get_Some_In in Hrow. rewrite map_map. simpl.
    apply in_map_iff. exists (countrySummaryOf (country impact, am)).
    split; [reflexivity|]. apply sort_In, in_map. exact Hrow.
  - rewrite lookupGroup_groupImpacts in Hg.
    assert (In impact (List.filter (hits (country impact) (aspect impact)) all)) as Hf.
    { apply filter_In. split; [exact Hin|]. unfold hits.
      now rewrite !String.eqb_refl. }
    destruct (List.filter _ all); [destruct Hf | discriminate].
Qed.

(** **** What the summary is bound to show *)

Lemma exactSums_bound (l : list Impact) :
  foldr Z.add 0 (map (fun impact => Z.abs (orZero (delta impact))) l) <= 2 ^ 53 ->
  exactSums l.
Proof.
  intros Hb c a. unfold magnitude.
  assert (foldr Z.add 0 (map (fun impact => Z.abs (orZero (delta impact)))
                            (List.filter (hits c a) l))
          <= foldr Z.add 0 (map (fun impact => Z.abs (orZero (delta impact))) l))
    as Hle; [|lia].
  clear Hb. induction l as [|impact l IH]; simpl; [lia|].
  destruct (hits c a impact); simpl; lia.
Qed.

Lemma hit_group (l : list Impact) (impact : Impact) :
  In impact l ->
  exists g, lookupGroup (groupImpacts l) (country impact) (aspect impact) = Some g.
Proof.
  intros Hin. rewrite lookupGroup_groupImpacts.
  assert (In impact (List.filter (hits (country impact) (aspect impact)) l)) as Hf.
  { apply filter_In. split; [exact Hin|]. unfold hits. now rewrite !String.eqb_refl. }
  destruct (List.filter _ l); [destruct Hf | eauto].
Qed.

Lemma NoDup_of_two (l : list string) (a a' : string) :
  NoDup l -> (forall x, In x l -> x = a \/ x = a') -> (length l <= 2)%nat.
Proof.
  intros Hnd Hin. destruct l as [|x [|y [|z l]]]; simpl; try lia. exfalso.
  apply NoDup_cons_1_1 in Hnd as Hx. apply NoDup_cons_1_2 in Hnd.
  apply NoDup_cons_1_1 in Hnd as Hy.
  assert (x <> y) as Hxy by (intros ->; apply Hx; left).
  assert (x <> z) as Hxz by (intros ->; apply Hx; right; left).
  assert (y <> z) as Hyz by (intros ->; apply Hy; left).
  destruct (Hin x) as [-> | ->]; [simpl; tauto | |];
    (destruct (Hin y) as [-> | ->]; [simpl; tauto | |]);
    (destruct (Hin z) as [-> | ->]; [simpl; tauto | |]); congruence.
Qed.

(** The entry of the country of an impact: it is there, it shows an
    aspect, and it shows the aspect of the impact when the impacts of the
    country name two aspects at most. *)
Lemma summary_entry_of (data : AnalysisData) (l : list Impact) (impact : Impact) :
  impacts data = Some l ->
  In impact l ->
  exists entry am g,
    In entry (buildImpactSummary (Some data))
    /\ entry_country entry = country impact
    /\ entry_aspects entry <> []
    /\ In (country impact, am) (groupImpacts l)
    /\ get am (aspect impact) = Some g
    /\ entry_aspects entry = take 2 (sort byAbsDeltaDesc (map summaryItem am))
    /\ (forall other,
          (forall i, In i l -> country i = country impact ->
                     aspect i = aspect impact \/ aspect i = other) ->
          In (summaryItem (aspect impact, g)) (entry_aspects entry)).
Proof.
  intros Hl Hin. destruct (groupImpacts_distinctKeys l) as [Hk Hrows].
  destruct (hit_group l impact Hin) as (g & Hg). unfold lookupGroup in Hg.
  destruct (get (groupImpacts l) (country impact)) as [am|] eqn:Hget; [|discriminate].
  simpl in Hg. apply get_Some_In in Hget as Hrow.
  exists {| entry_country := country impact;
            entry_aspects := take 2 (sort byAbsDeltaDesc (map summaryItem am)) |},
         am, g.
  assert (entry_aspects
            {| entry_country := country impact;
               entry_aspects := take 2 (sort byAbsDeltaDesc (map summaryItem am)) |}
          = take 2 (sort byAbsDeltaDesc (map summaryItem am))) as Hshown by reflexivity.
  split; [|split; [reflexivity|split; [|split; [exact Hrow|split; [exact Hg|split;
    [reflexivity|]]]]]].
  - rewrite buildImpactSummary_groups. simpl. rewrite Hl. simpl.
    apply in_map_iff. exists (countrySummaryOf (country impact, am)).
    split; [reflexivity|]. apply sort_In, in_map. exact Hrow.
  - rewrite Hshown. intros Hnil. apply (f_equal (@length _)) in Hnil.
    rewrite length_take, sort_length, length_map in Hnil.
    pose proof (rows_nonempty l _ am Hrow) as Hne.
    destruct am; [congruence | simpl in Hnil; lia].
  - intros other Hfew. rewrite Hshown.
    assert (length (keys am) <= 2)%nat as Hlen.
    { apply (NoDup_of_two _ (aspect impact) other); [eauto|].
      intros x Hx. apply (rows_groupImpacts_aspects l _ x am Hrow) in Hx
        as (i & Hi & Hc & <-). now apply Hfew. }
    unfold keys in Hlen. rewrite length_map in Hlen.
    rewrite take_ge by (rewrite sort_length, length_map; lia).
    apply sort_In, in_map. now apply get_Some_In.
Qed.

(** C4 as stated fails: the deltas are added as doubles, so that of three
    impacts on one pair with the deltas 2^53, 1 and 1 the group holds
    2^53, and 2^53 + 2 once the last two are replaced by one impact that
    carries their sum. *)
Lemma huge_deltas_are_not_summed :
  delta doubleShock = Some (orZero (delta unitShock) + orZero (delta unitShock))
  /\ aggregatedDelta [hugeShock; unitShock; unitShock] "Japan" "Energy Security"
     = Some 9007199254740992
  /\ aggregatedDelta [hugeShock; doubleShock] "Japan" "Energy Security"
     = Some 9007199254740994
  /\ summedDelta [hugeShock; unitShock; unitShock] "Japan" "Energy Security"
     = 9007199254740994
  /\ shownDeltas (buildImpactSummary
                    (Some (analysisOf [hugeShock; unitShock; unitShock])))
     <> shownDeltas (buildImpactSummary (Some (analysisOf [hugeShock; doubleShock]))).
Proof.
  split; [reflexivity|]. split; [vm_compute; reflexivity|].
  split; [vm_compute; reflexivity|]. split; [vm_compute; reflexivity|].
  vm_compute. discriminate.
Qed.

(** C4, as the code has it: where the deltas are integers whose
    magnitudes add up to 2^53 at most for every (country, aspect) pair,
    the group of a pair holds the sum of the deltas of the impacts that
    hit it, the summary has an entry for the country of every impact, and
    every item it shows carries the sum of its pair.  Two impacts of one
    pair may then be replaced by one impact for the pair with the sum of
    their deltas: wherever it stands the aggregated delta of every pair
    is unchanged, and when it stands in the place of the first of the two
    the summary shows the same countries and aspects with the same
    deltas in the same order. *)
Theorem same_pair_deltas_are_summed (data : AnalysisData) (l : list Impact) :
  impacts data = Some l ->
  exactSums l ->
  (forall impact,
      In impact l ->
      aggregatedDelta l (country impact) (aspect impact)
      = Some (summedDelta l (country impact) (aspect impact))
      /\ exists entry,
          In entry (buildImpactSummary (Some data))
          /\ entry_country entry = country impact
          /\ entry_aspects entry <> [])
  /\ (forall entry item,
        In entry (buildImpactSummary (Some data)) ->
        In item (entry_aspects entry) ->
        summary_delta item
        = summedDelta l (entry_country entry) (summary_aspect item))
  /\ (forall (l' others : list Impact) (first second merged : Impact),
        country second = country first ->
        aspect second = aspect first ->
        country merged = country first ->
        aspect merged = aspect first ->
        delta merged = Some (orZero (delta first) + orZero (delta second)) ->
        Permutation l (first :: second :: others) ->
        Permutation l' (merged :: others) ->
        forall c a, aggregatedDelta l' c a = aggregatedDelta l c a)
  /\ (forall (pre mid post : list Impact) (first second merged : Impact),
        l = pre ++ first :: mid ++ second :: post ->
        country second = country first ->
        aspect second = aspect first ->
        country merged = country first ->
        aspect merged = aspect first ->
        delta merged = Some (orZero (delta first) + orZero (delta second)) ->
        shownDeltas
          (buildImpactSummary
             (Some (withImpacts data (Some (pre ++ merged :: mid ++ post)))))
        = shownDeltas (buildImpactSummary (Some data))).
Proof.
  intros Hl He. split; [|split; [|split]].
  - intros impact Hin. split.
    + rewrite (aggregatedDelta_exact l _ _ (He _ _)).
      assert (In impact (List.filter (hits (country impact) (aspect impact)) l)) as Hf.
      { apply filter_In. split; [exact Hin|]. unfold hits.
        now rewrite !String.eqb_refl. }
      destruct (List.filter _ l); [destruct Hf | reflexivity].
    + destruct (summary_entry_of data l impact Hl Hin)
        as (entry & am & g & H1 & H2 & H3 & _). eauto.
  - intros entry item Hentry Hitem.
    destruct (summary_item_group _ _ _ Hentry Hitem) as (l0 & g & Hl0 & Hg & -> & _).
    simpl in Hl0. rewrite Hl in Hl0. injection Hl0 as <-.
    apply group_first_reason in Hg as [_ ->].
    apply accumulatedDelta_exact, He.
  - intros l' others first second merged Hc2 Ha2 Hcm Ham Hd Hp Hp' c a. symmetry.
    now apply (merged_aggregatedDelta l l' others first second merged).
  - intros pre mid post first second merged -> Hc2 Ha2 Hcm Ham Hd.
    rewrite !buildImpactSummary_groups. simpl. rewrite Hl. simpl.
    apply shownDeltas_related. now apply merged_groups.
Qed.

Lemma same_pair_deltas_are_summed_witness :
  exactSums [energyShock; tradeShock; energyRelief]
  /\ aggregatedDelta [energyShock; tradeShock; energyRelief] "Japan" "Energy Security"
     = Some (-7)
  /\ shownDeltas (buildImpactSummary (Some (analysisOf [energyNet; tradeShock])))
     = shownDeltas (buildImpactSummary
                      (Some (analysisOf [energyShock; tradeShock; energyRelief]))).
Proof.
  assert (exactSums [energyShock; tradeShock; energyRelief]) as He
      by (apply exactSums_bound; vm_compute; discriminate).
  split; [exact He|].
  destruct (same_pair_deltas_are_summed
              (analysisOf [energyShock; tradeShock; energyRelief])
              [energyShock; tradeShock; energyRelief] eq_refl He)
    as (Hsum & _ & _ & Hshown).
  split.
  - exact (proj1 (Hsum energyShock (or_introl eq_refl))).
  - exact (Hshown [] [tradeShock] [] energyShock energyRelief energyNet
             eq_refl eq_refl eq_refl eq_refl eq_refl eq_refl).
Defined.

Example japan_energy_delta :
  aggregatedDelta [energyShock; tradeShock; energyRelief] "Japan" "Energy Security"
  = Some (-7)
  /\ aggregatedDelta [energyShock; tradeShock; energyRelief] "Japan" "Cyber" = None.
Proof. split; reflexivity. Qed.

(** C7: every impact has its (country, aspect) pair merged into a group
    of the country map, and the reason of the group is the first non-empty
    reason among the impacts that hit the pair, in the order of the list
    (none when every such reason is absent or empty).  The summary has an
    entry for the country of the impact that shows an aspect; every item
    the summary shows carries the reason of its group; and the pair of
    the impact is itself shown, with that reason, when the impacts of its
    country name two aspects at most. *)
Theorem summary_reason_is_first_non_empty (data : AnalysisData) (l : list Impact)
        (impact : Impact) :
  impacts data = Some l ->
  In impact l ->
  (exists g,
      lookupGroup (groupImpacts l) (country impact) (aspect impact) = Some g
      /\ head (group_reasons g)
         = firstNonEmptyReason l (country impact) (aspect impact))
  /\ (exists entry,
        In entry (buildImpactSummary (Some data))
        /\ entry_country entry = country impact
        /\ entry_aspects entry <> []
        /\ forall other,
            (forall i, In i l -> country i = country impact ->
                       aspect i = aspect impact \/ aspect i = other) ->
            exists item,
              In item (entry_aspects entry)
              /\ summary_aspect item = aspect impact
              /\ summary_reason item
                 = firstNonEmptyReason l (country impact) (aspect impact))
  /\ (forall entry item,
        In entry (buildImpactSummary (Some data)) ->
        In item (entry_aspects entry) ->
        summary_reason item
        = firstNonEmptyReason l (entry_country entry) (summary_aspect item)).
Proof.
  intros Hl Hin. destruct (groupImpacts_distinctKeys l) as [Hk _].
  destruct (summary_entry_of data l impact Hl Hin)
    as (entry & am & g & Hentry & Hc & Hne & Hrow & Hg & _ & Hfew).
  assert (lookupGroup (groupImpacts l) (country impact) (aspect impact) = Some g)
    as Hgroup.
  { unfold lookupGroup. rewrite (In_get _ _ _ Hk Hrow). exact Hg. }
  split; [|split].
  - exists g. split; [exact Hgroup | now apply group_first_reason].
  - exists entry. split; [exact Hentry|]. split; [exact Hc|]. split; [exact Hne|].
    intros other Hother. exists (summaryItem (aspect impact, g)).
    split; [now apply (Hfew other)|]. split; [reflexivity|].
    now apply group_first_reason.
  - intros e item He Hitem.
    destruct (summary_item_group _ _ _ He Hitem) as (l0 & g0 & Hl0 & Hg0 & _ & ->).
    simpl in Hl0. rewrite Hl in Hl0. injection Hl0 as <-.
    now apply group_first_reason.
Qed.

Lemma summary_reason_is_first_non_empty_witness :
  exists entry item,
    In entry (buildImpactSummary
                (Some (analysisOf [silentShock; energyShock; tradeShock; energyRelief])))
    /\ In item (entry_aspects entry)
    /\ entry_country entry = "Japan"
    /\ summary_aspect item = "Energy Security"
    /\ summary_reason item = Some "LNG cargoes are delayed.".
Proof.
  destruct (summary_reason_is_first_non_empty
              (analysisOf [silentShock; energyShock; tradeShock; energyRelief])
              [silentShock; energyShock; tradeShock; energyRelief] energyRelief
              eq_refl ltac:(simpl; tauto))
    as (_ & (entry & Hentry & Hc & _ & Hshown) & _).
  destruct (Hshown "Energy Security") as (item & Hitem & Ha & Hr).
  { intros i [<- | [<- | [<- | [<- | []]]]]; now left. }
  exists entry, item. repeat split; assumption.
Defined.

End SummaryFacts.

(** *** The impact details of the Chatbot *)

Module ReferenceFacts.
Import Js Api Chatbot Readings ObjectFacts SummaryFacts Samples.

Section Details.
Variable localeCompare : string -> string -> Z.

(** The entries before they are sorted. *)
Lemma buildImpactDetails_entries (data : AnalysisData) (entry : DetailEntry) :
  In entry (buildImpactDetails localeCompare (Some data)) ->
  exists scores country aspects,
    aspect_scores data = Some scores
    /\ In (country, aspects) scores
    /\ entry =
       {| detail_country := country;
          detail_aspects :=
            map (fun aspect =>
                   {| detail_aspect := aspect;
                      detail_delta := deltaOf data country aspect;
                      detail_score := get aspects aspect;
                      detail_reason := Some (reasonOf data country aspect) |})
                aspectOrder |}.
Proof.
  unfold buildImpactDetails.
  destruct (aspect_scores data) as [scores|]; [|intros []].
  intros H. apply sort_In, in_map_iff in H as ([country aspects] & <- & Hin).
  exists scores, country, aspects. auto.
Qed.

Lemma buildImpactDetails_aspects (analysisData : option AnalysisData)
      (entry : DetailEntry) :
  In entry (buildImpactDetails localeCompare analysisData) ->
  map detail_aspect (detail_aspects entry) = aspectOrder.
Proof.
  destruct analysisData as [data|]; [|intros []].
  intros H. apply buildImpactDetails_entries in H as (s & c & row & _ & _ & ->).
  reflexivity.
Qed.

Lemma buildImpactDetails_ignores_impacts (data : AnalysisData)
      (l : option (list Impact)) :
  buildImpactDetails localeCompare (Some (withImpacts data l))
  = buildImpactDetails localeCompare (Some data).
Proof. reflexivity. Qed.

Lemma buildImpactDetails_known_aspects_only (data data' : AnalysisData) :
  aspect_scores data = aspect_scores data' ->
  (forall c a, In a aspectOrder ->
               deltaOf data c a = deltaOf data' c a
               /\ reasonOf data c a = reasonOf data' c a) ->
  buildImpactDetails localeCompare (Some data)
  = buildImpactDetails localeCompare (Some data').
Proof.
  intros Hs Hknown. unfold buildImpactDetails. rewrite <- Hs.
  destruct (aspect_scores data) as [scores|]; [|reflexivity].
  f_equal. apply map_ext. intros [country aspects]. f_equal.
  apply map_ext_in. intros a Ha. destruct (Hknown country a Ha) as [Hd Hr].
  unfold deltaOf, reasonOf in Hd, Hr. now rewrite Hd, Hr.
Qed.
End Details.

(** [buildImpactSummary], which no line of the render calls, checks no
    impact against the enumerations: it would list the country of an
    impact that belongs to none. *)
Example summary_keeps_every_country :
  map entry_country
      (buildImpactSummary (Some (analysisOf [tradeShock; atlantisImpact])))
  = ["USA"; "Atlantis"].
Proof. reflexivity. Qed.

Example details_of_plainReply :
  buildImpactDetails codeUnitCompare (Some plainReply)
  = [ {| detail_country := "Japan";
         detail_aspects :=
           map (fun a =>
                  {| detail_aspect := a;
                     detail_delta := if String.eqb a "Energy Security" then -12 else 0;
                     detail_score :=
                       if String.eqb a "Economic Stability" then Some 75
                       else if String.eqb a "Energy Security" then Some 78
                       else None;
                     detail_reason :=
                       Some (if String.eqb a "Energy Security"
                             then "LNG cargoes are delayed." else "") |})
               aspectOrder |};
      {| detail_country := "USA";
         detail_aspects :=
           map (fun a =>
                  {| detail_aspect := a;
                     detail_delta := 0;
                     detail_score :=
                       if String.eqb a "Economic Stability" then Some 70
                       else if String.eqb a "Energy Security" then Some 64
                       else None;
                     detail_reason := Some "" |})
               aspectOrder |} ].
Proof. reflexivity. Qed.

End ReferenceFacts.

(** *** The ranking of the Dashboard *)

Module RankingFacts.
Import Js Api DashboardPage Readings ObjectFacts Samples.

Lemma sortedCountries_sort (analysisData : option AnalysisData) :
  sortedCountries analysisData
  = map fst (sort byScoreDesc (countryScores analysisData)).
Proof.
  unfold sortedCountries, hasData, keys.
  destruct (countryScores analysisData); reflexivity.
Qed.

Lemma byScoreDesc_antisym (x y : string * Z) :
  0 < byScoreDesc x y -> byScoreDesc y x < 0.
Proof. unfold byScoreDesc. lia. Qed.

Lemma byScoreDesc_trans (x y z : string * Z) :
  byScoreDesc x y <= 0 -> byScoreDesc y z <= 0 -> byScoreDesc x z <= 0.
Proof. unfold byScoreDesc. lia. Qed.

(** **** Places in an enumeration *)

Lemma position_head (x : string) (enum : list string) : position (x :: enum) x = 0%nat.
Proof. simpl. now rewrite String.eqb_refl. Qed.

Lemma position_tail (x c : string) (enum : list string) :
  c <> x -> position (x :: enum) c = S (position enum c).
Proof. intros Hne. simpl. apply String.eqb_neq in Hne. now rewrite Hne. Qed.

(** An object lists its own keys in order. *)
Lemma listedInOrder_self (l : list string) : NoDup l -> listedInOrder l l.
Proof.
  unfold listedInOrder. induction 1 as [|x l Hx Hl IH]; constructor.
  - apply (StronglySorted_map_In id
             (fun a b => (position l a < position l b)%nat)
             (fun a b => (position (x :: l) a < position (x :: l) b)%nat) l) in IH;
      [now rewrite map_id in IH|].
    intros a b Ha Hb Hab. unfold id.
    rewrite !position_tail; [lia | |]; intros ->; apply Hx; now apply list_elem_of_In.
  - apply Forall_forall. intros b Hb. rewrite position_head.
    rewrite position_tail; [lia|]. intros ->. exact (Hx Hb).
Qed.

Lemma listedInOrder_NoDup (enum l : list string) : listedInOrder enum l -> NoDup l.
Proof.
  unfold listedInOrder. induction 1 as [|x l _ IH Hx]; constructor; [|exact IH].
  intros Hin. rewrite Forall_forall in Hx. specialize (Hx x Hin). lia.
Qed.

(** **** The rank map *)

Lemma reduce_get_other (l : list (string * Z)) (n : nat) (acc : obj Z) (c : string) :
  ~ In c (map fst l) ->
  get (reduce (fun acc entry index => set acc (fst entry) (Z.of_nat index + 1))
              l n acc) c
  = get acc c.
Proof.
  revert n acc; induction l as [|e l IH]; intros n acc Hc; simpl; [reflexivity|].
  simpl in Hc. rewrite IH by tauto. apply get_set_ne. tauto.
Qed.

Lemma reduce_get_rank (l : list (string * Z)) (n i : nat) (acc : obj Z) (c : string) :
  NoDup (map fst l) ->
  nth_error (map fst l) i = Some c ->
  get (reduce (fun acc entry index => set acc (fst entry) (Z.of_nat index + 1))
              l n acc) c
  = Some (Z.of_nat (n + i) + 1).
Proof.
  revert n i acc; induction l as [|e l IH]; intros n i acc Hnd Hi.
  - destruct i; discriminate Hi.
  - simpl in Hnd. apply NoDup_cons_1_1 in Hnd as He. apply NoDup_cons_1_2 in Hnd.
    destruct i as [|i]; simpl in Hi |- *.
    + injection Hi as <-. rewrite reduce_get_other.
      * rewrite get_set_eq. do 2 f_equal. lia.
      * intros Hin. apply He. now apply list_elem_of_In.
    + rewrite (IH (S n) i) by assumption. do 2 f_equal. lia.
Qed.

(** **** The order of the ranking *)

Lemma scoreOf_entry (scores : obj Z) (e : string * Z) :
  NoDup (keys scores) -> In e scores -> scoreOf scores (fst e) = snd e.
Proof.
  intros Hnd Hin. destruct e as [c v]. unfold scoreOf. cbn [fst snd].
  now rewrite (In_get scores c v Hnd Hin).
Qed.

Lemma sortedCountries_ranked (enum : list string) (analysisData : option AnalysisData) :
  listedInOrder enum (keys (countryScores analysisData)) ->
  StronglySorted (ranksBefore (countryScores analysisData) enum)
                 (sortedCountries analysisData).
Proof.
  intros Hord. pose proof (listedInOrder_NoDup _ _ Hord) as Hnd.
  rewrite sortedCountries_sort. set (scores := countryScores analysisData) in *.
  apply (StronglySorted_map_In fst
           (precedes byScoreDesc
              (fun a b => (position enum (fst a) < position enum (fst b))%nat))).
  - intros a b Ha Hb. apply sort_In in Ha, Hb.
    unfold precedes, ranksBefore, byScoreDesc.
    rewrite (scoreOf_entry scores a Hnd Ha), (scoreOf_entry scores b Hnd Hb).
    intros [H | [H Hpos]]; [left; lia | right; split; [lia | exact Hpos]].
  - apply sort_StronglySorted.
    + apply byScoreDesc_antisym.
    + apply byScoreDesc_trans.
    + unfold listedInOrder, keys in Hord. clear Hnd.
      induction scores as [|e scores IH]; [constructor|].
      simpl in Hord. apply StronglySorted_inv in Hord as [Hs Hf].
      constructor; [now apply IH|].
      rewrite Forall_map in Hf. exact Hf.
Qed.

Lemma ranksBefore_asym (scores : obj Z) (enum : list string) (a b : string) :
  ranksBefore scores enum a b -> ranksBefore scores enum b a -> False.
Proof. unfold ranksBefore. lia. Qed.

(** Two arrangements of the same elements in a strict order coincide. *)
Lemma StronglySorted_unique {A : Type} (R : A -> A -> Prop) (l1 l2 : list A) :
  (forall a b, R a b -> R b a -> False) ->
  Permutation l1 l2 -> StronglySorted R l1 -> StronglySorted R l2 -> l1 = l2.
Proof.
  intros Hasym. revert l2. induction l1 as [|x l1 IH]; intros l2 Hp H1 H2.
  - now apply Permutation_nil in Hp.
  - destruct l2 as [|y l2]; [symmetry in Hp; now apply Permutation_nil_cons in Hp|].
    apply StronglySorted_inv in H1 as [H1 Hx], H2 as [H2 Hy].
    rewrite Forall_forall in Hx, Hy.
    assert (x = y) as <-.
    { assert (In x (y :: l2)) as [Hxy | Hxy]
          by (apply (Permutation_in _ Hp); now left); [now subst|].
      assert (In y (x :: l1)) as [Hyx | Hyx]
          by (apply (Permutation_in _ (Permutation_sym Hp)); now left); [now subst|].
      exfalso. apply (Hasym x y); [apply Hx | apply Hy]; now apply list_elem_of_In. }
    f_equal. apply IH; [now apply Permutation_cons_inv in Hp | assumption..].
Qed.

Lemma sortedCountries_Permutation (analysisData : option AnalysisData) :
  Permutation (sortedCountries analysisData) (keys (countryScores analysisData)).
Proof.
  rewrite sortedCountries_sort. unfold keys.
  apply Permutation_map, sort_Permutation.
Qed.

Lemma buildRankMap_rank (scores : obj Z) (i : nat) (c : string) :
  NoDup (keys scores) ->
  nth_error (map fst (sort byScoreDesc scores)) i = Some c ->
  get (buildRankMap scores) c = Some (Z.of_nat i + 1).
Proof.
  intros Hnd Hi. unfold buildRankMap.
  rewrite (reduce_get_rank _ 0 i [] c); [reflexivity | | exact Hi].
  unfold keys in Hnd.
  now rewrite (Permutation_map fst (sort_Permutation byScoreDesc scores)).
Qed.

(** C3 as stated fails: no fixed enumeration of the countries breaks the
    ties.  Two replies with the same score for USA and for India rank the
    two in the order in which each reply lists them. *)
Lemma ties_follow_the_reply :
  sortedCountries (Some (scoresOnly usaFirst)) = ["USA"; "India"]
  /\ sortedCountries (Some (scoresOnly indiaFirst)) = ["India"; "USA"]
  /\ ~ exists enum : list string,
        forall analysisData,
          StronglySorted (ranksBefore (countryScores analysisData) enum)
                         (sortedCountries analysisData).
Proof.
  split; [reflexivity|]. split; [reflexivity|].
  intros [enum H].
  pose proof (H (Some (scoresOnly usaFirst))) as H1.
  pose proof (H (Some (scoresOnly indiaFirst))) as H2.
  change (sortedCountries (Some (scoresOnly usaFirst))) with ["USA"; "India"] in H1.
  change (sortedCountries (Some (scoresOnly indiaFirst))) with ["India"; "USA"] in H2.
  apply StronglySorted_inv in H1 as [_ H1]. apply StronglySorted_inv in H2 as [_ H2].
  apply Forall_cons_1 in H1 as [H1 _]. apply Forall_cons_1 in H2 as [H2 _].
  unfold ranksBefore in H1, H2.
  change (scoreOf (countryScores (Some (scoresOnly usaFirst))) "USA") with 62 in H1.
  change (scoreOf (countryScores (Some (scoresOnly usaFirst))) "India") with 62 in H1.
  change (scoreOf (countryScores (Some (scoresOnly indiaFirst))) "USA") with 62 in H2.
  change (scoreOf (countryScores (Some (scoresOnly indiaFirst))) "India") with 62 in H2.
  lia.
Qed.

(** C3, as the code has it: the ranking lists the countries of
    [country_scores] in descending order of score, and countries with
    equal scores in the order in which [country_scores] lists them; where
    the reply lists its countries in the order of an enumeration, that is
    the order of the enumeration.  The ranking is the only arrangement in
    that order, so the same [country_scores] always give the same
    ranking, and [buildRankMap] numbers the countries by it from 1. *)
Theorem country_ranking (analysisData : option AnalysisData) :
  NoDup (keys (countryScores analysisData)) ->
  Permutation (sortedCountries analysisData) (keys (countryScores analysisData))
  /\ StronglySorted (ranksBefore (countryScores analysisData)
                                 (keys (countryScores analysisData)))
                    (sortedCountries analysisData)
  /\ (forall enum,
        listedInOrder enum (keys (countryScores analysisData)) ->
        StronglySorted (ranksBefore (countryScores analysisData) enum)
                       (sortedCountries analysisData))
  /\ (forall ranking,
        Permutation ranking (keys (countryScores analysisData)) ->
        StronglySorted (ranksBefore (countryScores analysisData)
                                    (keys (countryScores analysisData))) ranking ->
        ranking = sortedCountries analysisData)
  /\ (forall i c,
        nth_error (sortedCountries analysisData) i = Some c ->
        get (buildRankMap (countryScores analysisData)) c = Some (Z.of_nat i + 1)).
Proof.
  intros Hnd.
  pose proof (sortedCountries_ranked _ analysisData (listedInOrder_self _ Hnd))
    as Hsorted.
  pose proof (sortedCountries_Permutation analysisData) as Hperm.
  split; [exact Hperm|]. split; [exact Hsorted|]. split; [|split].
  - intros enum Hord. now apply sortedCountries_ranked.
  - intros ranking Hp Hs.
    apply (StronglySorted_unique
             (ranksBefore (countryScores analysisData)
                          (keys (countryScores analysisData))));
      [apply ranksBefore_asym | | assumption..].
    now rewrite Hp, Hperm.
  - intros i c Hi. rewrite sortedCountries_sort in Hi.
    now apply buildRankMap_rank.
Qed.

Lemma country_ranking_witness :
  NoDup (keys (countryScores (Some (scoresOnly tiedScores))))
  /\ StronglySorted (ranksBefore tiedScores (keys tiedScores))
                    (sortedCountries (Some (scoresOnly tiedScores)))
  /\ sortedCountries (Some (scoresOnly tiedScores))
     = ["Japan"; "Germany"; "USA"; "India"; "Brazil"].
Proof.
  assert (NoDup (keys (countryScores (Some (scoresOnly tiedScores))))) as Hnd
      by (apply (bool_decide_unpack _); vm_compute; exact I).
  split; [exact Hnd|]. split; [|reflexivity].
  exact (proj1 (proj2 (country_ranking (Some (scoresOnly tiedScores)) Hnd))).
Defined.

Example rank_map_of_tiedScores :
  buildRankMap tiedScores
  = [("Japan", 1); ("Germany", 2); ("USA", 3); ("India", 4); ("Brazil", 5)]
  /\ sortedCountries None = []
  /\ sortedCountries (Some (scoresOnly [])) = [].
Proof. repeat split; reflexivity. Qed.

End RankingFacts.

(** *** The score aggregator *)

Module AggregatorFacts.
Import Js Aggregator ObjectFacts Samples.

Lemma clamp_range (x : Z) : 0 <= clamp x 0 100 <= 100.
Proof. unfold clamp. lia. Qed.

Lemma clamp_id (x : Z) : 0 <= x <= 100 -> clamp x 0 100 = x.
Proof. unfold clamp. lia. Qed.

Section Aggregate.
Variable countries : list string.
Variable policy : InvalidPolicy.

Lemma table_In {V : Type} (cell : string -> string -> V) (c : string)
      (row : obj V) (a : string) (v : V) :
  In (c, row) (table countries cell) -> In (a, v) row ->
  In c countries /\ In a aspects /\ v = cell c a.
Proof.
  unfold table. intros Hrow Hcell.
  apply in_map_iff in Hrow as (c' & Heq & Hc).
  apply pair_equal_spec in Heq as [<- <-].
  apply in_map_iff in Hcell as (a' & Heq & Ha).
  apply pair_equal_spec in Heq as [<- <-]. auto.
Qed.

Lemma totals_In (scores : obj (obj Z)) (c : string) (v : Z) :
  In (c, v) (totals scores) -> exists row, v = country_total row.
Proof.
  unfold totals. intros H. apply in_map_iff in H as ([c' row] & [= <- <-] & _).
  eauto.
Qed.

Lemma keys_table {V : Type} (cell : string -> string -> V) :
  keys (table countries cell) = countries.
Proof.
  unfold keys, table. rewrite map_map. simpl. apply map_id.
Qed.

Lemma keys_totals (scores : obj (obj Z)) : keys (totals scores) = keys scores.
Proof. unfold keys, totals. rewrite map_map. reflexivity. Qed.

(** What [aggregate] returns when it returns. *)
Lemma aggregate_inr (baseline : obj (obj Z)) (l : list ImpactRecord)
      (r : AnalysisResult) :
  aggregate countries policy baseline l = inr r ->
  exists kept, r = combine countries baseline kept.
Proof.
  unfold aggregate. destruct (negb (complete countries baseline)); [discriminate|].
  destruct policy; [intros [= <-]; eauto|].
  destruct (forallb _ l); [intros [= <-]; eauto | discriminate].
Qed.

Lemma combine_range (baseline : obj (obj Z)) (kept : list ImpactRecord) :
  let r := combine countries baseline kept in
  (forall c row a v,
      In (c, row) (aspect_scores r) -> In (a, v) row -> 0 <= v <= 100)
  /\ (forall c v, In (c, v) (country_scores r) -> 0 <= v <= 100).
Proof.
  simpl. split.
  - intros c row a v Hrow Hv.
    destruct (table_In _ _ _ _ _ Hrow Hv) as (_ & _ & ->). apply clamp_range.
  - intros c v Hv. apply totals_In in Hv as (row & ->). apply clamp_range.
Qed.

Lemma wellScored_complete (baseline : obj (obj Z)) :
  wellScored countries baseline = true -> complete countries baseline = true.
Proof.
  unfold wellScored, complete. rewrite !forallb_forall. intros H c Hc.
  specialize (H c Hc). rewrite forallb_forall in H |- *. intros a Ha.
  specialize (H a Ha). apply bool_decide_eq_true.
  destruct (baselineScore baseline c a); [eauto | discriminate].
Qed.

Lemma wellScored_cell (baseline : obj (obj Z)) (c a : string) :
  wellScored countries baseline = true -> In c countries -> In a aspects ->
  exists v, baselineScore baseline c a = Some v /\ 0 <= v <= 100.
Proof.
  unfold wellScored. rewrite forallb_forall. intros H Hc Ha.
  specialize (H c Hc). rewrite forallb_forall in H. specialize (H a Ha).
  destruct (baselineScore baseline c a) as [v|]; [|discriminate].
  exists v. split; [reflexivity | lia].
Qed.

Lemma get_map_key {V : Type} (f : string -> V) (l : list string) (k : string) :
  In k l -> get (map (fun x => (x, f x)) l) k = Some (f k).
Proof.
  induction l as [|x l IH]; simpl; [tauto|].
  destruct (String.eqb_spec k x) as [-> | Hne]; [reflexivity|].
  intros [-> | Hin]; [congruence | now apply IH].
Qed.

Lemma baselineScore_table (cell : string -> string -> Z) (c a : string) :
  In c countries -> In a aspects ->
  baselineScore (table countries cell) c a = Some (cell c a).
Proof.
  intros Hc Ha. unfold baselineScore, table.
  pose proof (get_map_key (fun c => map (fun a => (a, cell c a)) aspects)
                countries c Hc) as Hrow.
  unfold obj in *. rewrite Hrow.
  simpl. exact (get_map_key (cell c) aspects a Ha).
Qed.

Lemma complete_cell (baseline : obj (obj Z)) (c a : string) :
  complete countries baseline = true -> In c countries -> In a aspects ->
  exists v, baselineScore baseline c a = Some v.
Proof.
  unfold complete. rewrite forallb_forall. intros H Hc Ha.
  specialize (H c Hc). rewrite forallb_forall in H. specialize (H a Ha).
  apply bool_decide_eq_true in H as [v Hv]. eauto.
Qed.

Lemma aggregate_complete (baseline : obj (obj Z)) (l : list ImpactRecord)
      (r : AnalysisResult) :
  aggregate countries policy baseline l = inr r ->
  complete countries baseline = true.
Proof.
  unfold aggregate. destruct (complete countries baseline); [reflexivity|].
  discriminate.
Qed.

Lemma table_ext {V : Type} (cell cell' : string -> string -> V) :
  (forall c a, In c countries -> In a aspects -> cell c a = cell' c a) ->
  table countries cell = table countries cell'.
Proof.
  intros H. unfold table. apply map_ext_in. intros c Hc. f_equal.
  apply map_ext_in. intros a Ha. f_equal. now apply H.
Qed.
End Aggregate.

(** C1: every aspect score and every country score that [aggregate]
    returns lies in [0,100], whatever the baseline table and the deltas.
    A sum of baseline and deltas outside the range is clamped to the
    nearer bound, and the size of a delta never makes [aggregate] fail: on
    a complete baseline it returns a result for every impact list when
    invalid references are dropped, and for every impact list with valid
    references when they are rejected. *)
Theorem scores_stay_in_range (countries : list string) (policy : InvalidPolicy)
        (baseline : obj (obj Z)) (l : list ImpactRecord) :
  (forall r,
      aggregate countries policy baseline l = inr r ->
      (forall c row a v,
          In (c, row) (aspect_scores r) -> In (a, v) row -> 0 <= v <= 100)
      /\ (forall c v, In (c, v) (country_scores r) -> 0 <= v <= 100)
      /\ (forall c row a v,
            In (c, row) (aspect_scores r) -> In (a, v) row ->
            exists b d,
              baselineScore baseline c a = Some b
              /\ baselineScore (aspect_deltas r) c a = Some d
              /\ (100 <= b + d -> v = 100)
              /\ (b + d <= 0 -> v = 0)
              /\ (0 <= b + d <= 100 -> v = b + d)))
  /\ (complete countries baseline = true ->
      (policy = RejectWholesale -> forallb (validReference countries) l = true) ->
      exists r,
        aggregate countries policy baseline l = inr r
        /\ keys (aspect_scores r) = countries
        /\ keys (country_scores r) = countries).
Proof.
  split.
  - intros r Hr. pose proof (aggregate_complete _ _ _ _ _ Hr) as Hc.
    apply aggregate_inr in Hr as (kept & ->).
    destruct (combine_range countries baseline kept) as [Ha Ht].
    split; [exact Ha|]. split; [exact Ht|].
    intros c row a v Hrow Hv. simpl in Hrow.
    destruct (table_In countries _ _ _ _ _ Hrow Hv) as (Hic & Hia & ->).
    destruct (complete_cell countries baseline c a Hc Hic Hia) as (b & Hb).
    exists b, (summed_delta kept c a). split; [exact Hb|].
    split; [now apply baselineScore_table|].
    unfold scenario_score, clamp. rewrite Hb. simpl. lia.
  - intros Hc Hvalid. unfold aggregate. rewrite Hc. simpl.
    destruct policy.
    + eexists. split; [reflexivity|]. simpl.
      now rewrite keys_totals, !keys_table.
    + rewrite (Hvalid eq_refl). eexists. split; [reflexivity|]. simpl.
      now rewrite keys_totals, !keys_table.
Qed.

Lemma scores_stay_in_range_witness :
  exists r,
    aggregate tenCountries DropInvalid sampleBaseline hugeImpacts = inr r
    /\ (forall c row a v,
           In (c, row) (aspect_scores r) -> In (a, v) row -> 0 <= v <= 100)
    /\ (forall c v, In (c, v) (country_scores r) -> 0 <= v <= 100).
Proof.
  destruct (proj2 (scores_stay_in_range tenCountries DropInvalid sampleBaseline
                     hugeImpacts))
    as (r & Hr & _); [reflexivity | discriminate |].
  exists r. split; [exact Hr|].
  destruct (proj1 (scores_stay_in_range tenCountries DropInvalid sampleBaseline
                     hugeImpacts) r Hr) as (Ha & Ht & _).
  split; assumption.
Defined.

Example huge_deltas_are_clamped :
  forall r,
    aggregate tenCountries DropInvalid sampleBaseline hugeImpacts = inr r ->
    baselineScore (aspect_scores r) "USA" "Economic Stability" = Some 0
    /\ baselineScore (aspect_scores r) "Japan" "Energy Security" = Some 100
    /\ get (aspect_scores r) "Atlantis" = None
    /\ aspect_scores r
       = aspect_scores (combine tenCountries sampleBaseline
                          [record "USA" "Economic Stability" (-1000000000000);
                           record "Japan" "Energy Security" 1000000000000]).
Proof. intros r [= <-]. repeat split; vm_compute; reflexivity. Qed.

(** C2: on a baseline table that is complete with every score in
    [0,100], [aggregate] applied to the empty impact list returns
    scenario scores identical to the baseline scores, cell by cell, and
    [country_scores] equal to [baseline_country_scores], with an entry
    for each country of the enumeration. *)
Theorem empty_impacts_keep_baseline (countries : list string)
        (policy : InvalidPolicy) (baseline : obj (obj Z)) :
  wellScored countries baseline = true ->
  exists r,
    aggregate countries policy baseline [] = inr r
    /\ aspect_scores r = baseline_aspect_scores r
    /\ country_scores r = baseline_country_scores r
    /\ keys (country_scores r) = countries
    /\ (forall c row a v,
          In (c, row) (aspect_scores r) -> In (a, v) row ->
          baselineScore baseline c a = Some v).
Proof.
  intros Hw. unfold aggregate.
  rewrite (wellScored_complete countries baseline Hw). simpl.
  assert (table countries (scenario_score baseline [])
          = table countries (fun c a => default 0 (baselineScore baseline c a)))
    as Hsame.
  { apply table_ext. intros c a Hc Ha.
    destruct (wellScored_cell countries baseline c a Hw Hc Ha) as (v & Hv & Hr).
    unfold scenario_score, summed_delta. rewrite Hv. simpl.
    rewrite Z.add_0_r. now apply clamp_id. }
  assert (exists r, combine countries baseline [] = r
                    /\ aspect_scores r = baseline_aspect_scores r
                    /\ country_scores r = baseline_country_scores r
                    /\ keys (country_scores r) = countries
                    /\ (forall c row a v,
                           In (c, row) (aspect_scores r) -> In (a, v) row ->
                           baselineScore baseline c a = Some v))
    as (r & <- & H).
  { eexists. split; [reflexivity|]. simpl. rewrite Hsame.
    split; [reflexivity|]. split; [reflexivity|].
    split; [now rewrite keys_totals, keys_table|].
    intros c row a v Hrow Hcell.
    destruct (table_In countries _ _ _ _ _ Hrow Hcell) as (Hc & Ha & ->).
    destruct (wellScored_cell countries baseline c a Hw Hc Ha) as (w & -> & _).
    reflexivity. }
  destruct policy; eexists; (split; [reflexivity | exact H]).
Qed.

Lemma empty_impacts_keep_baseline_witness :
  exists r,
    aggregate tenCountries RejectWholesale sampleBaseline [] = inr r
    /\ country_scores r = baseline_country_scores r
    /\ length (country_scores r) = 10%nat.
Proof.
  destruct (empty_impacts_keep_baseline tenCountries RejectWholesale sampleBaseline)
    as (r & Hr & _ & Hc & Hk & _); [reflexivity|].
  exists r. split; [exact Hr|]. split; [exact Hc|].
  change (length (keys (country_scores r)) = 10%nat) with
    (length (map fst (country_scores r)) = 10%nat) in |- *.
  rewrite <- (length_map fst). unfold keys in Hk. now rewrite Hk.
Defined.

(** The two worked examples of the specification. *)
Example usa_economic_55 :
  forall r,
    aggregate tenCountries DropInvalid sampleBaseline
              [record "USA" "Economic Stability" (-15)] = inr r ->
    baselineScore (aspect_scores r) "USA" "Economic Stability" = Some 55.
Proof. intros r [= <-]. reflexivity. Qed.

Example japan_energy_clamped :
  forall r,
    aggregate tenCountries DropInvalid sampleBaseline
              [record "Japan" "Energy Security" 20] = inr r ->
    baselineScore (aspect_scores r) "Japan" "Energy Security" = Some 100.
Proof. intros r [= <-]. reflexivity. Qed.

(** An impact with an unknown country or aspect: it is refused with the
    whole list, or dropped, and then the scores, deltas, reasons and
    rankings are those of the list without it. *)
Lemma invalid_reference_dropped (countries : list string) (baseline : obj (obj Z))
      (before after : list ImpactRecord) (bad : ImpactRecord) :
  validReference countries bad = false ->
  (forall r,
      aggregate countries RejectWholesale baseline (before ++ bad :: after) <> inr r)
  /\ (forall r r',
        aggregate countries DropInvalid baseline (before ++ bad :: after) = inr r ->
        aggregate countries DropInvalid baseline (before ++ after) = inr r' ->
        aspect_scores r = aspect_scores r'
        /\ country_scores r = country_scores r'
        /\ aspect_deltas r = aspect_deltas r'
        /\ aspect_reasons r = aspect_reasons r'
        /\ rankings r = rankings r').
Proof.
  intros Hbad. split.
  - intros r. unfold aggregate. destruct (negb _); [discriminate|].
    rewrite forallb_app. simpl. rewrite Hbad, andb_false_r. discriminate.
  - intros r r'. unfold aggregate. destruct (negb _); [discriminate|].
    rewrite !List.filter_app. simpl. rewrite Hbad.
    intros [= <-] [= <-]. repeat split.
Qed.

(** The ranking the Dashboard draws from a serialized result of
    [aggregate] is the ranking of the result, with ties in the order of
    the enumeration of the countries. *)
Lemma dashboard_ranks_aggregate (countries : list string) (policy : InvalidPolicy)
      (baseline : obj (obj Z)) (l : list ImpactRecord) (r : AnalysisResult) :
  NoDup countries ->
  aggregate countries policy baseline l = inr r ->
  DashboardPage.sortedCountries (Some (serialize r)) = rankings r
  /\ StronglySorted (Readings.ranksBefore (country_scores r) countries) (rankings r).
Proof.
  intros Hnd Hr. apply aggregate_inr in Hr as (kept & ->).
  assert (DashboardPage.sortedCountries
            (Some (serialize (combine countries baseline kept)))
          = rankings (combine countries baseline kept)) as Heq
      by apply RankingFacts.sortedCountries_sort.
  split; [exact Heq|]. rewrite <- Heq.
  apply (RankingFacts.sortedCountries_ranked countries
           (Some (serialize (combine countries baseline kept)))).
  unfold DashboardPage.countryScores. simpl.
  rewrite keys_totals, keys_table. now apply RankingFacts.listedInOrder_self.
Qed.

End AggregatorFacts.

(** *** Impacts that reference no known country or aspect *)

Module UnknownReferenceFacts.
Import Js Api Chatbot ChatbotView Readings ObjectFacts Samples.

Section Unknown.
Variable countries : list string.
Variable localeCompare : string -> string -> Z.

Lemma validReference_false (bad : Aggregator.ImpactRecord) :
  Aggregator.validReference countries bad = false ->
  ~ (In (Aggregator.country bad) countries
     /\ In (Aggregator.aspect bad) Aggregator.aspects).
Proof.
  unfold Aggregator.validReference. intros Hbad [Hc Ha].
  assert (existsb (String.eqb (Aggregator.country bad)) countries = true) as Ec
      by (apply existsb_exists; eexists; split; [exact Hc | apply String.eqb_refl]).
  assert (existsb (String.eqb (Aggregator.aspect bad)) Aggregator.aspects = true) as Ea
      by (apply existsb_exists; eexists; split; [exact Ha | apply String.eqb_refl]).
  rewrite Ec, Ea in Hbad. discriminate.
Qed.

(** A table holds nothing outside the enumerations. *)
Lemma table_outside {V : Type} (cell : string -> string -> V) (c a : string) :
  ~ (In c countries /\ In a Aggregator.aspects) ->
  get (Aggregator.table countries cell) c ≫= (fun row => get row a) = None.
Proof.
  intros Hout.
  destruct (get (Aggregator.table countries cell) c) as [row|] eqn:Hrow;
    [|reflexivity].
  simpl. destruct (get row a) as [v|] eqn:Hv; [|reflexivity].
  exfalso. apply Hout. apply get_Some_In in Hrow, Hv.
  destruct (AggregatorFacts.table_In countries cell c row a v Hrow Hv)
    as (Hc & Ha & _).
  now split.
Qed.

Lemma explanations_of_details (analysisData : option AnalysisData)
      (explanations : list Explanation) (e : Explanation) (item : ExplanationItem) :
  analysisExplanations localeCompare analysisData = Some explanations ->
  In e explanations ->
  In item (shown_items e) ->
  exists entry,
    In entry (buildImpactDetails localeCompare analysisData)
    /\ detail_country entry = shown_country e
    /\ In (shown_aspect item) (map detail_aspect (detail_aspects entry)).
Proof.
  unfold analysisExplanations.
  destruct (analysisData ≫= impacts); [|discriminate].
  intros [= <-] He Hitem.
  apply in_map_iff in He as (entry & <- & Hentry). simpl in Hitem.
  apply in_map_iff in Hitem as (detail & <- & Hdetail).
  exists entry. split; [exact Hentry|]. split; [reflexivity|].
  simpl. now apply in_map.
Qed.

(** For a reply with [impacts] the block is drawn, with one entry for
    each country of [aspect_scores] and the seven aspects in each. *)
Lemma explanations_drawn (data : AnalysisData) (l : list Impact) :
  impacts data = Some l ->
  exists explanations,
    analysisExplanations localeCompare (Some data) = Some explanations
    /\ Permutation (map shown_country explanations)
                   (keys (default [] (aspect_scores data)))
    /\ (forall e, In e explanations ->
                  map shown_aspect (shown_items e) = aspectOrder).
Proof.
  intros Hl. unfold analysisExplanations. simpl. rewrite Hl.
  eexists. split; [reflexivity|]. split.
  - rewrite map_map. simpl. unfold buildImpactDetails.
    destruct (aspect_scores data) as [scores|]; simpl; [|constructor].
    change (fun x : DetailEntry => detail_country x) with detail_country.
    rewrite (Permutation_map detail_country (sort_Permutation _ _)).
    rewrite map_map. unfold keys.
    match goal with |- Permutation ?x ?y => assert (x = y) as ->; [|reflexivity] end.
    apply map_ext. now intros [c row].
  - intros e He. apply in_map_iff in He as (entry & <- & Hentry). simpl.
    rewrite map_map. simpl.
    now apply (ReferenceFacts.buildImpactDetails_aspects localeCompare (Some data)).
Qed.
End Unknown.

(** C5: an impact that references a country or an aspect outside the
    fixed enumerations is rejected or dropped.  When such impacts are
    rejected, [aggregate] returns no result, and [InvalidReference] on a
    complete baseline.  When they are dropped, [aggregate] returns what it
    returns for the list without the impact, a result on a complete
    baseline: the impact is not among the [impacts] of the result, the
    scores, the deltas and the reasons hold nothing for its pair, a
    country outside the enumeration has no score and no rank, and the
    block the Chatbot draws from the result, one entry for each country
    of the enumeration with the seven aspects, shows no item for the
    pair.
    The presentation reads no impact at all: whatever the impact list of
    a reply holds, the block drawn from the reply is the same. *)
Theorem unknown_reference_rejected_or_dropped
        (countries : list string) (baseline : obj (obj Z))
        (before after : list Aggregator.ImpactRecord) (bad : Aggregator.ImpactRecord)
        (localeCompare : string -> string -> Z) :
  Aggregator.validReference countries bad = false ->
  (forall r,
      Aggregator.aggregate countries Aggregator.RejectWholesale baseline
                           (before ++ bad :: after) <> inr r)
  /\ (Aggregator.complete countries baseline = true ->
      Aggregator.aggregate countries Aggregator.RejectWholesale baseline
                           (before ++ bad :: after)
      = inl Aggregator.InvalidReference)
  /\ Aggregator.aggregate countries Aggregator.DropInvalid baseline
                          (before ++ bad :: after)
     = Aggregator.aggregate countries Aggregator.DropInvalid baseline
                            (before ++ after)
  /\ (Aggregator.complete countries baseline = true ->
      exists r,
        Aggregator.aggregate countries Aggregator.DropInvalid baseline
                             (before ++ bad :: after) = inr r)
  /\ (forall r,
        Aggregator.aggregate countries Aggregator.DropInvalid baseline
                             (before ++ bad :: after) = inr r ->
        ~ In bad (Aggregator.impacts r)
        /\ get (Aggregator.aspect_scores r) (Aggregator.country bad)
             ≫= (fun row => get row (Aggregator.aspect bad)) = None
        /\ get (Aggregator.aspect_deltas r) (Aggregator.country bad)
             ≫= (fun row => get row (Aggregator.aspect bad)) = None
        /\ get (Aggregator.aspect_reasons r) (Aggregator.country bad)
             ≫= (fun row => get row (Aggregator.aspect bad)) = None
        /\ (~ In (Aggregator.country bad) countries ->
            get (Aggregator.country_scores r) (Aggregator.country bad) = None
            /\ ~ In (Aggregator.country bad) (Aggregator.rankings r))
        /\ exists explanations,
            analysisExplanations localeCompare (Some (Aggregator.serialize r))
            = Some explanations
            /\ Permutation (map shown_country explanations) countries
            /\ (forall e, In e explanations ->
                          map shown_aspect (shown_items e) = aspectOrder)
            /\ (forall e item,
                  In e explanations ->
                  In item (shown_items e) ->
                  ~ (shown_country e = Aggregator.country bad
                     /\ shown_aspect item = Aggregator.aspect bad)))
  /\ (forall (data : AnalysisData) (shown shown' : list Impact),
        analysisExplanations localeCompare (Some (withImpacts data (Some shown)))
        = analysisExplanations localeCompare (Some (withImpacts data (Some shown')))).
Proof.
  intros Hbad. pose proof (validReference_false countries bad Hbad) as Hout.
  assert (Aggregator.aggregate countries Aggregator.DropInvalid baseline
                               (before ++ bad :: after)
          = Aggregator.aggregate countries Aggregator.DropInvalid baseline
                                 (before ++ after)) as Hsame.
  { unfold Aggregator.aggregate. rewrite !List.filter_app. simpl. now rewrite Hbad. }
  split; [|split; [|split; [exact Hsame|split; [|split]]]].
  - intros r. unfold Aggregator.aggregate. destruct (negb _); [discriminate|].
    rewrite forallb_app. simpl. rewrite Hbad, andb_false_r. discriminate.
  - intros Hc. unfold Aggregator.aggregate. rewrite Hc. simpl.
    rewrite forallb_app. simpl. now rewrite Hbad, andb_false_r.
  - intros Hc. unfold Aggregator.aggregate. rewrite Hc. simpl. eauto.
  - intros r Hr. unfold Aggregator.aggregate in Hr.
    destruct (negb _); [discriminate|]. injection Hr as <-.
    split; [|split; [|split; [|split; [|split]]]].
    + simpl. intros Hin. apply filter_In in Hin as [_ Hvalid]. congruence.
    + simpl. now apply table_outside.
    + simpl. now apply table_outside.
    + simpl. now apply table_outside.
    + intros Hc. simpl.
      assert (~ In (Aggregator.country bad)
                (keys (Aggregator.totals
                         (Aggregator.table countries
                            (Aggregator.scenario_score baseline
                               (List.filter (Aggregator.validReference countries)
                                            (before ++ bad :: after))))))) as Hk
          by now rewrite AggregatorFacts.keys_totals, AggregatorFacts.keys_table.
      split; [now apply get_None_keys|].
      intros Hin. apply Hk. unfold keys.
      apply in_map_iff in Hin as (entry & <- & Hin). apply sort_In in Hin.
      now apply in_map.
    + destruct (explanations_drawn localeCompare
                  (Aggregator.serialize
                     (Aggregator.combine countries baseline
                        (List.filter (Aggregator.validReference countries)
                                     (before ++ bad :: after)))) _ eq_refl)
        as (explanations & Hshown & Hcountries & Haspects).
      exists explanations. split; [exact Hshown|]. split.
      { rewrite Hcountries. simpl. now rewrite AggregatorFacts.keys_table. }
      split; [exact Haspects|].
      intros e item He Hitem [Hc Ha].
      destruct (explanations_of_details localeCompare _ _ _ _ Hshown He Hitem)
        as (entry & Hentry & Hcountry & Haspect).
      apply ReferenceFacts.buildImpactDetails_entries in Hentry
        as (scores & c & row & Hscores & Hrow & ->).
      simpl in Hscores, Hcountry, Haspect. injection Hscores as <-.
      apply Hout. rewrite <- Hc, <- Ha, <- Hcountry. split; [|exact Haspect].
      unfold Aggregator.table in Hrow. apply in_map_iff in Hrow as (c0 & [= <- _] & Hc0).
      exact Hc0.
  - intros data shown shown'. reflexivity.
Qed.

Lemma unknown_reference_rejected_or_dropped_witness :
  Aggregator.validReference tenCountries (record "Atlantis" "Energy Security" 5) = false
  /\ Aggregator.aggregate tenCountries Aggregator.DropInvalid sampleBaseline hugeImpacts
     = Aggregator.aggregate tenCountries Aggregator.DropInvalid sampleBaseline
         [ record "USA" "Economic Stability" (-1000000000000);
           record "Japan" "Energy Security" 1000000000000 ]
  /\ Aggregator.aggregate tenCountries Aggregator.RejectWholesale sampleBaseline
                          hugeImpacts
     = inl Aggregator.InvalidReference.
Proof.
  assert (Aggregator.validReference tenCountries (record "Atlantis" "Energy Security" 5)
          = false) as Hbad by reflexivity.
  split; [exact Hbad|].
  destruct (unknown_reference_rejected_or_dropped tenCountries sampleBaseline
              [ record "USA" "Economic Stability" (-1000000000000);
                record "Japan" "Energy Security" 1000000000000 ] []
              (record "Atlantis" "Energy Security" 5) codeUnitCompare Hbad)
    as (_ & Hrejected & Hdropped & _).
  split; [exact Hdropped | apply Hrejected; reflexivity].
Defined.

End UnknownReferenceFacts.

(** *** The render of the Chatbot *)

Module ViewFacts.
Import Js JsMore Api Chatbot ChatbotView MoreSamples.

(** **** Searching from the end *)


Lemma findIndexFrom_none {A : Type} (p : A -> bool) (l : list A) (i : Z) :
  0 <= i -> (findIndexFrom p l i = -1 <-> forallb (fun x => negb (p x)) l = true).
Proof.
  revert i; induction l as [|x l IH]; intros i Hi; simpl; [tauto|].
  destruct (p x); simpl.
  - split; [lia | discriminate].
  - apply IH. lia.
Qed.

Lemma findIndexFrom_succ {A : Type} (p : A -> bool) (l : list A) (i : Z) :
  findIndexFrom p l i <> -1 -> findIndexFrom p l (i + 1) = findIndexFrom p l i + 1.
Proof.
  revert i; induction l as [|x l IH]; intros i; simpl; [congruence|].
  destruct (p x); [reflexivity | apply IH].
Qed.

Lemma findIndexFrom_lower {A : Type} (p : A -> bool) (l : list A) (i : Z) :
  findIndexFrom p l i = -1 \/ i <= findIndexFrom p l i.
Proof.
  revert i; induction l as [|x l IH]; intros i; simpl; [now left|].
  destruct (p x); [right; lia|]. destruct (IH (i + 1)); [now left | right; lia].
Qed.

Lemma nth_error_lt {A : Type} (l : list A) (n : nat) (x : A) :
  nth_error l n = Some x -> (n < length l)%nat.
Proof. intros H. apply nth_error_Some. congruence. Qed.

(** The index after one more message. *)
Lemma lastActualIndex_snoc (who : string) (l : list Message) (x : Message) :
  lastActualIndex who (l ++ [x]) =
    if String.eqb (sender x) who then Z.of_nat (length l)
    else lastActualIndex who l.
Proof.
  unfold lastActualIndex, findIndex. rewrite rev_unit, length_app. simpl.
  destruct (sender x =? who)%string; simpl; [lia|].
  set (p := fun item => String.eqb (sender item) who).
  change (0 + 1) with 1.
  destruct (Z.eq_dec (findIndexFrom p (rev l) 0) (-1)) as [Hnone | Hsome].
  - assert (findIndexFrom p (rev l) 1 = -1) as ->.
    { apply findIndexFrom_none; [lia|]. now apply (findIndexFrom_none p (rev l) 0). }
    rewrite Hnone. reflexivity.
  - pose proof (findIndexFrom_succ p (rev l) 0 Hsome) as Hs.
    change (0 + 1) with 1 in Hs. rewrite Hs.
    destruct (findIndexFrom_lower p (rev l) 0) as [H | H]; [contradiction|].
    assert ((findIndexFrom p (rev l) 0 + 1 =? -1) = false) as -> by lia.
    assert ((findIndexFrom p (rev l) 0 =? -1) = false) as -> by lia.
    simpl. lia.
Qed.

Lemma lastActualIndex_spec (who : string) (messages : list Message) :
  (lastActualIndex who messages = -1
   /\ forall j message, nth_error messages j = Some message -> sender message <> who)
  \/ (exists i message,
         lastActualIndex who messages = Z.of_nat i
         /\ nth_error messages i = Some message
         /\ sender message = who
         /\ noneAfter who messages i).
Proof.
  induction messages as [|x l IH] using rev_ind.
  - left. split; [reflexivity|]. intros [|j] m H; discriminate H.
  - rewrite lastActualIndex_snoc.
    destruct (String.eqb_spec (sender x) who) as [Hx | Hx].
    + right. exists (length l), x. split; [reflexivity|].
      split; [now rewrite nth_error_app2, Nat.sub_diag by lia|]. split; [exact Hx|].
      intros j m Hj Hm. apply nth_error_lt in Hm.
      rewrite length_app in Hm. simpl in Hm. lia.
    + destruct IH as [[Hnone Hall] | (i & m & Hi & Hm & Hs & Hafter)].
      * left. split; [exact Hnone|]. intros j m Hm.
        destruct (Nat.lt_ge_cases j (length l)) as [Hlt | Hge].
        -- rewrite nth_error_app1 in Hm by lia. eauto.
        -- rewrite nth_error_app2 in Hm by lia.
           destruct (j - length l)%nat as [|k]; simpl in Hm;
             [injection Hm as <-; exact Hx | destruct k; discriminate Hm].
      * right. exists i, m. split; [exact Hi|].
        pose proof (nth_error_lt _ _ _ Hm) as Hlt.
        split; [now rewrite nth_error_app1 by lia|]. split; [exact Hs|].
        intros j m' Hj Hm'.
        destruct (Nat.lt_ge_cases j (length l)) as [Hlt' | Hge].
        -- rewrite nth_error_app1 in Hm' by lia. eauto.
        -- rewrite nth_error_app2 in Hm' by lia.
           destruct (j - length l)%nat as [|k]; simpl in Hm';
             [injection Hm' as <-; exact Hx | destruct k; discriminate Hm'].
Qed.

Lemma noneAfter_same_place (who : string) (messages : list Message)
      (i j : nat) (mi mj : Message) :
  nth_error messages i = Some mi -> sender mi = who -> noneAfter who messages i ->
  nth_error messages j = Some mj -> sender mj = who -> noneAfter who messages j ->
  i = j.
Proof.
  intros Hi Hsi Hai Hj Hsj Haj.
  destruct (Nat.lt_trichotomy i j) as [Hlt | [Heq | Hgt]]; [|exact Heq|].
  - exfalso. exact (Hai j mj Hlt Hj Hsj).
  - exfalso. exact (Haj i mi Hgt Hi Hsi).
Qed.

Lemma lastActualIndex_here (who : string) (messages : list Message)
      (index : nat) (message : Message) :
  nth_error messages index = Some message ->
  (Z.of_nat index = lastActualIndex who messages
   <-> sender message = who /\ noneAfter who messages index).
Proof.
  intros Hm.
  destruct (lastActualIndex_spec who messages)
    as [[Hnone Hall] | (i & m & Hi & Hnth & Hs & Hafter)].
  - split; [lia|]. intros [Hs _]. exfalso. exact (Hall index message Hm Hs).
  - rewrite Hi. split.
    + intros Heq. apply Nat2Z.inj in Heq. subst i.
      rewrite Hm in Hnth. injection Hnth as <-. auto.
    + intros [Hs' Hafter']. f_equal.
      exact (noneAfter_same_place who messages index i message m
               Hm Hs' Hafter' Hnth Hs Hafter).
Qed.

(** X1: the regenerate button is drawn on a message exactly when the
    message carries a non-empty scenario and is the last message of the
    user or the last message of the bot; so at most one message of either
    sender shows it, and the welcome message never does. *)
Theorem showRegenerate_last_of_sender (messages : list Message) :
  (forall index message,
      nth_error messages index = Some message ->
      (showRegenerate messages index message = true
       <-> truthy (scenario message) = true
           /\ ((sender message = "user" /\ noneAfter "user" messages index)
               \/ (sender message = "bot" /\ noneAfter "bot" messages index))))
  /\ (forall i j mi mj,
        nth_error messages i = Some mi -> nth_error messages j = Some mj ->
        showRegenerate messages i mi = true -> showRegenerate messages j mj = true ->
        sender mi = sender mj -> i = j)
  /\ (forall index, showRegenerate messages index welcomeMessage = false).
Proof.
  assert (forall index message,
             nth_error messages index = Some message ->
             (showRegenerate messages index message = true
              <-> truthy (scenario message) = true
                  /\ ((sender message = "user" /\ noneAfter "user" messages index)
                      \/ (sender message = "bot" /\ noneAfter "bot" messages index))))
    as Hshow.
  { intros index message Hm. unfold showRegenerate.
    rewrite andb_true_iff, orb_true_iff, !Z.eqb_eq.
    rewrite (lastActualIndex_here "user" messages index message Hm),
            (lastActualIndex_here "bot" messages index message Hm).
    reflexivity. }
  split; [exact Hshow|]. split; [|reflexivity].
  intros i j mi mj Hi Hj Hsi Hsj Hsame.
  apply (Hshow i mi Hi) in Hsi as [_ Hsi]. apply (Hshow j mj Hj) in Hsj as [_ Hsj].
  destruct Hsi as [[Hwi Hai] | [Hwi Hai]], Hsj as [[Hwj Haj] | [Hwj Haj]].
  - exact (noneAfter_same_place "user" messages i j mi mj Hi Hwi Hai Hj Hwj Haj).
  - rewrite Hwi, Hwj in Hsame. discriminate Hsame.
  - rewrite Hwi, Hwj in Hsame. discriminate Hsame.
  - exact (noneAfter_same_place "bot" messages i j mi mj Hi Hwi Hai Hj Hwj Haj).
Qed.

Lemma showRegenerate_last_of_sender_witness :
  showRegenerate [welcomeMessage; askedMessage; answeredMessage; askedAgainMessage]
                 3 askedAgainMessage = true
  /\ showRegenerate [welcomeMessage; askedMessage; answeredMessage; askedAgainMessage]
                    1 askedMessage = false.
Proof.
  split.
  - apply (proj1 (showRegenerate_last_of_sender
                    [welcomeMessage; askedMessage; answeredMessage; askedAgainMessage])
             3%nat askedAgainMessage eq_refl).
    split; [reflexivity|]. left. split; [reflexivity|].
    intros [|[|[|[|[|j]]]]] m Hj Hm; try lia; discriminate Hm.
  - reflexivity.
Defined.

(** **** The sets of expanded messages *)

Lemma idEq_eq (a b : MessageId) : idEq a b = true <-> a = b.
Proof.
  destruct a as [s | n], b as [t | m]; simpl;
    rewrite ?String.eqb_eq, ?Z.eqb_eq; split; congruence.
Qed.

Lemma idEq_refl (a : MessageId) : idEq a a = true.
Proof. now apply idEq_eq. Qed.

Lemma idEq_neq (a b : MessageId) : idEq a b = false <-> a <> b.
Proof.
  rewrite <- idEq_eq. destruct (idEq a b); split; congruence.
Qed.

Lemma has_delete (s : list MessageId) (x y : MessageId) :
  has (delete s x) y = has s y && negb (idEq x y).
Proof.
  unfold has, delete. induction s as [|z s IH]; simpl; [reflexivity|].
  destruct (idEq z x) eqn:Hzx; simpl.
  - apply idEq_eq in Hzx as ->. rewrite IH.
    destruct (idEq y x) eqn:Hyx; simpl; [|reflexivity].
    apply idEq_eq in Hyx as ->. rewrite idEq_refl. simpl. now rewrite andb_false_r.
  - rewrite IH. destruct (idEq y z) eqn:Hyz; simpl; [|reflexivity].
    apply idEq_eq in Hyz as ->.
    destruct (idEq x z) eqn:Hxz; [|reflexivity].
    apply idEq_eq in Hxz as ->. now rewrite idEq_refl in Hzx.
Qed.

Lemma has_add (s : list MessageId) (x y : MessageId) :
  has (add s x) y = has s y || idEq x y.
Proof.
  unfold add. destruct (has s x) eqn:Hx.
  - destruct (idEq x y) eqn:Hxy; [|now rewrite orb_false_r].
    apply idEq_eq in Hxy as <-. now rewrite Hx.
  - unfold has. rewrite existsb_app. simpl. rewrite orb_false_r. f_equal.
    destruct (idEq y x) eqn:Hyx.
    + apply idEq_eq in Hyx as ->. now rewrite idEq_refl.
    + symmetry. apply idEq_neq. apply idEq_neq in Hyx. congruence.
Qed.

(** X2: toggling a message flips its membership in the set of expanded
    messages and leaves every other message as it was, so toggling twice
    restores the membership of every message; [toggleSummary] does the
    same on its set. *)
Theorem toggle_flips_membership (messageId : MessageId) (prev : list MessageId) :
  (forall y,
      has (toggleExpanded messageId prev) y
      = if idEq messageId y then negb (has prev messageId) else has prev y)
  /\ (forall y,
        has (toggleExpanded messageId (toggleExpanded messageId prev)) y = has prev y)
  /\ toggleSummary messageId prev = toggleExpanded messageId prev.
Proof.
  assert (forall s y,
             has (toggleExpanded messageId s) y
             = if idEq messageId y then negb (has s messageId) else has s y) as Hflip.
  { intros s y. unfold toggleExpanded. destruct (has s messageId) eqn:Hx.
    - rewrite has_delete. destruct (idEq messageId y) eqn:Hxy; simpl.
      + now rewrite andb_false_r.
      + now rewrite andb_true_r.
    - rewrite has_add. destruct (idEq messageId y) eqn:Hxy; simpl.
      + now rewrite orb_true_r.
      + now rewrite orb_false_r. }
  split; [apply Hflip|]. split; [|reflexivity].
  intros y. rewrite Hflip.
  destruct (idEq messageId y) eqn:Hxy; [|now rewrite Hflip, Hxy].
  rewrite Hflip, idEq_refl, negb_involutive.
  apply idEq_eq in Hxy as ->. reflexivity.
Qed.

(** **** The message to regenerate *)

Lemma find_rev_last {A : Type} (p : A -> bool) (l : list A) (x : A) :
  find p (rev l) = Some x ->
  exists before after,
    l = before ++ x :: after /\ p x = true
    /\ forallb (fun y => negb (p y)) after = true.
Proof.
  induction l as [|y l IH] using rev_ind; [discriminate|].
  rewrite rev_unit. simpl. destruct (p y) eqn:Hy.
  - intros [= <-]. exists l, []. auto.
  - intros H. destruct (IH H) as (before & after & -> & Hx & Hafter).
    exists before, (after ++ [y]). rewrite <- app_assoc. split; [reflexivity|].
    split; [exact Hx|]. rewrite forallb_app, Hafter. simpl. now rewrite Hy.
Qed.

Lemma find_rev_some {A : Type} (p : A -> bool) (l : list A) (x : A) :
  In x l -> p x = true -> exists y, find p (rev l) = Some y.
Proof.
  intros Hin Hx. destruct (find p (rev l)) as [y|] eqn:E; [eauto|].
  apply in_rev in Hin. pose proof (find_none _ _ E x Hin) as Hnone. congruence.
Qed.

Lemma findLastBotMessageForScenario_found
      (scenarioText : option string) (list : list Message) (found : Message) :
  findLastBotMessageForScenario scenarioText list = Some found ->
  exists before after,
    list = before ++ found :: after
    /\ sender found = "bot"
    /\ scenario found = scenarioText
    /\ Forall (fun message =>
                 ~ (sender message = "bot" /\ scenario message = scenarioText))
              after.
Proof.
  unfold findLastBotMessageForScenario.
  destruct (truthy scenarioText); simpl; [|discriminate].
  intros H. apply find_rev_last in H as (before & after & -> & Hp & Hafter).
  apply andb_prop in Hp as [Hs Hsc].
  apply String.eqb_eq in Hs. apply bool_decide_eq_true in Hsc.
  exists before, after. repeat split; try assumption.
  rewrite forallb_forall in Hafter. apply Forall_forall. intros m Hm [Hb Hsm].
  apply list_elem_of_In, Hafter in Hm. rewrite Hb, Hsm in Hm. simpl in Hm.
  rewrite bool_decide_eq_true_2 in Hm by reflexivity. discriminate Hm.
Qed.

(** X3: [findLastBotMessageForScenario] yields nothing for an absent or
    empty scenario; otherwise it yields a bot message of the list with
    that scenario after which no bot message has the scenario, and it
    yields one whenever the list holds such a message. *)
Theorem findLastBotMessageForScenario_spec
        (scenarioText : option string) (list : list Message) :
  (truthy scenarioText = false ->
   findLastBotMessageForScenario scenarioText list = None)
  /\ (forall found,
        findLastBotMessageForScenario scenarioText list = Some found ->
        exists before after,
          list = before ++ found :: after
          /\ sender found = "bot"
          /\ scenario found = scenarioText
          /\ Forall (fun message =>
                       ~ (sender message = "bot" /\ scenario message = scenarioText))
                    after)
  /\ (truthy scenarioText = true ->
      forall message,
        In message list -> sender message = "bot" -> scenario message = scenarioText ->
        exists found, findLastBotMessageForScenario scenarioText list = Some found).
Proof.
  split; [|split].
  - unfold findLastBotMessageForScenario. now intros ->.
  - intros found. apply findLastBotMessageForScenario_found.
  - unfold findLastBotMessageForScenario.
    intros -> message Hin Hs Hsc. simpl.
    apply (find_rev_some _ list message Hin).
    rewrite Hs, Hsc. simpl. now apply bool_decide_eq_true_2.
Qed.

Lemma findLastBotMessageForScenario_spec_witness :
  exists found,
    findLastBotMessageForScenario (Some "Port strike halts exports")
      [welcomeMessage; askedMessage; answeredMessage; askedAgainMessage]
    = Some found.
Proof.
  apply (proj2 (proj2 (findLastBotMessageForScenario_spec
                         (Some "Port strike halts exports")
                         [welcomeMessage; askedMessage; answeredMessage;
                          askedAgainMessage]))
           eq_refl answeredMessage).
  - right. right. left. reflexivity.
  - reflexivity.
  - reflexivity.
Defined.

(** X4: [handleRegenerate] starts nothing while an analysis is loading or
    for a message without a scenario; when it starts [runScenario], the
    scenario is that of the message and the message it asks to delete is
    a message of the rendered list with the same scenario that does not
    come from the user. *)
Theorem handleRegenerate_spares_user_messages (rendered : State) (message : Message) :
  In message (messages rendered) ->
  (isLoading rendered = true \/ truthy (scenario message) = false ->
   handleRegenerate rendered (scenario message) (id message) (sender message) = None)
  /\ (forall txt target,
        handleRegenerate rendered (scenario message) (id message) (sender message)
        = Some (txt, target) ->
        scenario message = Some txt
        /\ exists victim,
            In victim (messages rendered)
            /\ id victim = target
            /\ sender victim <> "user"
            /\ scenario victim = Some txt).
Proof.
  intros Hin. unfold handleRegenerate. split.
  - intros [Hl | Hs]; destruct (scenario message) as [s|]; try reflexivity.
    + rewrite Hl, orb_true_r. reflexivity.
    + rewrite Hs. reflexivity.
  - intros txt target. destruct (scenario message) as [s|] eqn:Hs; [|discriminate].
    destruct (negb (truthy (Some s)) || isLoading rendered); [discriminate|].
    destruct (String.eqb_spec (sender message) "user") as [Hu | Hu].
    + destruct (findLastBotMessageForScenario (Some s) (messages rendered))
        as [found|] eqn:Hfound; [|discriminate].
      intros [= <- <-]. split; [reflexivity|].
      apply findLastBotMessageForScenario_found in Hfound
        as (before & after & Hl & Hb & Hsc & _).
      exists found. rewrite Hl. split; [apply in_elt|]. split; [reflexivity|].
      split; [rewrite Hb; discriminate | exact Hsc].
    + intros [= <- <-]. split; [reflexivity|]. exists message. auto.
Qed.

Lemma handleRegenerate_spares_user_messages_witness :
  handleRegenerate
    {| messages := [welcomeMessage; askedMessage; answeredMessage; askedAgainMessage];
       input := ""; isLoading := true; calls := [] |}
    (scenario askedMessage) (id askedMessage) (sender askedMessage) = None.
Proof.
  apply (proj1 (handleRegenerate_spares_user_messages
                  {| messages := [welcomeMessage; askedMessage; answeredMessage;
                                  askedAgainMessage];
                     input := ""; isLoading := true; calls := [] |}
                  askedMessage (or_intror (or_introl eq_refl)))).
  left. reflexivity.
Defined.

End ViewFacts.

(** *** The flow of a scenario through the Chatbot *)

Module FlowFacts.
Import Js Api Chatbot Readings MessageFacts Samples MoreSamples.

(** **** Trimming *)

Lemma trimEnd_idempotent (s : string) : trimEnd (trimEnd s) = trimEnd s.
Proof.
  induction s as [|c s IH]; [reflexivity|]. simpl.
  destruct (trimEnd s) as [|d r] eqn:E.
  - destruct (isWhiteSpace c) eqn:Hc; [reflexivity|]. simpl. now rewrite Hc.
  - change (trimEnd (String c (String d r)))
      with (match trimEnd (String d r) with
            | EmptyString => if isWhiteSpace c then EmptyString else String c EmptyString
            | t => String c t
            end).
    now rewrite IH.
Qed.

Lemma trimStart_trimEnd (c : ascii) (s : string) :
  isWhiteSpace c = false -> trimStart (trimEnd (String c s)) = trimEnd (String c s).
Proof.
  intros Hc. simpl. destruct (trimEnd s); rewrite ?Hc; simpl; rewrite ?Hc; reflexivity.
Qed.

Lemma trimStart_head (s : string) :
  trimStart s = "" \/ exists c r, trimStart s = String c r /\ isWhiteSpace c = false.
Proof.
  induction s as [|c s IH]; [now left|]. simpl.
  destruct (isWhiteSpace c) eqn:Hc; [exact IH|]. right. eauto.
Qed.

Lemma trim_idempotent (s : string) : trim (trim s) = trim s.
Proof.
  unfold trim. destruct (trimStart_head s) as [-> | (c & r & -> & Hc)]; [reflexivity|].
  rewrite (trimStart_trimEnd c r Hc). apply trimEnd_idempotent.
Qed.

Lemma trim_length (s : string) : (String.length (trim s) <= String.length s)%nat.
Proof.
  unfold trim.
  assert (forall t, String.length (trimEnd t) <= String.length t)%nat as Hend.
  { induction t as [|c t IH]; simpl; [lia|].
    destruct (trimEnd t); [destruct (isWhiteSpace c)|]; simpl in *; lia. }
  assert (String.length (trimStart s) <= String.length s)%nat as Hstart.
  { induction s as [|c s IH]; simpl; [lia|].
    destruct (isWhiteSpace c); simpl; lia. }
  specialize (Hend (trimStart s)). lia.
Qed.

(** **** Sending *)

(** X5: a headline with something left after trimming is sent trimmed.
    The user message and the pending message are appended in that order
    with the trimmed text as text and scenario, the message is stored and
    the analysis requested for the trimmed text, the input is cleared and
    the component is loading; trimming the text again changes nothing. *)
Theorem handleSendMessage_sends_trimmed (st : State) (e1 e2 : Entropy) (t : Z) :
  trim (input st) <> "" ->
  exists userMessage pendingMessage,
    handleSendMessage e1 e2 t st
    = ({| messages := messages st ++ [userMessage; pendingMessage];
          input := "";
          isLoading := true;
          calls := calls st
                   ++ [addChatMessage (trim (input st)) "user" (trim (input st)) None;
                       analyzeScenario (trim (input st))] |},
       Some (createMessageId e2))
    /\ id userMessage = IdString (createMessageId e1)
    /\ sender userMessage = "user"
    /\ text userMessage = trim (input st)
    /\ scenario userMessage = Some (trim (input st))
    /\ id pendingMessage = IdString (createMessageId e2)
    /\ sender pendingMessage = "bot"
    /\ scenario pendingMessage = Some (trim (input st))
    /\ pending pendingMessage = Some true
    /\ trim (trim (input st)) = trim (input st).
Proof.
  intros Hne. unfold handleSendMessage.
  assert (negb (truthy (Some (trim (input st)))) = false) as ->.
  { simpl. apply String.eqb_neq in Hne. now rewrite Hne. }
  do 2 eexists. unfold runScenario, setMessages, setInput, setIsLoading, request.
  cbn [fst snd messages calls input isLoading]. rewrite <- !app_assoc.
  split; [reflexivity|]. repeat split. apply trim_idempotent.
Qed.

Lemma handleSendMessage_sends_trimmed_witness :
  calls (fst (handleSendMessage entropy1 entropy2 1762070400000
                (setInput "  Port strike halts exports " initialState)))
  = [ addChatMessage "Port strike halts exports" "user"
                     "Port strike halts exports" None;
      analyzeScenario "Port strike halts exports" ].
Proof.
  destruct (handleSendMessage_sends_trimmed
              (setInput "  Port strike halts exports " initialState)
              entropy1 entropy2 1762070400000)
    as (u & p & -> & _); [discriminate|]. reflexivity.
Defined.

(** **** Settling *)

Lemma map_untouched (x : MessageId) (g : Message -> Message) (l : list Message) :
  Forall (fun message => id message <> x) l ->
  map (fun message => if idEq (id message) x then g message else message) l = l.
Proof.
  induction 1 as [|m l Hm _ IH]; simpl; [reflexivity|].
  rewrite IH. apply ViewFacts.idEq_neq in Hm. now rewrite Hm.
Qed.

Lemma Forall_filter_keep {A : Type} (P : A -> Prop) (p : A -> bool) (l : list A) :
  Forall P l -> Forall P (List.filter p l).
Proof.
  induction 1 as [|x l Hx _ IH]; simpl; [constructor|].
  destruct (p x); [constructor|]; assumption.
Qed.

(** X6: an analysis started on a list that does not yet hold the new
    pending id settles in place.  [runScenario] appends the pending
    message and sets the loading flag; [runScenarioSettled] with the id it
    returned rewrites that last message only (no longer pending, carrying
    the result and its text, or marked retryable with the apology), stores
    the settled text with one [addChatMessage] and clears the flag. *)
Theorem scenario_settles_in_place (txt : string) (target : option MessageId)
        (e : Entropy) (t : Z) (reply : Reply AnalysisData) (st : State) :
  Forall (fun message => id message <> IdString (createMessageId e)) (messages st) ->
  let started := runScenario txt target e t st in
  let settled := runScenarioSettled txt (snd started) reply (fst started) in
  exists kept pendingMessage final,
    messages (fst started) = kept ++ [pendingMessage]
    /\ messages settled = kept ++ [final]
    /\ pending pendingMessage = Some true
    /\ id final = id pendingMessage
    /\ sender final = "bot"
    /\ scenario final = Some txt
    /\ pending final = Some false
    /\ match reply with
       | Resolved result =>
           analysisData final = Some result
           /\ retryable final = false
           /\ text final =
              (if truthy (analysis result)
               then default "" (analysis result)
               else "Analysis completed. Check the charts for results.")
       | Rejected =>
           analysisData final = None
           /\ retryable final = true
           /\ text final =
              "Sorry, there was an error analyzing your scenario. Please try again."
       end
    /\ isLoading (fst started) = true
    /\ isLoading settled = false
    /\ calls settled
       = calls (fst started)
         ++ [addChatMessage (text final) "bot" txt (analysisData final)].
Proof.
  intros Hfresh started settled.
  set (kept := match target with
               | Some tg =>
                   if idTruthy target
                   then List.filter (fun message => negb (idEq (id message) tg))
                                    (messages st)
                   else messages st
               | None => messages st
               end).
  assert (Forall (fun message => id message <> IdString (createMessageId e)) kept)
    as Hkept.
  { unfold kept. destruct target as [tg|]; [|exact Hfresh].
    destruct (idTruthy (Some tg)); [|exact Hfresh]. now apply Forall_filter_keep. }
  assert (messages (fst started)
          = kept ++ [ {| id := IdString (createMessageId e);
                         text := "Analyzing scenario... preparing resilience update.";
                         sender := "bot"; scenario := Some txt; isWelcome := false;
                         pending := Some true; retryable := false;
                         analysisData := None;
                         createdAt := Some (TimeNumber t) |} ]) as Hstarted.
  { unfold started, runScenario, kept. cbn [fst].
    destruct target as [[s|n]|]; try destruct (idTruthy _); reflexivity. }
  assert (snd started = createMessageId e) as Hid by reflexivity.
  assert (isLoading (fst started) = true) as Hload.
  { unfold started, runScenario. cbn [fst].
    destruct target as [[s|n]|]; try destruct (idTruthy _); reflexivity. }
  destruct reply as [result|]; exists kept; eexists; eexists;
    (split; [exact Hstarted|]);
    unfold settled, runScenarioSettled; rewrite Hid;
    cbn [messages calls isLoading setIsLoading request setMessages];
    rewrite Hstarted, map_app, (map_untouched _ _ kept Hkept);
    cbn [map id]; rewrite ViewFacts.idEq_refl;
    (split; [reflexivity|]); cbn [id sender scenario pending analysisData retryable text].
  - repeat split; try reflexivity; try exact Hload.
    destruct (analysis result) as [a|]; [|reflexivity]. simpl.
    now destruct (negb (a =? "")%string).
  - repeat split; try reflexivity; exact Hload.
Qed.

Lemma scenario_settles_in_place_witness :
  map pending
      (messages (runScenarioSettled "Grid failure in winter" (createMessageId entropy3)
                   Rejected
                   (fst (runScenario "Grid failure in winter" None entropy3
                           1762070460000 initialState))))
  = [None; Some false].
Proof.
  destruct (scenario_settles_in_place "Grid failure in winter" None entropy3
              1762070460000 Rejected initialState)
    as (kept & p & final & Hs & Hf & _).
  - repeat constructor. discriminate.
  - reflexivity.
Defined.

(** X7: a refresh of the history while an analysis is pending drops the
    pending message, and the result that settles afterwards does not enter
    the list, which stays as the refresh left it; the settled text is
    stored with [addChatMessage] all the same. *)
Theorem refresh_drops_pending_analysis (txt : string) (target : option MessageId)
        (e : Entropy) (t : Z) (history : Reply (option (list HistoryItem)))
        (reply : Reply AnalysisData) (st : State) :
  let started := runScenario txt target e t st in
  let refreshed := refreshHistory history (fst started) in
  let settled := runScenarioSettled txt (snd started) reply refreshed in
  messages settled = messages refreshed
  /\ Forall (fun message => id message <> IdString (snd started)) (messages refreshed)
  /\ exists stored analysis_data,
      calls settled = calls refreshed ++ [addChatMessage stored "bot" txt analysis_data].
Proof.
  intros started refreshed settled.
  assert (Forall (fun message => id message <> IdString (createMessageId e))
                 (messages refreshed)) as Hnone.
  { destruct (refreshHistory_messages history (fst started)) as (l & Heq).
    fold refreshed in Heq. rewrite Heq. constructor.
    - intros [= H]. symmetry in H. exact (createMessageId_not_welcome e H).
    - apply Forall_forall. intros m Hm. apply list_elem_of_In, in_map_iff in Hm.
      destruct Hm as (item & <- & _). discriminate. }
  split; [|split; [exact Hnone|]].
  - unfold settled, runScenarioSettled. change (snd started) with (createMessageId e).
    destruct reply as [result|];
      cbn [messages setIsLoading request setMessages];
      now apply map_untouched.
  - unfold settled, runScenarioSettled.
    destruct reply as [result|]; cbn [calls setIsLoading request setMessages]; eauto.
Qed.

(** **** The stored id *)

Lemma replaceId_id (localId : string) (n : Z) (message : Message) :
  id (replaceId localId n message) <> IdString localId.
Proof.
  unfold replaceId. destruct (idEq (id message) (IdString localId)) eqn:E;
    [discriminate | now apply ViewFacts.idEq_neq].
Qed.

Lemma replaceId_untouched (localId : string) (n : Z) (l : list Message) :
  Forall (fun message => id message <> IdString localId) l ->
  map (replaceId localId n) l = l.
Proof. apply (map_untouched (IdString localId)). Qed.

(** X8: when a stored message comes back with a non-zero [message_id],
    every message that bore the local id bears the stored id and no
    message bears the local id any more; the other messages, the order and
    the contents are untouched, and a later reply for the same local id
    changes nothing.  A reply without a [message_id], or with 0, leaves
    the state as it is. *)
Theorem stored_id_replaces_local_id (localId : string) (st : State) :
  (forall n,
      n <> 0 ->
      let swapped := messageIdAssigned localId (Some n) st in
      Forall (fun message => id message <> IdString localId) (messages swapped)
      /\ map id (messages swapped)
         = map (fun i => if idEq i (IdString localId) then IdNumber n else i)
               (map id (messages st))
      /\ map (fun m => (text m, sender m, scenario m, pending m, retryable m,
                         analysisData m, isWelcome m, createdAt m))
             (messages swapped)
         = map (fun m => (text m, sender m, scenario m, pending m, retryable m,
                          analysisData m, isWelcome m, createdAt m))
               (messages st)
      /\ input swapped = input st
      /\ isLoading swapped = isLoading st
      /\ calls swapped = calls st
      /\ forall later, messageIdAssigned localId later swapped = swapped)
  /\ messageIdAssigned localId None st = st
  /\ messageIdAssigned localId (Some 0) st = st.
Proof.
  split; [|split; reflexivity].
  intros n Hn swapped.
  assert (messages swapped = map (replaceId localId n) (messages st)) as Hm.
  { unfold swapped, messageIdAssigned. apply Z.eqb_neq in Hn. now rewrite Hn. }
  assert (Forall (fun message => id message <> IdString localId) (messages swapped))
    as Hnone.
  { rewrite Hm. apply Forall_map, Forall_forall. intros m _. apply replaceId_id. }
  split; [exact Hnone|]. split; [|split; [|split; [|split; [|split]]]].
  - rewrite Hm, !map_map. apply map_ext. intros m. unfold replaceId.
    now destruct (idEq (id m) (IdString localId)).
  - rewrite Hm, map_map. apply map_ext. intros m. unfold replaceId.
    now destruct (idEq (id m) (IdString localId)).
  - unfold swapped, messageIdAssigned. now destruct (n =? 0).
  - unfold swapped, messageIdAssigned. now destruct (n =? 0).
  - unfold swapped, messageIdAssigned. now destruct (n =? 0).
  - intros [k|]; [|reflexivity]. unfold messageIdAssigned at 1.
    destruct (k =? 0); [reflexivity|]. unfold setMessages.
    rewrite (replaceId_untouched localId k _ Hnone).
    unfold swapped, messageIdAssigned. apply Z.eqb_neq in Hn. now rewrite Hn.
Qed.

Lemma stored_id_replaces_local_id_witness :
  map id (messages (messageIdAssigned "1762070400000-9f3a6c21d4b8" (Some 9)
                      {| messages := [welcomeMessage; askedMessage; answeredMessage;
                                      askedAgainMessage];
                         input := ""; isLoading := false; calls := [] |}))
  = [IdString "welcome"; IdNumber 7; IdNumber 8; IdNumber 9].
Proof.
  rewrite (proj1 (proj2 (proj1 (stored_id_replaces_local_id
                                  "1762070400000-9f3a6c21d4b8"
                                  {| messages := [welcomeMessage; askedMessage;
                                                  answeredMessage; askedAgainMessage];
                                     input := ""; isLoading := false; calls := [] |})
                           9 ltac:(discriminate)))).
  reflexivity.
Defined.

(** **** The requests of a run *)

(** X9: [runScenario] asks the History Store to delete a message only
    when the id it is given is a non-zero number, and then before the
    analysis is requested; for a local (string) id it issues no delete
    request.  Its last request is [analyzeScenario] for the scenario and it
    issues no other.  When the id is truthy and is not the id of the new
    pending message, no message with that id is left in the list. *)
Theorem runScenario_requests (txt : string) (target : option MessageId)
        (e : Entropy) (t : Z) (st : State) :
  calls (fst (runScenario txt target e t st))
  = calls st
    ++ match target with
       | Some (IdNumber n) => if n =? 0 then [] else [deleteChatMessage n]
       | _ => []
       end
    ++ [analyzeScenario txt]
  /\ (forall n,
        In (deleteChatMessage n) (calls (fst (runScenario txt target e t st))) ->
        In (deleteChatMessage n) (calls st)
        \/ (target = Some (IdNumber n) /\ n <> 0))
  /\ (forall tg,
        target = Some tg ->
        idTruthy target = true ->
        tg <> IdString (createMessageId e) ->
        Forall (fun message => id message <> tg)
               (messages (fst (runScenario txt target e t st)))).
Proof.
  assert (calls (fst (runScenario txt target e t st))
          = calls st
            ++ match target with
               | Some (IdNumber n) => if n =? 0 then [] else [deleteChatMessage n]
               | _ => []
               end
            ++ [analyzeScenario txt]) as Hcalls.
  { unfold runScenario. cbn [fst].
    destruct target as [[s|n]|]; cbn [calls request setMessages setIsLoading idTruthy];
      try reflexivity.
    destruct (n =? 0); cbn [negb calls request setIsLoading];
      now rewrite <- ?app_assoc. }
  split; [exact Hcalls|]. split.
  - intros n. rewrite Hcalls, !in_app_iff.
    intros [H | [H | [H | []]]]; [now left | | discriminate H].
    destruct target as [[s|m]|]; try destruct H.
    destruct (m =? 0) eqn:Hm; [destruct H|]. destruct H as [[= ->] | []].
    right. split; [reflexivity | now apply Z.eqb_neq].
  - intros tg -> Htruthy Hfresh.
    destruct (runScenario_messages txt (Some tg) e t st) as (p & Hid & _ & ->).
    rewrite Htruthy. apply Forall_app. split.
    + apply Forall_forall. intros m Hm.
      apply list_elem_of_In, filter_In in Hm as [_ Hm].
      apply negb_true_iff, ViewFacts.idEq_neq in Hm. exact Hm.
    + constructor; [|constructor]. rewrite Hid. congruence.
Qed.

Lemma runScenario_requests_witness :
  calls (fst (runScenario "Port strike halts exports" (Some (IdNumber 8)) entropy3
                1762070460000
                {| messages := [welcomeMessage; askedMessage; answeredMessage];
                   input := ""; isLoading := false; calls := [] |}))
  = [deleteChatMessage 8; analyzeScenario "Port strike halts exports"]
  /\ Forall (fun message => id message <> IdNumber 8)
            (messages (fst (runScenario "Port strike halts exports"
                              (Some (IdNumber 8)) entropy3 1762070460000
                              {| messages := [welcomeMessage; askedMessage;
                                              answeredMessage];
                                 input := ""; isLoading := false; calls := [] |}))).
Proof.
  split; [reflexivity|].
  apply (proj2 (proj2 (runScenario_requests "Port strike halts exports"
                         (Some (IdNumber 8)) entropy3 1762070460000
                         {| messages := [welcomeMessage; askedMessage; answeredMessage];
                            input := ""; isLoading := false; calls := [] |}))
           (IdNumber 8) eq_refl eq_refl).
  discriminate.
Defined.

End FlowFacts.

(** *** The shape of the impact summary and of the impact details *)

Module ShapeFacts.
Import Js Api Chatbot Readings MoreReadings ObjectFacts SummaryFacts Samples MoreSamples.

Lemma StronglySorted_any {A : Type} (l : list A) :
  StronglySorted (fun _ _ => True) l.
Proof.
  induction l as [|x l IH]; constructor; [exact IH|].
  apply Forall_forall. auto.
Qed.

Lemma StronglySorted_app_inv {A : Type} (R : A -> A -> Prop) (l1 l2 : list A) :
  StronglySorted R (l1 ++ l2) ->
  forall x y, In x l1 -> In y l2 -> R x y.
Proof.
  induction l1 as [|z l1 IH]; simpl; intros Hs x y Hx Hy; [destruct Hx|].
  apply StronglySorted_inv in Hs as [Hs Hz].
  destruct Hx as [<- | Hx]; [|now apply IH].
  rewrite Forall_forall in Hz. apply Hz, list_elem_of_In, in_or_app. now right.
Qed.

Lemma byTotalImpactDesc_antisym (x y : CountrySummary) :
  0 < byTotalImpactDesc x y -> byTotalImpactDesc y x < 0.
Proof. unfold byTotalImpactDesc. lia. Qed.

Lemma byTotalImpactDesc_trans (x y z : CountrySummary) :
  byTotalImpactDesc x y <= 0 -> byTotalImpactDesc y z <= 0 ->
  byTotalImpactDesc x z <= 0.
Proof. unfold byTotalImpactDesc. lia. Qed.

Lemma byAbsDeltaDesc_antisym (x y : SummaryItem) :
  0 < byAbsDeltaDesc x y -> byAbsDeltaDesc y x < 0.
Proof. unfold byAbsDeltaDesc. lia. Qed.

Lemma byAbsDeltaDesc_trans (x y z : SummaryItem) :
  byAbsDeltaDesc x y <= 0 -> byAbsDeltaDesc y z <= 0 -> byAbsDeltaDesc x z <= 0.
Proof. unfold byAbsDeltaDesc. lia. Qed.

Lemma fold_left_through_map {A B C : Type} (f : C -> B -> C) (g : A -> B)
      (l : list A) (acc : C) :
  fold_left f (map g l) acc = fold_left (fun acc x => f acc (g x)) l acc.
Proof.
  revert acc; induction l as [|x l IH]; intros acc; simpl; [reflexivity|].
  apply IH.
Qed.

Lemma totalImpact_countryTotal (l : list Impact) (c : string) (am : obj Group) :
  In (c, am) (groupImpacts l) ->
  totalImpact (countrySummaryOf (c, am)) = countryTotal l c.
Proof.
  intros Hin. destruct (groupImpacts_distinctKeys l) as [Hk _].
  unfold countryTotal. rewrite (In_get _ _ _ Hk Hin).
  unfold countrySummaryOf. cbn [totalImpact snd].
  now rewrite fold_left_through_map.
Qed.

(** The summary before the mapping to entries. *)
Lemma buildImpactSummary_sorted (analysisData : option AnalysisData) :
  exists l,
    default [] (analysisData ≫= impacts) = l
    /\ buildImpactSummary analysisData
       = map (fun cs =>
                {| entry_country := summary_country cs;
                   entry_aspects :=
                     take 2 (sort byAbsDeltaDesc (summary_aspects cs)) |})
             (sort byTotalImpactDesc (map countrySummaryOf (groupImpacts l))).
Proof.
  unfold buildImpactSummary.
  destruct (analysisData ≫= impacts) as [[|impact l]|]; simpl; eauto.
Qed.

Lemma keys_addImpact (m : obj (obj Group)) (impact : Impact) (c : string) :
  In c (keys (addImpact m impact)) -> In c (keys m) \/ c = country impact.
Proof.
  unfold addImpact. rewrite keys_set.
  set (m1 := if has m (country impact) then m else set m (country impact) []).
  assert (In c (keys m1) -> In c (keys m) \/ c = country impact) as H1.
  { unfold m1. destruct (has m (country impact)) eqn:E; [now left|].
    rewrite keys_set, E, in_app_iff. intros [H | [<- | []]]; auto. }
  destruct (has m1 (country impact)); [exact H1|].
  rewrite in_app_iff. intros [H | [<- | []]]; auto.
Qed.

Lemma keys_fold_addImpact (l : list Impact) (m : obj (obj Group)) (c : string) :
  In c (keys (fold_left addImpact l m)) ->
  In c (keys m) \/ exists impact, In impact l /\ country impact = c.
Proof.
  revert m; induction l as [|impact l IH]; intros m; simpl; [now left|].
  intros H. apply IH in H as [H | (i & Hi & Hc)]; [|right; eauto].
  apply keys_addImpact in H as [H | ->]; [now left | right; eauto].
Qed.

Lemma keys_groupImpacts (l : list Impact) (c : string) :
  In c (keys (groupImpacts l)) <-> exists impact, In impact l /\ country impact = c.
Proof.
  split.
  - intros H. apply keys_fold_addImpact in H as [[] | H]. exact H.
  - intros (impact & Hin & <-).
    destruct (get (groupImpacts l) (country impact)) as [am|] eqn:Hrow.
    + apply get_Some_In in Hrow. unfold keys.
      change (country impact) with (fst (country impact, am)). now apply in_map.
    + exfalso.
      pose proof (lookupGroup_groupImpacts l (country impact) (aspect impact)) as Hg.
      unfold lookupGroup in Hg. rewrite Hrow in Hg. simpl in Hg.
      assert (In impact (List.filter (hits (country impact) (aspect impact)) l)) as Hf.
      { apply filter_In. split; [exact Hin|]. unfold hits.
        now rewrite !String.eqb_refl. }
      destruct (List.filter _ l); [destruct Hf | discriminate Hg].
Qed.

(** X10: the impact summary has one entry for each country that some
    impact names and no country twice; the countries come in descending
    order of their total absolute impact; every entry shows at most two
    aspects, in descending order of absolute delta, and no aspect of the
    country that is left out has a larger absolute delta than one that is
    shown. *)
Theorem buildImpactSummary_shape (analysisData : option AnalysisData) :
  let l := default [] (analysisData ≫= impacts) in
  let summary := buildImpactSummary analysisData in
  NoDup (map entry_country summary)
  /\ (forall c, In c (map entry_country summary)
                <-> exists impact, In impact l /\ country impact = c)
  /\ StronglySorted
       (fun e1 e2 => countryTotal l (entry_country e2) <= countryTotal l (entry_country e1))
       summary
  /\ (forall entry,
        In entry summary ->
        (length (entry_aspects entry) <= 2)%nat
        /\ StronglySorted
             (fun i1 i2 => Z.abs (summary_delta i2) <= Z.abs (summary_delta i1))
             (entry_aspects entry)
        /\ forall shown a g,
            In shown (entry_aspects entry) ->
            lookupGroup (groupImpacts l) (entry_country entry) a = Some g ->
            In (summaryItem (a, g)) (entry_aspects entry)
            \/ Z.abs (group_delta g) <= Z.abs (summary_delta shown)).
Proof.
  intros l summary.
  destruct (buildImpactSummary_sorted analysisData) as (l' & Hl & Hsum).
  fold l in Hl. subst l'. fold summary in Hsum.
  destruct (groupImpacts_distinctKeys l) as [Hk Hrows].
  pose proof (keys_groupImpacts l) as Hnamed.
  pose proof (totalImpact_countryTotal l) as Htotal.
  set (G := groupImpacts l) in *.
  set (CS := map countrySummaryOf G) in *.
  set (mk := fun cs =>
               {| entry_country := summary_country cs;
                  entry_aspects :=
                    take 2 (sort byAbsDeltaDesc (summary_aspects cs)) |}) in *.
  assert (map summary_country CS = keys G) as Hkeys.
  { unfold CS, keys. rewrite map_map. apply map_ext. now intros [c am]. }
  assert (Permutation (map entry_country summary) (keys G)) as Hperm.
  { rewrite Hsum, map_map. change (fun x => entry_country (mk x)) with summary_country.
    rewrite <- Hkeys. apply Permutation_map, sort_Permutation. }
  assert (forall cs, In cs (sort byTotalImpactDesc CS) ->
                     exists c am, In (c, am) G /\ cs = countrySummaryOf (c, am)) as Hcs.
  { intros cs Hin. apply sort_In, in_map_iff in Hin as ([c am] & <- & Hin). eauto. }
  assert (forall items : list SummaryItem,
             StronglySorted
               (fun i1 i2 => Z.abs (summary_delta i2) <= Z.abs (summary_delta i1))
               (sort byAbsDeltaDesc items)) as Hitems.
  { intros items.
    pose proof (sort_StronglySorted byAbsDeltaDesc (fun _ _ => True)
                  byAbsDeltaDesc_antisym byAbsDeltaDesc_trans items
                  (StronglySorted_any items)) as Hs.
    rewrite <- (map_id (sort byAbsDeltaDesc items)).
    eapply StronglySorted_map_In; cycle 1; [exact Hs|].
    intros a b _ _ Hp. unfold Datatypes.id.
    apply (precedes_le byAbsDeltaDesc) in Hp. unfold byAbsDeltaDesc in Hp. lia. }
  split; [now rewrite Hperm|]. split; [|split].
  - intros c. rewrite Hperm. apply Hnamed.
  - rewrite Hsum.
    pose proof (sort_StronglySorted byTotalImpactDesc (fun _ _ => True)
                  byTotalImpactDesc_antisym byTotalImpactDesc_trans CS
                  (StronglySorted_any CS)) as Hs.
    eapply StronglySorted_map_In; cycle 1; [exact Hs|].
    intros a b Ha Hb Hp.
    apply Hcs in Ha as (ca & ama & Hina & ->).
    apply Hcs in Hb as (cb & amb & Hinb & ->).
    apply (precedes_le byTotalImpactDesc) in Hp. unfold byTotalImpactDesc in Hp.
    rewrite (Htotal ca ama Hina), (Htotal cb amb Hinb) in Hp.
    simpl. lia.
  - intros entry Hentry. rewrite Hsum in Hentry.
    apply in_map_iff in Hentry as (cs & <- & Hin).
    apply Hcs in Hin as (c & am & Hrow & ->). cbn [mk entry_aspects entry_country].
    cbn [countrySummaryOf summary_aspects summary_country fst snd].
    set (sorted := sort byAbsDeltaDesc (map summaryItem am)).
    split; [rewrite length_take; lia|]. split.
    + pose proof (Hitems (map summaryItem am)) as Hs. fold sorted in Hs.
      rewrite <- (take_drop 2 sorted) in Hs.
      clear - Hs. induction (take 2 sorted) as [|x pre IH]; [constructor|].
      simpl in Hs. apply StronglySorted_inv in Hs as [Hs Hx].
      constructor; [now apply IH|]. now apply Forall_app in Hx as [Hx _].
    + intros shown a g Hshown Hg.
      unfold lookupGroup in Hg. rewrite (In_get _ _ _ Hk Hrow) in Hg. simpl in Hg.
      apply get_Some_In in Hg.
      assert (In (summaryItem (a, g)) sorted) as Hmem
          by (apply sort_In, in_map; exact Hg).
      rewrite <- (take_drop 2 sorted) in Hmem. apply in_app_or in Hmem as [Hm | Hm];
        [now left | right].
      pose proof (Hitems (map summaryItem am)) as Hs. fold sorted in Hs.
      rewrite <- (take_drop 2 sorted) in Hs.
      exact (StronglySorted_app_inv _ _ _ Hs shown (summaryItem (a, g)) Hshown Hm).
Qed.

Lemma buildImpactSummary_shape_witness :
  map (fun entry => length (entry_aspects entry))
      (buildImpactSummary (Some (analysisOf manyImpacts)))
  = [2%nat; 1%nat]
  /\ In "Japan" (map entry_country (buildImpactSummary (Some (analysisOf manyImpacts)))).
Proof.
  split; [reflexivity|].
  apply (proj1 (proj2 (buildImpactSummary_shape (Some (analysisOf manyImpacts)))) "Japan").
  exists energyShock. split; [left; reflexivity | reflexivity].
Defined.

(** X11: the impact details are empty without a reply or without
    [aspect_scores]; otherwise they hold one entry for each country of
    [aspect_scores], each item with the score of its country and aspect
    (none when the row lacks the aspect), the delta of [aspect_deltas] or
    0, and the reason of [aspect_reasons] or the empty string, which
    [formatReason] shows as nothing; with a consistent [localeCompare] the
    entries stand in its order. *)
Theorem buildImpactDetails_shape (localeCompare : string -> string -> Z)
        (analysisData : option AnalysisData) :
  (analysisData ≫= aspect_scores = None ->
   buildImpactDetails localeCompare analysisData = [])
  /\ (forall data scores,
        analysisData = Some data ->
        aspect_scores data = Some scores ->
        Permutation (map detail_country (buildImpactDetails localeCompare analysisData))
                    (keys scores)
        /\ (forall entry,
              In entry (buildImpactDetails localeCompare analysisData) ->
              exists row,
                In (detail_country entry, row) scores
                /\ Forall (fun item =>
                             detail_score item = get row (detail_aspect item)
                             /\ detail_delta item
                                = deltaOf data (detail_country entry) (detail_aspect item)
                             /\ detail_reason item
                                = Some (reasonOf data (detail_country entry)
                                                 (detail_aspect item))
                             /\ (aspect_deltas data = None -> detail_delta item = 0)
                             /\ (aspect_reasons data = None -> formatReason item = ""))
                          (detail_aspects entry))
        /\ ((forall x y, 0 < localeCompare x y -> localeCompare y x < 0) ->
            (forall x y z, localeCompare x y <= 0 -> localeCompare y z <= 0 ->
                           localeCompare x z <= 0) ->
            StronglySorted
              (fun e1 e2 => localeCompare (detail_country e1) (detail_country e2) <= 0)
              (buildImpactDetails localeCompare analysisData))).
Proof.
  split.
  - destruct analysisData as [data|]; [|reflexivity]. simpl. unfold buildImpactDetails.
    now intros ->.
  - intros data scores -> Hscores. split; [|split].
    + unfold buildImpactDetails. rewrite Hscores.
      rewrite (Permutation_map detail_country (sort_Permutation _ _)).
      rewrite map_map. unfold keys.
      rewrite (map_ext _ fst); [reflexivity | now intros [c row]].
    + intros entry Hentry.
      apply ReferenceFacts.buildImpactDetails_entries in Hentry
        as (scores' & c & row & Hs & Hin & ->).
      rewrite Hscores in Hs. injection Hs as <-. exists row. split; [exact Hin|].
      cbn [detail_aspects detail_country]. apply Forall_map, Forall_forall.
      intros a _. cbn [detail_score detail_delta detail_reason detail_aspect].
      repeat split.
      * intros Hnone. unfold deltaOf. now rewrite Hnone.
      * intros Hnone. unfold formatReason, reasonOf. cbn [detail_reason].
        now rewrite Hnone.
    + intros Hanti Htrans. unfold buildImpactDetails. rewrite Hscores.
      set (cmp := fun a b => localeCompare (detail_country a) (detail_country b)).
      pose proof (sort_StronglySorted cmp (fun _ _ => True)
                    ltac:(intros x y; apply Hanti)
                    ltac:(intros x y z; apply Htrans)) as Hs.
      match goal with
      | |- StronglySorted _ (sort _ ?entries) =>
          specialize (Hs entries (StronglySorted_any entries));
          rewrite <- (map_id (sort cmp entries))
      end.
      eapply StronglySorted_map_In; cycle 1; [exact Hs|].
      intros a b _ _ Hp. unfold Datatypes.id.
      exact (precedes_le cmp _ a b Hp).
Qed.

Lemma buildImpactDetails_shape_witness :
  Permutation (map detail_country (buildImpactDetails lengthCompare (Some plainReply)))
              ["USA"; "Japan"]
  /\ StronglySorted
       (fun e1 e2 => lengthCompare (detail_country e1) (detail_country e2) <= 0)
       (buildImpactDetails lengthCompare (Some plainReply)).
Proof.
  destruct (proj2 (buildImpactDetails_shape lengthCompare (Some plainReply))
              plainReply
              [("USA", [("Economic Stability", 70); ("Energy Security", 64)]);
               ("Japan", [("Economic Stability", 75); ("Energy Security", 78)])]
              eq_refl eq_refl) as (Hp & _ & Hs).
  split; [exact Hp|]. apply Hs.
  - unfold lengthCompare. intros x y. lia.
  - unfold lengthCompare. intros x y z. lia.
Defined.

End ShapeFacts.

(** *** The charts of the Dashboard, the bar graph and the heatmap *)

Module ChartFacts.
Import Js JsMore Api Readings MoreReadings ObjectFacts RankingFacts Samples MoreSamples.
Import DashboardCharts.

(** **** Objects built by assignment in a loop *)


Lemma existsb_eqb_In (k : string) (l : list string) :
  existsb (String.eqb k) l = true <-> In k l.
Proof.
  rewrite existsb_exists. split.
  - intros (x & Hin & Heq). apply String.eqb_eq in Heq. now subst.
  - intros Hin. exists k. split; [exact Hin | apply String.eqb_refl].
Qed.



(** **** The ranked countries in the charts *)

Lemma ranked_scores_descend (data : option AnalysisData) :
  NoDup (keys (DashboardPage.countryScores data)) ->
  StronglySorted (fun a b => b <= a)
                 (map (scoreOf (DashboardPage.countryScores data))
                      (DashboardPage.sortedCountries data)).
Proof.
  intros Hnd.
  pose proof (sortedCountries_ranked _ data (listedInOrder_self _ Hnd)) as Hs.
  eapply StronglySorted_map_In; cycle 1; [exact Hs|].
  intros a b _ _ Hab. unfold ranksBefore in Hab. lia.
Qed.

Lemma leader_has_top_score (data : option AnalysisData) (leader : string) :
  NoDup (keys (DashboardPage.countryScores data)) ->
  head (DashboardPage.sortedCountries data) = Some leader ->
  In leader (keys (DashboardPage.countryScores data))
  /\ forall c, In c (keys (DashboardPage.countryScores data)) ->
               scoreOf (DashboardPage.countryScores data) c
               <= scoreOf (DashboardPage.countryScores data) leader.
Proof.
  intros Hnd Hhead.
  pose proof (sortedCountries_ranked _ data (listedInOrder_self _ Hnd)) as Hs.
  pose proof (sortedCountries_Permutation data) as Hp.
  destruct (DashboardPage.sortedCountries data) as [|x rest]; [discriminate|].
  injection Hhead as ->. apply StronglySorted_inv in Hs as [_ Hrest].
  split; [apply (Permutation_in _ Hp); now left|].
  intros c Hc. apply (Permutation_in _ (Permutation_sym Hp)) in Hc as [<- | Hc]; [lia|].
  rewrite Forall_forall in Hrest. apply list_elem_of_In, Hrest in Hc.
  unfold ranksBefore in Hc. lia.
Qed.

Lemma hasData_false_empty (data : option AnalysisData) :
  DashboardPage.hasData data = false -> DashboardPage.sortedCountries data = [].
Proof. unfold DashboardPage.sortedCountries. now intros ->. Qed.

Lemma hasData_true_leader (data : option AnalysisData) :
  DashboardPage.hasData data = true ->
  exists leader, head (DashboardPage.sortedCountries data) = Some leader.
Proof.
  intros Hd. unfold DashboardPage.sortedCountries. rewrite Hd.
  unfold DashboardPage.hasData, keys in Hd.
  pose proof (sort_length DashboardPage.byScoreDesc (DashboardPage.countryScores data))
    as Hlen.
  destruct (sort DashboardPage.byScoreDesc (DashboardPage.countryScores data))
    as [|e rest]; simpl; [|eauto].
  destruct (DashboardPage.countryScores data); [discriminate Hd | discriminate Hlen].
Qed.

(** X13: the line chart is there whenever there are data, but for the one
    case that no country is selected and the first ranked country has the
    empty name; without data it is absent.  With no country selected it
    shows the first ranked country, whose score no country exceeds; with
    a country selected it shows that country.  Its data are the scenario
    scores of the country along the aspect order, a missing score
    counting as 0, one value for each label. *)
Theorem scoreMovementData_shows_leader (analysisData : option DashboardData)
        (selectedCountry : string) :
  (scoreMovementData analysisData selectedCountry = None
   <-> hasData analysisData = false
       \/ (selectedCountry = ""
           /\ head (DashboardPage.sortedCountries (reply <$> analysisData))
              = Some ""))
  /\ (forall chart,
        scoreMovementData analysisData selectedCountry = Some chart ->
        length (movement_data chart) = length (movement_labels chart)
        /\ movement_data chart
           = map (cell (scenarioAspects analysisData) (movement_label chart))
                 (aspectOrder analysisData)
        /\ (selectedCountry <> "" -> movement_label chart = selectedCountry)
        /\ (selectedCountry = "" ->
            NoDup (keys (countryScores analysisData)) ->
            In (movement_label chart) (keys (countryScores analysisData))
            /\ forall c, In c (keys (countryScores analysisData)) ->
                         scoreOf (countryScores analysisData) c
                         <= scoreOf (countryScores analysisData) (movement_label chart))).
Proof.
  unfold scoreMovementData. split.
  { destruct (hasData analysisData) eqn:Hd; simpl; [|split; auto].
    destruct (hasData_true_leader _ Hd) as (leader & Hleader).
    unfold sortedCountries, truthy. rewrite Hleader.
    destruct (String.eqb_spec selectedCountry "") as [-> | Hsel]; simpl.
    - destruct (String.eqb_spec leader "") as [-> | Hne]; simpl.
      + split; auto.
      + split; [discriminate|]. intros [H | [_ H]]; congruence.
    - apply String.eqb_neq in Hsel as Hsel'. rewrite Hsel'. simpl.
      split; [discriminate|]. intros [H | [H _]]; congruence. }
  intros chart. destruct (negb (hasData analysisData)); [discriminate|].
  destruct (truthy (Some selectedCountry)) eqn:Hsel.
  - rewrite Hsel. simpl. intros [= <-]. cbn [movement_data movement_labels movement_label].
    split; [unfold aspectLabels; now rewrite !length_map|]. split; [reflexivity|].
    split; [reflexivity|]. intros ->. discriminate Hsel.
  - destruct (head (sortedCountries analysisData)) as [leader|] eqn:Hhead;
      [|discriminate].
    destruct (negb (truthy (Some leader))); [discriminate|].
    intros [= <-]. cbn [movement_data movement_labels movement_label].
    split; [unfold aspectLabels; now rewrite !length_map|]. split; [reflexivity|].
    split.
    + intros Hne. simpl in Hsel. apply String.eqb_neq in Hne. now rewrite Hne in Hsel.
    + intros _ Hnd. now apply leader_has_top_score.
Qed.

Lemma scoreMovementData_shows_leader_witness :
  movement_label <$> scoreMovementData (Some (dashboardOf bareReply)) "" = Some "Japan".
Proof.
  destruct (scoreMovementData (Some (dashboardOf bareReply)) "") as [chart|] eqn:E;
    [|discriminate E].
  destruct (proj2 (scoreMovementData_shows_leader (Some (dashboardOf bareReply)) "")
              chart E) as (_ & _ & _ & Hlead).
  injection E as <-. reflexivity.
Defined.

(** X14: the comparison chart is there exactly when there are data.  Its
    labels are the ranked countries, the scenario bar of a label is the
    score of that country, so the scenario bars never increase down the
    chart, and the baseline bar is the baseline score of the country or 0
    when the baseline holds none. *)
Theorem compareBarData_follows_ranking (analysisData : option DashboardData) :
  (compareBarData analysisData = None <-> hasData analysisData = false)
  /\ (forall bars,
        compareBarData analysisData = Some bars ->
        bars_labels bars = DashboardPage.sortedCountries (reply <$> analysisData)
        /\ length (bars_scenario bars) = length (bars_labels bars)
        /\ length (bars_baseline bars) = length (bars_labels bars)
        /\ bars_scenario bars
           = map (scoreOf (countryScores analysisData)) (bars_labels bars)
        /\ bars_baseline bars
           = map (scoreOf (baselineScores analysisData)) (bars_labels bars)
        /\ (NoDup (keys (countryScores analysisData)) ->
            StronglySorted (fun a b => b <= a) (bars_scenario bars))).
Proof.
  unfold compareBarData. split; [destruct (hasData analysisData); now split|].
  intros bars. destruct (negb (hasData analysisData)); [discriminate|].
  intros [= <-]. cbn [bars_labels bars_scenario bars_baseline].
  rewrite !length_map. repeat split.
  intros Hnd. now apply ranked_scores_descend.
Qed.

Lemma compareBarData_follows_ranking_witness :
  (fun bars => (bars_labels bars, bars_baseline bars, bars_scenario bars))
    <$> compareBarData (Some (dashboardOf bareReply))
  = Some (["Japan"; "USA"; "India"], [71; 66; 0], [71; 62; 62]).
Proof.
  destruct (compareBarData (Some (dashboardOf bareReply))) as [bars|] eqn:E;
    [|discriminate E].
  destruct (proj2 (compareBarData_follows_ranking (Some (dashboardOf bareReply)))
              bars E) as (Hl & _ & _ & Hs & Hb & _).
  injection E as <-. reflexivity.
Defined.

(** **** Colours *)

Lemma getDeltaColor_cases (delta : Z) :
  (8 <= delta /\ getDeltaColor delta = "#15803d")
  \/ (3 <= delta < 8 /\ getDeltaColor delta = "#16a34a")
  \/ (delta <= -8 /\ getDeltaColor delta = "#b91c1c")
  \/ (-8 < delta <= -3 /\ getDeltaColor delta = "#ef4444")
  \/ (-3 < delta < 3 /\ getDeltaColor delta = "#f59e0b").
Proof.
  unfold getDeltaColor.
  destruct (Z.leb_spec 8 delta); [now left|].
  destruct (Z.leb_spec 3 delta); [right; left; split; [lia | reflexivity]|].
  destruct (Z.leb_spec delta (-8)); [right; right; left; split; [lia | reflexivity]|].
  destruct (Z.leb_spec delta (-3));
    [right; right; right; left; split; [lia | reflexivity]|].
  right; right; right; right. split; [lia | reflexivity].
Qed.

(** X15: [getDeltaColor] is symmetric about zero.  The opposite delta gets
    the mirrored colour, dark green against dark red from 8 and green
    against red from 3, and a delta is amber exactly when it lies strictly
    between -3 and 3. *)
Theorem getDeltaColor_mirrors (delta : Z) :
  getDeltaColor (- delta) = mirror (getDeltaColor delta)
  /\ (getDeltaColor delta = "#f59e0b" <-> -3 < delta < 3)
  /\ (getDeltaColor delta = "#15803d" \/ getDeltaColor delta = "#16a34a" <-> 3 <= delta)
  /\ (getDeltaColor delta = "#b91c1c" \/ getDeltaColor delta = "#ef4444" <-> delta <= -3).
Proof.
  split; [|split; [|split]].
  - destruct (getDeltaColor_cases delta) as [[H ->] | [[H ->] | [[H ->] | [[H ->] | [H ->]]]]];
      destruct (getDeltaColor_cases (- delta))
        as [[H' ->] | [[H' ->] | [[H' ->] | [[H' ->] | [H' ->]]]]];
      try lia; reflexivity.
  - destruct (getDeltaColor_cases delta) as [[H ->] | [[H ->] | [[H ->] | [[H ->] | [H ->]]]]];
      split; try discriminate; try lia; auto.
  - destruct (getDeltaColor_cases delta) as [[H ->] | [[H ->] | [[H ->] | [[H ->] | [H ->]]]]];
      split; try lia; auto; intros [E | E]; discriminate E.
  - destruct (getDeltaColor_cases delta) as [[H ->] | [[H ->] | [[H ->] | [[H ->] | [H ->]]]]];
      split; try lia; auto; intros [E | E]; discriminate E.
Qed.

(** **** The figures of the impact summary *)

Lemma join_empty (l : list string) :
  join l ", " = "" <-> l = [] \/ l = [""].
Proof.
  destruct l as [|x [|y l]]; simpl.
  - tauto.
  - split; [intros ->; now right | intros [H | [= ->]]; [discriminate | reflexivity]].
  - split; [|intros [H | H]; discriminate H].
    intros H. apply (f_equal String.length) in H.
    rewrite !JsFacts.length_append in H. simpl in H. lia.
Qed.

(** X16: a figure of the impact summary is never empty.  It reads 'N/A'
    when the reply, its summary or the list is missing, when the list is
    empty and when the list holds one empty name; in every other case it
    is the names joined by a comma and a space. *)
Theorem summary_figures_never_empty (analysisData : option DashboardData) :
  (forall names, joinedOrNA names <> "")
  /\ (forall names,
        names = None \/ names = Some [] \/ names = Some [""] ->
        joinedOrNA names = "N/A")
  /\ (forall l, l <> [] -> l <> [""] -> joinedOrNA (Some l) = join l ", ")
  /\ (analysisData ≫= impact_summary = None ->
      topRisers analysisData = "N/A"
      /\ topFallers analysisData = "N/A"
      /\ topAspects analysisData = "N/A").
Proof.
  split; [|split; [|split]].
  - intros [l|]; [|discriminate]. unfold joinedOrNA.
    destruct (truthy (Some (join l ", "))) eqn:E; [|discriminate].
    simpl in E. apply negb_true_iff, String.eqb_neq in E. exact E.
  - intros names [-> | [-> | ->]]; reflexivity.
  - intros l Hne Hne'. unfold joinedOrNA.
    destruct (truthy (Some (join l ", "))) eqn:E; [reflexivity|].
    simpl in E. apply negb_false_iff, String.eqb_eq, join_empty in E. tauto.
  - unfold topRisers, topFallers, topAspects, impactSummary. intros ->.
    repeat split.
Qed.

Lemma summary_figures_never_empty_witness :
  joinedOrNA (Some ["Japan"; "India"]) = "Japan, India".
Proof.
  rewrite (proj1 (proj2 (proj2 (summary_figures_never_empty None)))
             ["Japan"; "India"]); [reflexivity | discriminate | discriminate].
Defined.

(** **** The bar graph *)

(** X17: given a reply with [country_scores], the effect of the bar graph
    replaces the chart: its labels are the ranking of the Dashboard, every
    bar is the score of its label and the bars never increase; given no
    reply, or a reply without [country_scores], the effect leaves the
    chart it had. *)
Theorem bar_graph_follows_ranking (data : option AnalysisData)
        (chartData : option BarGraph.ChartData) :
  (data ≫= country_scores = None -> BarGraph.effect data chartData = chartData)
  /\ (forall scores,
        data ≫= country_scores = Some scores ->
        exists chart,
          BarGraph.effect data chartData = Some chart
          /\ BarGraph.labels chart = DashboardPage.sortedCountries data
          /\ length (BarGraph.data chart) = length (BarGraph.labels chart)
          /\ (NoDup (keys scores) ->
              BarGraph.data chart = map (scoreOf scores) (BarGraph.labels chart)
              /\ StronglySorted (fun a b => b <= a) (BarGraph.data chart))).
Proof.
  unfold BarGraph.effect, obj. split; [now intros ->|].
  intros scores Hs. rewrite Hs. eexists. split; [reflexivity|].
  cbn [BarGraph.labels BarGraph.data].
  assert (DashboardPage.countryScores data = scores) as Hc
      by (unfold DashboardPage.countryScores, obj; now rewrite Hs).
  split; [now rewrite sortedCountries_sort, Hc|].
  split; [now rewrite !length_map|].
  intros Hnd.
  assert (map snd (sort DashboardPage.byScoreDesc scores)
          = map (scoreOf scores) (map fst (sort DashboardPage.byScoreDesc scores)))
    as Hdata.
  { rewrite map_map. apply map_ext_in. intros e He. symmetry.
    apply scoreOf_entry; [exact Hnd | now apply sort_In in He]. }
  split; [exact Hdata|]. rewrite Hdata.
  pose proof (ranked_scores_descend data) as Hd.
  rewrite sortedCountries_sort, Hc in Hd. now apply Hd.
Qed.

Lemma bar_graph_follows_ranking_witness :
  exists chart,
    BarGraph.effect (Some bareReply) None = Some chart
    /\ BarGraph.labels chart = ["Japan"; "USA"; "India"].
Proof.
  destruct (proj2 (bar_graph_follows_ranking (Some bareReply) None)
              [("USA", 62); ("Japan", 71); ("India", 62)] eq_refl)
    as (chart & Hc & Hl & _).
  exists chart. split; [exact Hc|]. rewrite Hl. reflexivity.
Defined.

(** **** The heatmap *)

Lemma getColorForScore_cases (score : option Z) :
  (HeatmapTable.atLeast score 40 = true
   /\ (HeatmapTable.getColorForScore score = "#27ae60"
       \/ HeatmapTable.getColorForScore score = "#2ecc71"
       \/ HeatmapTable.getColorForScore score = "#f39c12"))
  \/ (HeatmapTable.atLeast score 40 = false
      /\ (HeatmapTable.getColorForScore score = "#e74c3c"
          \/ HeatmapTable.getColorForScore score = "#c0392b")).
Proof.
  unfold HeatmapTable.getColorForScore.
  destruct score as [s|]; simpl; [|right; auto].
  destruct (Z.leb_spec 80 s); [left; split; [lia | auto]|].
  destruct (Z.leb_spec 60 s); [left; split; [lia | auto]|].
  destruct (Z.leb_spec 40 s); [left; split; [lia | auto]|].
  right. split; [reflexivity|]. destruct (Z.leb_spec 20 s); auto.
Qed.

(** X18: every row of the heatmap has one cell for each of the seven
    aspects, coloured by its score; the text of a cell is white exactly
    when its background is one of the two reds, which is when the score is
    below 40 or missing, and dark on the greens and the orange. *)
Theorem heatmap_text_contrasts (tableData : obj (obj Z)) :
  forall row,
    In row (HeatmapTable.rows tableData) ->
    length (HeatmapTable.row_cells row) = 7%nat
    /\ Forall (fun cell =>
                 HeatmapTable.cell_backgroundColor cell
                 = HeatmapTable.getColorForScore (HeatmapTable.cell_score cell)
                 /\ (HeatmapTable.cell_color cell = "#ffffff"
                     <-> HeatmapTable.cell_backgroundColor cell = "#e74c3c"
                         \/ HeatmapTable.cell_backgroundColor cell = "#c0392b")
                 /\ (HeatmapTable.cell_color cell = "#ffffff"
                     <-> HeatmapTable.cell_score cell = None
                         \/ exists s, HeatmapTable.cell_score cell = Some s /\ s < 40)
                 /\ (HeatmapTable.cell_color cell = "#ffffff"
                     \/ HeatmapTable.cell_color cell = "#1a1a1a"))
              (HeatmapTable.row_cells row).
Proof.
  intros row Hrow. unfold HeatmapTable.rows in Hrow.
  apply in_map_iff in Hrow as ([country aspects] & <- & _).
  cbn [HeatmapTable.row_cells]. split; [reflexivity|].
  apply Forall_map, Forall_forall. intros aspect _.
  cbn [HeatmapTable.cell_backgroundColor HeatmapTable.cell_score HeatmapTable.cell_color].
  split; [reflexivity|].
  destruct (getColorForScore_cases (get aspects aspect))
    as [[Hge Hbg] | [Hlt Hbg]]; rewrite ?Hge, ?Hlt.
  - split; [|split; [|now right]].
    + split; [discriminate|]. intros [E | E]; rewrite E in Hbg;
        destruct Hbg as [H | [H | H]]; discriminate H.
    + split; [discriminate|]. intros [E | (s & E & Hs)]; rewrite E in Hge;
        simpl in Hge; [discriminate | lia].
  - split; [|split; [|now left]].
    + split; [intros _; exact Hbg | reflexivity].
    + split; [|reflexivity]. intros _.
      destruct (get aspects aspect) as [s|]; [right | now left].
      exists s. split; [reflexivity|]. simpl in Hlt. lia.
Qed.

Lemma heatmap_text_contrasts_witness :
  map (fun row => map HeatmapTable.cell_color (HeatmapTable.row_cells row))
      (HeatmapTable.rows [("Japan", [("Economic Stability", 75); ("Energy Security", 12)])])
  = [["#1a1a1a"; "#ffffff"; "#ffffff"; "#ffffff"; "#ffffff"; "#ffffff"; "#ffffff"]]
  /\ length (HeatmapTable.rows
               [("Japan", [("Economic Stability", 75); ("Energy Security", 12)])])
     = 1%nat.
Proof.
  split; [|reflexivity].
  pose proof (heatmap_text_contrasts
                [("Japan", [("Economic Stability", 75); ("Energy Security", 12)])]
                _ (or_introl eq_refl)) as [_ _].
  reflexivity.
Defined.

(** X19: for a reply with [aspect_scores], the heatmap and the impact
    details of the Chatbot show the same countries with the same seven
    scores each; the heatmap keeps the order of the reply and the details
    are sorted, so the two agree up to the order of the rows. *)
Theorem heatmap_agrees_with_details (localeCompare : string -> string -> Z)
        (data : AnalysisData) (scores : obj (obj Z))
        (tableData : option (obj (obj Z))) :
  aspect_scores data = Some scores ->
  HeatmapTable.effect (Some data) tableData = Some scores
  /\ Permutation
       (map (fun row => (HeatmapTable.row_country row,
                         map HeatmapTable.cell_score (HeatmapTable.row_cells row)))
            (HeatmapTable.rows scores))
       (map (fun entry => (Chatbot.detail_country entry,
                           map Chatbot.detail_score (Chatbot.detail_aspects entry)))
            (Chatbot.buildImpactDetails localeCompare (Some data)))
  /\ map HeatmapTable.row_country (HeatmapTable.rows scores) = keys scores.
Proof.
  intros Hs. split; [|split].
  - unfold HeatmapTable.effect. simpl. unfold obj in *. now rewrite Hs.
  - unfold Chatbot.buildImpactDetails. rewrite Hs.
    rewrite (Permutation_map _ (sort_Permutation _ _)).
    unfold HeatmapTable.rows.
    match goal with
    | |- Permutation ?x ?y => assert (x = y) as ->; [|reflexivity]
    end.
    rewrite !map_map. apply map_ext. intros [c row].
    cbn [HeatmapTable.row_country HeatmapTable.row_cells Chatbot.detail_country
         Chatbot.detail_aspects].
    rewrite !map_map. reflexivity.
  - unfold HeatmapTable.rows, keys. rewrite map_map. apply map_ext. now intros [c row].
Qed.

Lemma heatmap_agrees_with_details_witness :
  HeatmapTable.effect (Some bareReply) None
  = Some [("USA", [("Economic Stability", 55); ("Energy Security", 64)]);
          ("Japan", [("Economic Stability", 75); ("Energy Security", 100)])].
Proof.
  apply (proj1 (heatmap_agrees_with_details lengthCompare bareReply _ None eq_refl)).
Defined.

End ChartFacts.

(** ** App.jsx: the session *)

Module SessionFacts.
Import Js JsMore App MoreSamples.

Lemma sound_signedOut (message : string) : MoreReadings.soundSession (signedOut message).
Proof. split; cbn; [discriminate | auto]. Qed.

Lemma sound_handleAuthSuccess (u : option User) :
  MoreReadings.soundSession (handleAuthSuccess u).
Proof. split; cbn; [reflexivity | discriminate]. Qed.

Lemma sound_withError (e : option string) (fallback : string) (prev : AuthState) :
  MoreReadings.soundSession prev -> MoreReadings.soundSession (withError e fallback prev).
Proof. intros H. exact H. Qed.

Lemma reachable_sound (st : AuthState) :
  reachable st -> MoreReadings.soundSession st.
Proof.
  induction 1.
  - split; cbn; [discriminate | auto].
  - destruct outcome as [[s|]|e]; cbn; try apply sound_signedOut.
    destruct (status_authenticated s);
      [apply sound_handleAuthSuccess | apply sound_signedOut].
  - destruct outcome; cbn; [apply sound_handleAuthSuccess | now apply sound_withError].
  - destruct outcome; cbn; [apply sound_handleAuthSuccess | now apply sound_withError].
  - destruct outcome; cbn; [apply sound_handleAuthSuccess | now apply sound_withError].
  - destruct outcome; cbn; [apply sound_handleAuthSuccess | now apply sound_withError].
  - apply sound_signedOut.
Qed.

(** X20: Whatever the requests of the session answered, the workspace is
    shown only to a signed-in user whose record says a key is stored, the
    key form of the login page only to a signed-in user without one, and a
    signed-out state keeps no user. *)
Theorem workspace_needs_stored_key (st : AuthState) :
  reachable st ->
  (screen st = Workspace ->
   authenticated st = true /\
   exists u, user st = Some u /\ has_api_key u = true) /\
  (authenticated st = true -> needsApiKey st = true ->
   screen st <> Workspace /\
   forall u, user st = Some u -> has_api_key u = false) /\
  (authenticated st = false -> user st = None /\ screen st <> Workspace).
Proof.
  intros Hr. apply reachable_sound in Hr. destruct Hr as [Hin Hout].
  unfold screen. repeat split.
  - destruct (loading st); [discriminate|].
    destruct (authenticated st); [reflexivity | discriminate].
  - destruct (loading st); [discriminate|].
    destruct (authenticated st) eqn:Ha; [|discriminate].
    cbn in H. destruct (needsApiKey st) eqn:Hn; [discriminate|].
    specialize (Hin eq_refl). unfold lacksApiKey in Hin.
    destruct (user st) as [u|]; [|discriminate].
    exists u. split; [reflexivity|]. now destruct (has_api_key u).
  - rewrite H, H0. cbn. destruct (loading st); discriminate.
  - intros u Hu. specialize (Hin H). rewrite H0, Hu in Hin. cbn in Hin.
    now destruct (has_api_key u).
  - now apply Hout.
  - rewrite H. cbn. destruct (loading st); discriminate.
Qed.

Lemma workspace_needs_stored_key_witness :
  reachable (handleLogin (Succeeded (Some keyedUser)) initialAuthState) /\
  screen (handleLogin (Succeeded (Some keyedUser)) initialAuthState) = Workspace /\
  exists u, user (handleLogin (Succeeded (Some keyedUser)) initialAuthState) = Some u /\
            has_api_key u = true.
Proof.
  assert (Hr : reachable (handleLogin (Succeeded (Some keyedUser)) initialAuthState))
    by (apply reach_handleLogin, reach_initial).
  split; [exact Hr|]. split; [reflexivity|].
  exact (proj2 (proj1 (workspace_needs_stored_key _ Hr) eq_refl)).
Defined.

(** X21: A sign-in, registration, Google sign-in or key save that fails
    leaves the session as it was, shows the same screen and sets a
    message that is never empty: the one of the server, or the one of the
    handler when the server sent none or an empty one. Signing out ends
    the session however the request settles. *)
Theorem failed_request_keeps_session (e : option string) (prev : AuthState) :
  Forall (fun st =>
            authenticated st = authenticated prev /\
            user st = user prev /\
            needsApiKey st = needsApiKey prev /\
            screen st = screen prev /\
            error st <> "" /\
            (forall m, e = Some m -> m <> "" -> error st = m))
         [ handleLogin (Failed e) prev; handleRegister (Failed e) prev;
           handleGoogleLogin (Failed e) prev; handleApiKeySave (Failed e) prev ] /\
  (e = None \/ e = Some "" ->
   map error
       [ handleLogin (Failed e) prev; handleRegister (Failed e) prev;
         handleGoogleLogin (Failed e) prev; handleApiKeySave (Failed e) prev ]
   = [ "Login failed."; "Registration failed."; "Google login failed.";
       "Failed to save API key." ]) /\
  forall outcome,
    authenticated (handleLogout outcome prev) = false /\
    user (handleLogout outcome prev) = None /\
    screen (handleLogout outcome prev) = LoginScreen.
Proof.
  split; [|split; [intros [-> | ->]; reflexivity | intros; repeat split]].
  repeat constructor; cbn;
    try (destruct e as [m|]; cbn; [destruct (String.eqb_spec m "")|];
         cbn; congruence);
    intros m -> Hm; cbn; destruct (String.eqb_spec m ""); cbn; congruence.
Qed.

(** X22: The state of the sidebar survives a reload: what [toggleSidebar]
    stores is read back as the state it set, and with nothing stored the
    sidebar starts collapsed. *)
Theorem sidebar_state_round_trip (sidebarCollapsed : bool) (storage : obj string) :
  initialSidebarCollapsed (snd (toggleSidebar (sidebarCollapsed, storage)))
  = fst (toggleSidebar (sidebarCollapsed, storage)) /\
  fst (toggleSidebar (toggleSidebar (sidebarCollapsed, storage))) = sidebarCollapsed /\
  fst (toggleSidebar (sidebarCollapsed, storage)) = negb sidebarCollapsed /\
  (get storage "sidebarCollapsed" = None -> initialSidebarCollapsed storage = true).
Proof.
  unfold toggleSidebar, initialSidebarCollapsed. cbn [fst snd].
  repeat split.
  - rewrite ObjectFacts.get_set_eq. now destruct sidebarCollapsed.
  - now destruct sidebarCollapsed.
  - intros ->. reflexivity.
Qed.

Lemma failed_request_keeps_session_witness :
  error (handleLogin (Failed (Some "")) initialAuthState) = "Login failed." /\
  error (handleLogin (Failed (Some "Invalid credentials")) initialAuthState)
  = "Invalid credentials" /\
  screen (handleLogout (Failed None) (handleAuthSuccess (Some keyedUser))) = LoginScreen.
Proof.
  split; [|split].
  - pose proof (proj1 (proj2 (failed_request_keeps_session (Some "")
                                initialAuthState)) (or_intror eq_refl)) as H.
    exact (f_equal (hd "") H).
  - pose proof (proj1 (failed_request_keeps_session (Some "Invalid credentials")
                         initialAuthState)) as H.
    apply Forall_cons_1 in H. destruct H as [(_ & _ & _ & _ & _ & Hm) _].
    apply (Hm "Invalid credentials"); [reflexivity | discriminate].
  - exact (proj2 (proj2 (proj2 (proj2 (failed_request_keeps_session None
                                         (handleAuthSuccess (Some keyedUser))))
                          (Failed None)))).
Defined.

Lemma sidebar_state_round_trip_witness :
  initialSidebarCollapsed [("theme", "ocean")] = true /\
  initialSidebarCollapsed (snd (toggleSidebar (true, [("theme", "ocean")]))) = false.
Proof.
  split.
  - apply (proj2 (proj2 (proj2 (sidebar_state_round_trip true [("theme", "ocean")])))).
    reflexivity.
  - exact (proj1 (sidebar_state_round_trip true [("theme", "ocean")])).
Defined.

End SessionFacts.

(** ** App.jsx: the appearance *)

Module AppearanceFacts.
Import Js JsMore App MoreReadings MoreSamples.

Lemma eqb_In (k : string) (l : list string) :
  existsb (String.eqb k) l = true <-> In k l.
Proof.
  rewrite existsb_exists. split.
  - intros (x & Hin & Heq). apply String.eqb_eq in Heq. now subst.
  - intros Hin. exists k. split; [exact Hin | apply String.eqb_refl].
Qed.

Lemma In_classRemove (c : string) (classList tokens : list string) :
  In c (classRemove classList tokens) <-> In c classList /\ ~ In c tokens.
Proof.
  unfold classRemove. rewrite filter_In, negb_true_iff, <- (eqb_In c tokens).
  destruct (existsb (String.eqb c) tokens); split; intros [H1 H2];
    (split; [exact H1|]).
  - discriminate H2.
  - now contradiction H2.
  - intros H3. discriminate H3.
  - reflexivity.
Qed.

Lemma In_classAdd (c : string) (classList : list string) (token : string) :
  In c (classAdd classList token) <-> In c classList \/ c = token.
Proof.
  unfold classAdd. destruct (existsb (String.eqb token) classList) eqn:E.
  - apply eqb_In in E. split; [auto | intros [H | ->]; assumption].
  - rewrite in_app_iff. cbn. intuition.
Qed.

Lemma NoDup_classRemove (classList tokens : list string) :
  List.NoDup classList -> List.NoDup (classRemove classList tokens).
Proof. apply List.NoDup_filter. Qed.

Lemma NoDup_classAdd (classList : list string) (token : string) :
  List.NoDup classList -> List.NoDup (classAdd classList token).
Proof.
  intros Hn. unfold classAdd. destruct (existsb (String.eqb token) classList) eqn:E.
  - exact Hn.
  - apply List.NoDup_app; [exact Hn | |].
    + constructor; [intros [] | constructor].
    + intros x Hx [<- | []]. apply eqb_In in Hx. congruence.
Qed.

Lemma themed (theme : string) :
  ("theme-" ++ theme)%string
  = String "t" (String "h" (String "e" (String "m" (String "e" (String "-" theme))))).
Proof. reflexivity. Qed.

Lemma applyTheme_classList (theme : string) (body : Body) :
  classList (applyTheme theme body)
  = if existsb (String.eqb (themeClass theme)) themeClasses
    then classAdd (classRemove (classList body) themeClasses) (themeClass theme)
    else classRemove (classList body) themeClasses.
Proof.
  unfold applyTheme, themeClass. cbn [classList].
  destruct (String.eqb_spec theme "dark") as [-> | Hdark]; [reflexivity|].
  rewrite themed. unfold themeClasses. cbn.
  repeat match goal with
         | |- context [String.eqb theme ?s] =>
             destruct (String.eqb_spec theme s) as [-> | ?]; [reflexivity|]
         end.
  reflexivity.
Qed.

Lemma swap_class (classList tokens : list string) (token : string) :
  let after := classAdd (classRemove classList tokens) token in
  In token after /\
  (forall c, In c tokens -> In c after -> c = token) /\
  (forall c, ~ In c tokens -> (In c after <-> In c classList \/ c = token)) /\
  (List.NoDup classList -> List.NoDup after).
Proof.
  cbn zeta. split; [|split; [|split]].
  - apply In_classAdd. now right.
  - intros c Hc Hin. apply In_classAdd in Hin as [Hin | ->]; [|reflexivity].
    apply In_classRemove in Hin as [_ Hn]. contradiction.
  - intros c Hc. rewrite In_classAdd, In_classRemove. tauto.
  - intros Hn. now apply NoDup_classAdd, NoDup_classRemove.
Qed.

Lemma getItemOr_set (storage : obj string) (key value fallback : string) :
  getItemOr (set storage key value) key fallback
  = if String.eqb value "" then fallback else value.
Proof.
  unfold getItemOr. rewrite ObjectFacts.get_set_eq. cbn.
  now destruct (String.eqb value "").
Qed.

(** X23: After the effect on the theme the body carries, among the twelve
    theme classes, exactly the class of the theme: [dark-theme] for the
    dark theme, [theme-] and its name for the eleven others, and none for
    the light theme or an unknown name. Every other class stays, no class
    is doubled, and what is stored is the theme a reload starts with,
    except that an empty name is read back as the light theme. *)
Theorem theme_effect_leaves_one_theme_class (theme : string) (body : Body) :
  (forall c, In c themeClasses ->
             (In c (classList (applyTheme theme body)) <-> c = themeClass theme)) /\
  (forall c, ~ In c themeClasses ->
             (In c (classList (applyTheme theme body)) <-> In c (classList body))) /\
  (List.NoDup (classList body) -> List.NoDup (classList (applyTheme theme body))) /\
  initialTheme (localStorage (applyTheme theme body))
  = (if String.eqb theme "" then "light" else theme) /\
  style_fontFamily (applyTheme theme body) = style_fontFamily body.
Proof.
  rewrite applyTheme_classList.
  destruct (swap_class (classList body) themeClasses (themeClass theme))
    as (Hin & Hone & Hrest & Hnodup).
  destruct (existsb (String.eqb (themeClass theme)) themeClasses) eqn:E.
  - apply eqb_In in E. split; [|split; [|split; [|split]]].
    + intros c Hc. split; [now apply Hone | now intros ->].
    + intros c Hc. rewrite Hrest by exact Hc. split; [|tauto].
      intros [H | ->]; [exact H | contradiction].
    + exact Hnodup.
    + apply getItemOr_set.
    + reflexivity.
  - assert (~ In (themeClass theme) themeClasses) as Hout.
    { intros H. apply eqb_In in H. congruence. }
    split; [|split; [|split; [|split]]].
    + intros c Hc. rewrite In_classRemove. split; [tauto | intros ->; contradiction].
    + intros c Hc. rewrite In_classRemove. tauto.
    + apply NoDup_classRemove.
    + apply getItemOr_set.
    + reflexivity.
Qed.

Lemma theme_effect_leaves_one_theme_class_witness :
  In "theme-rose" (classList (applyTheme "rose" styledBody)) /\
  ~ In "theme-ocean" (classList (applyTheme "rose" styledBody)) /\
  In "font-huge" (classList (applyTheme "rose" styledBody)) /\
  List.NoDup (classList (applyTheme "rose" styledBody)).
Proof.
  destruct (theme_effect_leaves_one_theme_class "rose" styledBody)
    as (Hone & Hrest & Hnodup & _).
  split; [|split; [|split]].
  - apply (Hone "theme-rose"); [cbn; tauto | reflexivity].
  - intros H. apply (Hone "theme-ocean") in H; [discriminate | cbn; tauto].
  - apply (Hrest "font-huge"); [cbn; intuition discriminate | cbn; tauto].
  - apply Hnodup. cbn.
    repeat (constructor; [cbn; intuition discriminate|]). constructor.
Defined.

Lemma font_token (s : string) :
  ("font-" ++ s)%string
  = String "f" (String "o" (String "n" (String "t" (String "-" s)))).
Proof. reflexivity. Qed.

(** A class after [font-] is accepted exactly when what follows holds no
    white space. *)
Lemma classListAdd_font (classList : list string) (s : string) :
  classListAdd classList ("font-" ++ s)%string
  = if hasAsciiWhitespace s then None
    else Some (classAdd classList ("font-" ++ s)%string).
Proof. unfold classListAdd. rewrite !font_token. reflexivity. Qed.

(** X24: the effect on the font size throws, for a size that holds white
    space, when it comes to add the class: the three size classes are
    removed by then, no class is added and nothing is stored.  For any
    other size the effect runs to its end: the body carries the class
    [font-] and the size and no other of the three size classes, and the
    size stored is the one a reload starts with, an empty one being read
    back as medium.  A class outside the three is never removed: the
    class of a size that is none of small, medium and large stays on the
    body through every later run of the effect. *)
Theorem font_size_effect (fontSize : string) (body : Body) :
  (hasAsciiWhitespace fontSize = true ->
   applyFontSize fontSize body
   = Threw {| classList := classRemove (classList body) fontSizeClasses;
              style_fontFamily := style_fontFamily body;
              localStorage := localStorage body |})
  /\ (hasAsciiWhitespace fontSize = false ->
      exists after,
        applyFontSize fontSize body = Completed after
        /\ In ("font-" ++ fontSize)%string (classList after)
        /\ (forall c, In c fontSizeClasses -> In c (classList after) ->
                      c = ("font-" ++ fontSize)%string)
        /\ (forall c, ~ In c fontSizeClasses ->
                      (In c (classList after)
                       <-> In c (classList body) \/ c = ("font-" ++ fontSize)%string))
        /\ initialFontSize (localStorage after)
           = (if String.eqb fontSize "" then "medium" else fontSize)
        /\ (forall next later,
              ~ In ("font-" ++ fontSize)%string fontSizeClasses ->
              applyFontSize next after = Completed later
              \/ applyFontSize next after = Threw later ->
              In ("font-" ++ fontSize)%string (classList later))).
Proof.
  unfold applyFontSize. split.
  - intros Hw. now rewrite classListAdd_font, Hw.
  - intros Hw. rewrite classListAdd_font, Hw. eexists. split; [reflexivity|].
    cbn [classList localStorage].
    destruct (swap_class (classList body) fontSizeClasses ("font-" ++ fontSize)%string)
      as (Hin & Hone & Hrest & _).
    split; [exact Hin|]. split; [exact Hone|]. split; [exact Hrest|].
    split; [apply getItemOr_set|].
    intros next later Hout Hlater. rewrite classListAdd_font in Hlater.
    assert (In ("font-" ++ fontSize)%string
               (classRemove
                  (classAdd (classRemove (classList body) fontSizeClasses)
                            ("font-" ++ fontSize)%string)
                  fontSizeClasses)) as Hkept
        by (apply In_classRemove; split; [exact Hin | exact Hout]).
    destruct (hasAsciiWhitespace next);
      destruct Hlater as [[= <-] | [= <-]]; cbn [classList].
    + exact Hkept.
    + apply In_classAdd. now left.
Qed.

Lemma font_size_effect_witness :
  hasAsciiWhitespace "extra large" = true
  /\ applyFontSize "extra large" styledBody
     = Threw {| classList := ["app"; "theme-ocean"; "font-huge"; "font-plex"];
                style_fontFamily := "";
                localStorage := [("theme", "ocean")] |}.
Proof.
  split; [reflexivity|].
  exact (proj1 (font_size_effect "extra large" styledBody) eq_refl).
Defined.

Example stale_size_class :
  exists after later,
    applyFontSize "huge" styledBody = Completed after
    /\ applyFontSize "small" after = Completed later
    /\ classList later = ["app"; "theme-ocean"; "font-huge"; "font-plex"; "font-small"].
Proof. do 2 eexists. repeat split. Qed.

Lemma eqb_objectPrototypeKeys (fontFamily : string) :
  existsb (String.eqb fontFamily) objectPrototypeKeys = true
  <-> In fontFamily objectPrototypeKeys.
Proof. apply eqb_In. Qed.

(** No key of [fontMap] is an inherited name, and the class of each is
    one of the six family classes. *)
Lemma fontMap_own (fontFamily name : string) :
  get fontMap fontFamily = Some name ->
  ~ In fontFamily objectPrototypeKeys
  /\ hasAsciiWhitespace name = false
  /\ In ("font-" ++ name)%string fontFamilyClasses.
Proof.
  unfold fontMap. simpl.
  repeat match goal with
         | |- context [String.eqb fontFamily ?k] =>
             destruct (String.eqb_spec fontFamily k) as [-> | ?];
             [intros [= <-]; split;
              [simpl; intuition discriminate | split; [reflexivity | simpl; tauto]]|]
         end.
  discriminate.
Qed.

Lemma font_undefined_outside : ~ In "font-undefined" fontFamilyClasses.
Proof. cbn. intuition discriminate. Qed.

(** X25: the effect on the font family runs to its end for a key of
    [fontMap], and the body then carries the class of the key as its only
    family class, the family as its inline style and the family in the
    storage.  It runs to its end too for a string that is no key and no
    property that [fontMap] inherits: the class is then [font-undefined]
    and no family class is left.  For a property that [fontMap] inherits
    ([toString], [constructor] and the like) it throws when it comes to
    add the class: the family classes are removed by then, and neither
    the style nor the storage is written.  Of the families the settings
    page offers none is an inherited name, and the Comic Sans one alone
    is no key of [fontMap]. *)
Theorem font_family_effect (fontFamily : string) (body : Body) :
  (forall name,
      get fontMap fontFamily = Some name ->
      exists after,
        applyFontFamily fontFamily body = Completed after
        /\ In ("font-" ++ name)%string (classList after)
        /\ (forall c, In c fontFamilyClasses -> In c (classList after) ->
                      c = ("font-" ++ name)%string)
        /\ style_fontFamily after = fontFamily
        /\ get (localStorage after) "fontFamily" = Some fontFamily)
  /\ (get fontMap fontFamily = None ->
      ~ In fontFamily objectPrototypeKeys ->
      exists after,
        applyFontFamily fontFamily body = Completed after
        /\ In "font-undefined" (classList after)
        /\ (forall c, In c fontFamilyClasses -> ~ In c (classList after))
        /\ style_fontFamily after = fontFamily
        /\ get (localStorage after) "fontFamily" = Some fontFamily)
  /\ (In fontFamily objectPrototypeKeys ->
      applyFontFamily fontFamily body
      = Threw {| classList := classRemove (classList body) fontFamilyClasses;
                 style_fontFamily := style_fontFamily body;
                 localStorage := localStorage body |})
  /\ List.filter (fun family => negb (has fontMap family))
                 SettingsPage.fontFamilyOptions
     = ["'Comic Sans MS', 'Comic Sans', cursive"]
  /\ List.filter (fun family => existsb (String.eqb family) objectPrototypeKeys)
                 SettingsPage.fontFamilyOptions
     = [].
Proof.
  unfold applyFontFamily. split; [|split; [|split; [|split]]].
  - intros name Hname. destruct (fontMap_own _ _ Hname) as (_ & Hw & _).
    unfold fontMapText. rewrite Hname, classListAdd_font, Hw.
    eexists. split; [reflexivity|]. cbn [classList style_fontFamily localStorage].
    destruct (swap_class (classList body) fontFamilyClasses ("font-" ++ name)%string)
      as (Hin & Hone & _ & _).
    split; [exact Hin|]. split; [exact Hone|]. split; [reflexivity|].
    apply ObjectFacts.get_set_eq.
  - intros Hnone Hout. unfold fontMapText. rewrite Hnone.
    destruct (existsb (String.eqb fontFamily) objectPrototypeKeys) eqn:E;
      [now apply eqb_objectPrototypeKeys in E|].
    rewrite classListAdd_font. simpl hasAsciiWhitespace.
    eexists. split; [reflexivity|]. cbn [classList style_fontFamily localStorage].
    destruct (swap_class (classList body) fontFamilyClasses "font-undefined")
      as (Hin & Hone & _ & _).
    split; [exact Hin|]. split; [|split; [reflexivity | apply ObjectFacts.get_set_eq]].
    intros c Hc Hafter. pose proof (Hone c Hc Hafter) as ->.
    exact (font_undefined_outside Hc).
  - intros Hin. simpl in Hin.
    repeat (destruct Hin as [<- | Hin]; [reflexivity|]). destruct Hin.
  - reflexivity.
  - reflexivity.
Qed.

Lemma font_family_effect_witness :
  In "toString" objectPrototypeKeys
  /\ applyFontFamily "toString" styledBody
     = Threw {| classList := ["app"; "theme-ocean"; "font-huge"];
                style_fontFamily := "";
                localStorage := [("theme", "ocean")] |}
  /\ exists after,
      applyFontFamily "'Comic Sans MS', 'Comic Sans', cursive" styledBody
      = Completed after
      /\ In "font-undefined" (classList after).
Proof.
  assert (In "toString" objectPrototypeKeys) as Hin by (simpl; tauto).
  split; [exact Hin|].
  destruct (font_family_effect "toString" styledBody) as (_ & _ & Hthrow & _).
  split; [exact (Hthrow Hin)|].
  destruct (font_family_effect "'Comic Sans MS', 'Comic Sans', cursive" styledBody)
    as (_ & Hundefined & _).
  destruct Hundefined as (after & Hafter & Hclass & _);
    [reflexivity | simpl; intuition discriminate |].
  exists after. split; assumption.
Defined.

End AppearanceFacts.

(** ** pages/SettingsPage.jsx and pages/LoginPage.jsx *)

Module SettingsFacts.
Import Js Api SettingsPage MoreSamples.

(** X26: Confirming the deletion of the chat closes the dialog and
    forgets the action however the request settles. When it succeeds the
    stored analysis is removed and the two events are dispatched, so that
    the Chatbot is back at its welcome message alone and the analysis of
    the pages is dropped; when it fails nothing but the request went out,
    and the status says the chat could not be cleared. *)
Theorem confirmed_chat_deletion (reply : Reply unit) (st : State) (world : Listeners) :
  confirmAction st = Some "delete-chat" ->
  let st' := handleConfirmDelete reply st in
  isConfirmOpen st' = false /\
  confirmAction st' = None /\
  apiKey st' = apiKey st /\
  apiKeyStatus st' = apiKeyStatus st /\
  exists sent,
    effects st' = effects st ++ clearChatHistory :: sent /\
    match reply with
    | Resolved _ =>
        chatStatus st' = "Chat is now cleared." /\
        In (removeItem "resilitrack_analysis_data") sent /\
        Chatbot.messages (chatbot (fold_left deliver sent world))
        = Chatbot.defaultMessages /\
        analysisData (fold_left deliver sent world) = None
    | Rejected =>
        chatStatus st' = "Unable to clear chat right now." /\ sent = []
    end.
Proof.
  intros Haction st'. subst st'. unfold handleConfirmDelete. rewrite Haction.
  rewrite (bool_decide_eq_true_2 _ eq_refl).
  destruct reply as [[]|]; cbn.
  - repeat split. eexists. split; [reflexivity|].
    repeat split. cbn. tauto.
  - repeat split. exists []. repeat split.
Qed.

Lemma confirmed_chat_deletion_witness :
  confirmAction (handleDeleteChat settingsAtRest) = Some "delete-chat" /\
  isConfirmOpen (handleConfirmDelete (Resolved tt) (handleDeleteChat settingsAtRest))
  = false.
Proof.
  split; [reflexivity|].
  exact (proj1 (confirmed_chat_deletion (Resolved tt) (handleDeleteChat settingsAtRest)
                  busyWorld eq_refl)).
Defined.

(** X27: A confirmation that is not one of the chat deletion never asks
    for the chat to be cleared and dispatches no event: the Chatbot and
    the analysis of the pages stay as they are and so does the status of
    the chat. It leaves the page for the base address exactly when the
    deletion of the account was asked and succeeded. *)
Theorem other_confirmation_spares_chat (reply : Reply unit) (st : State)
        (world : Listeners) :
  confirmAction st <> Some "delete-chat" ->
  let st' := handleConfirmDelete reply st in
  isConfirmOpen st' = false /\
  confirmAction st' = None /\
  chatStatus st' = chatStatus st /\
  exists sent,
    effects st' = effects st ++ sent /\
    ~ In clearChatHistory sent /\
    fold_left deliver sent world = world /\
    (In navigateToBase sent <->
     confirmAction st = Some "delete-account" /\ reply = Resolved tt).
Proof.
  intros Haction st'. subst st'. unfold handleConfirmDelete.
  rewrite (bool_decide_eq_false_2 _ Haction).
  destruct (bool_decide (confirmAction st = Some "delete-account")) eqn:E.
  - apply bool_decide_eq_true_1 in E.
    destruct reply as [[]|]; cbn; repeat split; eexists; (split; [reflexivity|]);
      cbn; repeat split; try tauto; try (intuition discriminate).
  - apply bool_decide_eq_false_1 in E. cbn. repeat split. exists [].
    rewrite app_nil_r. cbn. repeat split; try tauto.
Qed.

Lemma other_confirmation_spares_chat_witness :
  confirmAction (handleDeleteAccount settingsAtRest) <> Some "delete-chat" /\
  chatStatus (handleConfirmDelete Rejected (handleDeleteAccount settingsAtRest))
  = chatStatus (handleDeleteAccount settingsAtRest).
Proof.
  assert (confirmAction (handleDeleteAccount settingsAtRest) <> Some "delete-chat")
    as Hother by discriminate.
  split; [exact Hother|].
  exact (proj1 (proj2 (proj2 (other_confirmation_spares_chat Rejected
                                (handleDeleteAccount settingsAtRest) busyWorld Hother)))).
Defined.

Lemma truthy_trim (s : string) :
  truthy (Some (trim s)) = negb (String.eqb (trim s) "").
Proof. reflexivity. Qed.

(** X28: Both key forms save the key trimmed and never a blank one: a key
    of white space alone changes nothing and asks for nothing, and any
    other key goes out once, without the white space around it. The field
    is emptied when the save succeeds and keeps what was typed when it
    fails. *)
Theorem api_key_forms_save_trimmed (reply : Reply unit) (st : State)
        (typed : string) (asked : list Effect) :
  (trim (apiKey st) = "" -> handleApiKeySubmit reply st = st) /\
  (trim typed = "" ->
   loginHandleApiKeySubmit reply (typed, asked) = (typed, asked)) /\
  (trim (apiKey st) <> "" ->
   effects (handleApiKeySubmit reply st)
   = effects st ++ [onApiKeySave (trim (apiKey st))] /\
   apiKey (handleApiKeySubmit reply st)
   = match reply with Resolved _ => "" | Rejected => apiKey st end /\
   apiKeyStatus (handleApiKeySubmit reply st)
   = match reply with
     | Resolved _ => "API key updated."
     | Rejected => "Unable to update API key."
     end) /\
  (trim typed <> "" ->
   loginHandleApiKeySubmit reply (typed, asked)
   = (match reply with Resolved _ => "" | Rejected => typed end,
      asked ++ [onApiKeySave (trim typed)])) /\
  (forall key, In (onApiKeySave key)
                  (effects (handleApiKeySubmit reply st)
                   ++ snd (loginHandleApiKeySubmit reply (typed, asked))) ->
               In (onApiKeySave key) (effects st ++ asked) \/
               (key <> "" /\ trim key = key)).
Proof.
  unfold handleApiKeySubmit, loginHandleApiKeySubmit. rewrite !truthy_trim.
  split; [|split; [|split; [|split]]].
  - intros ->. reflexivity.
  - intros ->. reflexivity.
  - intros Hne. apply String.eqb_neq in Hne. rewrite Hne. cbn.
    destruct reply as [[]|]; cbn; repeat split.
  - intros Hne. apply String.eqb_neq in Hne. rewrite Hne. cbn.
    destruct reply as [[]|]; reflexivity.
  - intros key Hin. apply in_app_or in Hin.
    assert (forall s, String.eqb (trim s) "" = false ->
                      In (onApiKeySave key) [onApiKeySave (trim s)] ->
                      key <> "" /\ trim key = key) as Hsaved.
    { intros s Hs [[= <-] | []]. split.
      - now apply String.eqb_neq.
      - apply FlowFacts.trim_idempotent. }
    destruct Hin as [Hin | Hin].
    + destruct (String.eqb (trim (apiKey st)) "") eqn:E; cbn in Hin.
      * left. apply in_or_app. now left.
      * destruct reply as [[]|]; cbn in Hin; apply in_app_or in Hin;
          (destruct Hin as [Hin | Hin];
           [left; apply in_or_app; now left | right; now apply (Hsaved (apiKey st))]).
    + destruct (String.eqb (trim typed) "") eqn:E; cbn in Hin.
      * left. apply in_or_app. now right.
      * destruct reply as [[]|]; cbn in Hin; apply in_app_or in Hin;
          (destruct Hin as [Hin | Hin];
           [left; apply in_or_app; now right | right; now apply (Hsaved typed)]).
Qed.

Lemma api_key_forms_save_trimmed_witness :
  trim (apiKey settingsAtRest) <> "" /\
  effects (handleApiKeySubmit (Resolved tt) settingsAtRest)
  = [onApiKeySave "AIza-123"] /\
  apiKey (handleApiKeySubmit (Resolved tt) settingsAtRest) = "".
Proof.
  assert (trim (apiKey settingsAtRest) <> "") as Hne by (vm_compute; discriminate).
  split; [exact Hne|].
  destruct (proj1 (proj2 (proj2 (api_key_forms_save_trimmed (Resolved tt)
                                   settingsAtRest "" []))) Hne)
    as (Heffects & Hkey & _).
  split; [exact Heffects | exact Hkey].
Defined.

End SettingsFacts.
